(** * NUMA topology discovery and CPU pinning: [scripts/sysinfo.py]

    A shallow embedding of the topology helpers, the cache optimizer, the
    cluster builder, the two pinning generators, the writers and [main]
    of [sysinfo.py], with the properties of the specification stated over
    it, and further properties of the code.

    Conventions of the embedding:
    - a Python [int] is a [Z]; a [len(..)] and a [range] index is a [nat];
    - a core tuple [tuple[int, ...]] is a [list Z];
    - a raised exception is the [Raise] outcome of [result];
    - [print] appends a message to an explicit log;
    - a [for] loop that appends to a list is a [fold_left] threading it;
    - a [while] loop is run with fuel;
    - opening, writing and closing a file may each raise; a file opened
      for writing is recorded with the text handed to the writes that
      returned. *)

From Stdlib Require Import ZArith Lia Ascii String.
From stdpp Require Import base list strings gmap pretty sorting.

Open Scope Z_scope.

(* ===================================================================== *)
(** ** Exceptions and outcomes *)
(* ===================================================================== *)

(** The exceptions the module can see.  [IOError] is Python's alias of
    [OSError]; [FileNotFoundError] and [PermissionError] are subclasses
    of it. *)
Inductive exn : Set :=
  | OSError
  | FileNotFoundError
  | PermissionError
  | ValueError
  | IndexError.

(** [isinstance(e, OSError)], which is what the clause
    [except (IOError, FileNotFoundError)] tests. *)
Definition is_OSError (e : exn) : bool :=
  match e with
  | OSError | FileNotFoundError | PermissionError => true
  | ValueError | IndexError => false
  end.

(** [isinstance(e, ValueError)]. *)
Definition is_ValueError (e : exn) : bool :=
  match e with
  | ValueError => true
  | _ => false
  end.

Inductive result (A : Type) : Type :=
  | Ok (a : A)
  | Raise (e : exn).
Arguments Ok {A} a.
Arguments Raise {A} e.

Definition rbind {A B} (m : result A) (k : A → result B) : result B :=
  match m with
  | Ok a => k a
  | Raise e => Raise e
  end.

Declare Scope result_scope.
Delimit Scope result_scope with result.
Notation "'let?' x ':=' m 'in' k" := (rbind m (fun x => k))
  (at level 10, x pattern, m at level 100, k at level 200) : result_scope.
Open Scope result_scope.

(** Left-to-right traversal that stops at the first exception. *)
Fixpoint rmapM {A B} (f : A → result B) (l : list A) : result (list B) :=
  match l with
  | [] => Ok []
  | x :: xs =>
      let? y := f x in
      let? ys := rmapM f xs in
      Ok (y :: ys)
  end.

(* ===================================================================== *)
(** ** Python built-ins used by the module *)
(* ===================================================================== *)

(** [max(iterable)]: [ValueError] on an empty iterable. *)
Definition py_max (l : list nat) : result nat :=
  match l with
  | [] => Raise ValueError
  | x :: xs => Ok (fold_left Nat.max xs x)
  end.

(** [l[i]] for a Python list: a negative index counts from the end, an
    index out of range raises [IndexError]. *)
Definition py_index {A} (l : list A) (i : Z) : result A :=
  let n := Z.of_nat (length l) in
  let j := if i <? 0 then i + n else i in
  if (0 <=? j) && (j <? n) then
    match l !! Z.to_nat j with
    | Some x => Ok x
    | None => Raise IndexError
    end
  else Raise IndexError.

(* ===================================================================== *)
(** ** Data model *)
(* ===================================================================== *)

(** [@dataclass NodeInfo]. *)
Record NodeInfo : Set := mkNodeInfo {
  id : Z;
  memory : bool;
  cores_list : list (list Z);
  distance : list Z
}.

(** [@dataclass CPUInfo]. *)
Record CPUInfo : Set := mkCPUInfo {
  logical_id : Z;
  core_id : Z;
  siblings : list Z;
  numa_node : option Z;
  cache_ids : list Z;
  package_id : Z
}.

(** A cluster is a [list[NodeInfo]]; the generators take a list of them. *)
Abbreviation Cluster := (list NodeInfo).

(* ===================================================================== *)
(** ** Text: the [str] methods and [int] *)
(* ===================================================================== *)

(** The files of the topology tree are ASCII text; [str(n)] of an [int]
    is stdpp's [pretty]. *)

(** [c.isspace()] on ASCII: tab, line feed, vertical tab, form feed,
    carriage return, the four separators [0x1c]-[0x1f] and the space. *)
Definition is_space (c : ascii) : bool :=
  let n := nat_of_ascii c in
  ((9 <=? n) && (n <=? 13) || (28 <=? n) && (n <=? 32))%nat.

Definition is_digit (c : ascii) : bool :=
  let n := nat_of_ascii c in ((48 <=? n) && (n <=? 57))%nat.

Fixpoint lstrip (s : string) : string :=
  match s with
  | EmptyString => EmptyString
  | String c s' => if is_space c then lstrip s' else s
  end.

Fixpoint rstrip (s : string) : string :=
  match s with
  | EmptyString => EmptyString
  | String c s' =>
      match rstrip s' with
      | EmptyString => if is_space c then EmptyString else String c EmptyString
      | r => String c r
      end
  end.

(** [s.strip()]. *)
Definition strip (s : string) : string := rstrip (lstrip s).

(** Fields of [s] between the characters satisfying [sep]; always at
    least one field. *)
Fixpoint split_where (sep : ascii → bool) (s : string) : list string :=
  match s with
  | EmptyString => [EmptyString]
  | String c s' =>
      if sep c then EmptyString :: split_where sep s'
      else match split_where sep s' with
           | field :: fields => String c field :: fields
           | [] => [String c EmptyString]
           end
  end.

(** [s.split(c)] for a one-character separator. *)
Definition split_on (c : ascii) (s : string) : list string :=
  split_where (Ascii.eqb c) s.

(** [s.split()]: fields between runs of whitespace, none of them empty. *)
Definition split_ws (s : string) : list string :=
  filter (fun field => field ≠ EmptyString) (split_where is_space s).

(** [c in s]. *)
Fixpoint contains (c : ascii) (s : string) : bool :=
  match s with
  | EmptyString => false
  | String c' s' => Ascii.eqb c c' || contains c s'
  end.

(** [s[n:]]. *)
Fixpoint str_drop (n : nat) (s : string) : string :=
  match n, s with
  | O, _ => s
  | S n', String _ s' => str_drop n' s'
  | S _, EmptyString => EmptyString
  end.

Fixpoint all_digits (s : string) : bool :=
  match s with
  | EmptyString => true
  | String c s' => is_digit c && all_digits s'
  end.

(** [s.isdigit()]: not empty and made of digits. *)
Definition isdigit (s : string) : bool :=
  match s with
  | EmptyString => false
  | _ => all_digits s
  end.

(** The digits of an integer literal: decimal digits, with single
    underscores allowed between two digits. *)
Fixpoint int_digits (acc : Z) (after_digit : bool) (s : string) : option Z :=
  match s with
  | EmptyString => if after_digit then Some acc else None
  | String c s' =>
      if Ascii.eqb c "_" then
        if after_digit then int_digits acc false s' else None
      else if is_digit c then
        int_digits (10 * acc + (Z.of_nat (nat_of_ascii c) - 48)) true s'
      else None
  end.

(** [int(s)] in base 10: surrounding whitespace, an optional sign, the
    digits; [ValueError] otherwise. *)
Definition py_int (s : string) : result Z :=
  let body := strip s in
  let parsed :=
    match body with
    | String "+" digits => int_digits 0 false digits
    | String "-" digits => Z.opp <$> int_digits 0 false digits
    | _ => int_digits 0 false body
    end in
  match parsed with
  | Some n => Ok n
  | None => Raise ValueError
  end.

(** [range(start, stop)] as a list. *)
Definition py_range (start stop : Z) : list Z :=
  map (fun i => start + Z.of_nat i) (seq 0 (Z.to_nat (stop - start))).

(** [sorted(l, key=key)]: the stable sort by [key], written as an
    insertion sort: an element goes before the first later element whose
    key is not smaller, so equal keys keep their order. *)
Fixpoint insert_sorted {A K} (le : K → K → bool) (key : A → K) (x : A)
    (l : list A) : list A :=
  match l with
  | [] => [x]
  | y :: l' =>
      if le (key x) (key y) then x :: y :: l'
      else y :: insert_sorted le key x l'
  end.

Fixpoint py_sorted {A K} (le : K → K → bool) (key : A → K) (l : list A)
  : list A :=
  match l with
  | [] => []
  | x :: l' => insert_sorted le key x (py_sorted le key l')
  end.

(* ===================================================================== *)
(** ** The topology tree *)
(* ===================================================================== *)

(** A [pathlib.Path] is the list of its components. *)
Abbreviation Path := (list string).

Definition CPU_PATH : Path := ["/sys/devices/system/cpu"].
Definition NODE_PATH : Path := ["/sys/devices/system/node"].

(** The tree as the module sees it: what reading a file as text gives
    ([path.open('r')] then [f.read()]) and what listing a directory gives
    ([path.iterdir()], as entry names in listing order).  A failure is the
    exception raised. *)
Record FileSystem : Type := mkFS {
  read_text : Path → result string;
  iterdir : Path → result (list string)
}.

(** A tree given by the text of its files and the entries of its
    directories; anything else is missing. *)
Definition tree (files : list (Path * string))
    (dirs : list (Path * list string)) : FileSystem :=
  mkFS
    (fun path =>
       match List.find (fun f => bool_decide (f.1 = path)) files with
       | Some f => Ok f.2
       | None => Raise FileNotFoundError
       end)
    (fun path =>
       match List.find (fun d => bool_decide (d.1 = path)) dirs with
       | Some d => Ok d.2
       | None => Raise FileNotFoundError
       end).

(** Reading the tree fails only with [OSError] or one of its subclasses
    (a missing entry, a permission error). *)
Definition raises_OSError (fs : FileSystem) : Prop :=
  ∀ path e,
    read_text fs path = Raise e ∨ iterdir fs path = Raise e →
    is_OSError e = true.

(** What [print] writes. *)
Inductive message : Set :=
  | Error_cpu_path
      (* f"Error: Unable to access {CPU_PATH}" *)
  | Warning_cpu (cpu_entry : string) (e : exn)
      (* f"Warning: Could not read complete information for
           {cpu_entry.name}: {str(e)}" *)
  | Warning_memory_nodes_unreadable
      (* "Warning: Could not read memory node information" *)
  | Error_node_path
      (* f"Error: Unable to access {NODE_PATH}" *)
  | Warning_node (node_id : Z) (e : exn)
      (* f"Warning: Could not read node {node_id} information: {str(e)}" *)
  | Warning_no_memory_nodes
      (* "Warning: No memory nodes found!" *).

(** [try: body / except (IOError, FileNotFoundError): handler]. *)
Definition except_OSError {A} (body : result A) (handler : result A)
  : result A :=
  match body with
  | Ok a => Ok a
  | Raise e => if is_OSError e then handler else Raise e
  end.

(** [float('inf')] or an [int], as [min_dist] and the sort keys hold. *)
Inductive ext : Set :=
  | Finite (z : Z)
  | Infinity.

Definition ext_lt (a b : ext) : bool :=
  match a, b with
  | Finite x, Finite y => x <? y
  | Finite _, Infinity => true
  | Infinity, _ => false
  end.

Definition ext_le (a b : ext) : bool := negb (ext_lt b a).

(** Left-to-right loop whose body may raise. *)
Fixpoint rfoldl {St A} (body : St → A → result St) (l : list A) (s : St)
  : result St :=
  match l with
  | [] => Ok s
  | x :: xs => let? s' := body s x in rfoldl body xs s'
  end.

(** An insertion-ordered [dict] with [str] keys. *)
Abbreviation dict V := (list (string * V)).

(** [d[k] = v]: a present key keeps its place. *)
Fixpoint dict_set {V} (k : string) (v : V) (d : dict V) : dict V :=
  match d with
  | [] => [(k, v)]
  | (k', v') :: d' =>
      if String.eqb k k' then (k', v) :: d' else (k', v') :: dict_set k v d'
  end.

(** [d[k].append(x)], for a key of [d]. *)
Definition dict_append {A} (k : string) (x : A) (d : dict (list A))
  : dict (list A) :=
  map (fun kv => if String.eqb k kv.1 then (kv.1, kv.2 ++ [x]) else kv) d.

(* ===================================================================== *)
(** ** [class SystemTopology] *)
(* ===================================================================== *)

Module SystemTopology.

(** An entry of [cores_with_cache]. *)
Record cache_entry : Set := mkEntry {
  core_tuple : list Z;
  cache_id : Z;
  first_logical_id : Z
}.

(** The order of the keys [(cache_id, first_logical_id)]. *)
Definition key_le (a b : Z * Z) : bool :=
  (a.1 <? b.1) || ((a.1 =? b.1) && (a.2 <=? b.2)).

(** [name.startswith(prefix) and name[len(prefix):].isdigit()]. *)
Definition numbered (prefix : string) (name : string) : bool :=
  String.prefix prefix name && isdigit (str_drop (String.length prefix) name).

(** The CPU list of a node: one range ["a-b"] or a comma list. *)
Definition parse_cpulist (cpus_data : string) : result (list Z) :=
  if contains "-" cpus_data then
    (* start, end = map(int, cpus_data.split("-")) *)
    match split_on "-" cpus_data with
    | [a; b] =>
        let? start := py_int a in
        let? stop := py_int b in
        Ok (py_range start (stop + 1))
    | _ => Raise ValueError
    end
  else
    rmapM py_int
      (List.filter (fun i => negb (String.eqb (strip i) EmptyString))
                   (split_on "," cpus_data)).

(** "Remove duplicates while preserving order". *)
Definition dedup_cores (cores_list : list (list Z)) : list (list Z) :=
  (fold_left
     (fun (st : gset (list Z) * list (list Z)) core =>
        if decide (core ∈ st.1) then st
        else ({[core]} ∪ st.1, st.2 ++ [core]))
     cores_list (∅, [])).2.

Section Tree.
Variable fs : FileSystem.

Definition cpu_dir (logical_id : Z) : Path :=
  CPU_PATH ++ ["cpu" +:+ pretty logical_id].

(** The loop of [_get_node_of_cpu] over the entries of the directory. *)
Fixpoint first_node_marker (names : list string) : result (option Z) :=
  match names with
  | [] => Ok None
  | name :: rest =>
      if numbered "node" name
      then let? n := py_int (str_drop 4 name) in Ok (Some n)
      else first_node_marker rest
  end.

Definition _get_node_of_cpu (logical_id : Z) : result (option Z) :=
  except_OSError
    (let? names := iterdir fs (cpu_dir logical_id) in
     first_node_marker names)
    (Ok None).

Definition _get_cpus_logical_ids (logical_id : Z) : result (list Z) :=
  except_OSError
    (let? text :=
       read_text fs (cpu_dir logical_id
                     ++ ["topology"; "thread_siblings_list"]) in
     rmapM py_int (split_on "," (strip text)))
    (Ok []).

(** The reading loop of [_get_cache_info]: the ids read so far and the
    exception that stopped it, if any. *)
Fixpoint read_cache_ids (cache_path : Path) (cache_dirs : list string)
    (cache_ids : list Z) : list Z * option exn :=
  match cache_dirs with
  | [] => (cache_ids, None)
  | cache_dir :: rest =>
      match (let? text := read_text fs (cache_path ++ [cache_dir; "id"]) in
             py_int (strip text)) with
      | Ok n => read_cache_ids cache_path rest (cache_ids ++ [n])
      | Raise e => (cache_ids, Some e)
      end
  end.

Definition _get_cache_info (logical_id : Z) : result (list Z) :=
  let cache_path := cpu_dir logical_id ++ ["cache"] in
  match
    (let? names := iterdir fs cache_path in
     rmapM (fun name => let? k := py_int (str_drop 5 name) in Ok (k, name))
           (List.filter (numbered "index") names))
  with
  | Raise e => if is_OSError e then Ok [] else Raise e
  | Ok keyed =>
      let cache_dirs := map snd (py_sorted Z.leb fst keyed) in
      match read_cache_ids cache_path cache_dirs [] with
      | (cache_ids, None) => Ok cache_ids
      | (cache_ids, Some e) =>
          if is_OSError e then Ok cache_ids else Raise e
      end
  end.

(** The body of the [try] of [get_cpu_info] for one CPU directory. *)
Definition read_cpu (cpu_entry : string) (cpu_nbr : Z) : result CPUInfo :=
  let topology_dir := CPU_PATH ++ [cpu_entry; "topology"] in
  let? siblings_text :=
    read_text fs (topology_dir ++ ["thread_siblings_list"]) in
  let? siblings :=
    rmapM py_int
      (List.filter (fun x => negb (String.eqb (strip x) EmptyString))
                   (split_on "," (strip siblings_text))) in
  let? core_id_text := read_text fs (topology_dir ++ ["core_id"]) in
  let? core_id := py_int (strip core_id_text) in
  let? package_id_text :=
    read_text fs (topology_dir ++ ["physical_package_id"]) in
  let? package_id := py_int (strip package_id_text) in
  let? cache_ids := _get_cache_info cpu_nbr in
  let? numa_node := _get_node_of_cpu cpu_nbr in
  Ok (mkCPUInfo cpu_nbr core_id siblings numa_node cache_ids package_id).

(** The loop of [get_cpu_info] over the CPU directories, on the state
    [(cpu_list, log)]. *)
Fixpoint read_cpus (cpu_entries : list string) (cpu_list : list CPUInfo)
    (log : list message) : result (list CPUInfo) * list message :=
  match cpu_entries with
  | [] => (Ok cpu_list, log)
  | cpu_entry :: rest =>
      match py_int (str_drop 3 cpu_entry) with
      | Raise e => (Raise e, log)
      | Ok cpu_nbr =>
          match read_cpu cpu_entry cpu_nbr with
          | Ok cpu_info => read_cpus rest (cpu_list ++ [cpu_info]) log
          | Raise e =>
              (* except (IOError, FileNotFoundError, ValueError) *)
              if is_OSError e || is_ValueError e
              then read_cpus rest cpu_list (log ++ [Warning_cpu cpu_entry e])
              else (Raise e, log)
          end
      end
  end.

Definition get_cpu_info (log : list message)
  : result (list CPUInfo) * list message :=
  match iterdir fs CPU_PATH with
  | Raise e =>
      if is_OSError e then (Ok [], log ++ [Error_cpu_path])
      else (Raise e, log)
  | Ok names =>
      let cpu_entries := List.filter (numbered "cpu") names in
      match read_cpus cpu_entries [] log with
      | (Ok cpu_list, log) => (Ok (py_sorted Z.leb logical_id cpu_list), log)
      | (Raise e, log) => (Raise e, log)
      end
  end.

(** [for core in cpus: siblings = ...; if siblings: cores_list.append]. *)
Fixpoint collect_cores (cpus : list Z) (cores_list : list (list Z))
  : result (list (list Z)) :=
  match cpus with
  | [] => Ok cores_list
  | core :: rest =>
      let? siblings := _get_cpus_logical_ids core in
      collect_cores rest
        match siblings with
        | [] => cores_list
        | _ :: _ => cores_list ++ [siblings]
        end
  end.

(** The body of the [try] of [get_nodes_info] for one node directory. *)
Definition read_node (memory_nodes : gset Z) (node_dir : string)
    (node_id : Z) : result NodeInfo :=
  let? cpus_text := read_text fs (NODE_PATH ++ [node_dir; "cpulist"]) in
  let? cpus := parse_cpulist (strip cpus_text) in
  let? distance_text := read_text fs (NODE_PATH ++ [node_dir; "distance"]) in
  let? distances := rmapM py_int (split_ws (strip distance_text)) in
  let? cores_list := collect_cores cpus [] in
  Ok (mkNodeInfo node_id (bool_decide (node_id ∈ memory_nodes))
                 (dedup_cores cores_list) distances).

(** The loop of [get_nodes_info] over the node directories, on the
    state [(nodes, log)]. *)
Fixpoint read_nodes (memory_nodes : gset Z) (node_dirs : list string)
    (nodes : list NodeInfo) (log : list message)
  : result (list NodeInfo) * list message :=
  match node_dirs with
  | [] => (Ok nodes, log)
  | node_dir :: rest =>
      match py_int (str_drop 4 node_dir) with
      | Raise e => (Raise e, log)
      | Ok node_id =>
          match read_node memory_nodes node_dir node_id with
          | Ok node_info =>
              read_nodes memory_nodes rest (nodes ++ [node_info]) log
          | Raise e =>
              (* except (IOError, FileNotFoundError, ValueError) *)
              if is_OSError e || is_ValueError e
              then read_nodes memory_nodes rest nodes
                     (log ++ [Warning_node node_id e])
              else (Raise e, log)
          end
      end
  end.

(** The first [try] of [get_nodes_info]: the set [memory_nodes]. *)
Definition read_memory_nodes (log : list message)
  : result (gset Z) * list message :=
  match
    (let? text := read_text fs (NODE_PATH ++ ["has_memory"]) in
     rmapM py_int (split_on "," (strip text)))
  with
  | Ok ids => (Ok (list_to_set ids), log)
  | Raise e =>
      if is_OSError e then (Ok ∅, log ++ [Warning_memory_nodes_unreadable])
      else (Raise e, log)
  end.

Definition get_nodes_info (log : list message)
  : result (list NodeInfo) * list message :=
  match read_memory_nodes log with
  | (Raise e, log) => (Raise e, log)
  | (Ok memory_nodes, log) =>
      match iterdir fs NODE_PATH with
      | Raise e =>
          if is_OSError e then (Ok [], log ++ [Error_node_path])
          else (Raise e, log)
      | Ok names =>
          let node_dirs := List.filter (numbered "node") names in
          match read_nodes memory_nodes node_dirs [] log with
          | (Ok nodes, log) => (Ok (py_sorted Z.leb id nodes), log)
          | (Raise e, log) => (Raise e, log)
          end
      end
  end.

(** The loop of [optimize_cache_nodes] filling [cores_with_cache]. *)
Fixpoint collect_cache_entries (cache_level : Z) (cores : list (list Z))
    (cores_with_cache : list cache_entry) : result (list cache_entry) :=
  match cores with
  | [] => Ok cores_with_cache
  | core :: rest =>
      match core with
      | [] => collect_cache_entries cache_level rest cores_with_cache
      | first :: _ =>
          let? cache_ids := _get_cache_info first in
          if bool_decide (cache_ids = [])
             || (Z.of_nat (length cache_ids) <=? cache_level)
          then collect_cache_entries cache_level rest cores_with_cache
          else
            let? c := py_index cache_ids cache_level in
            collect_cache_entries cache_level rest
              (cores_with_cache ++ [mkEntry core c first])
      end
  end.

Definition optimize_cache_nodes (node : NodeInfo) (cache_level : Z)
  : result NodeInfo :=
  if cache_level <? 0 then Ok node
  else
    let? cores_with_cache :=
      collect_cache_entries cache_level (cores_list node) [] in
    let sorted :=
      py_sorted key_le (fun x => (cache_id x, first_logical_id x))
                cores_with_cache in
    Ok (mkNodeInfo (id node) (memory node) (map core_tuple sorted)
                   (distance node)).

(** One step of the scan of the memory nodes for [node], on the state
    [(min_dist, closest_mem_id)]. *)
Definition scan_step (node : NodeInfo) (st : ext * option string)
    (mem_node : NodeInfo) : result (ext * option string) :=
  if id mem_node <? Z.of_nat (length (distance node)) then
    let? dist := py_index (distance node) (id mem_node) in
    if ext_lt (Finite dist) st.1
    then Ok (Finite dist, Some (pretty (id mem_node)))
    else Ok st
  else Ok st.

(** [min_dist = float('inf'); closest_mem_id = None], then the scan. *)
Definition closest_memory_node (memory_nodes : list NodeInfo)
    (node : NodeInfo) : result (ext * option string) :=
  rfoldl (scan_step node) memory_nodes (Infinity, None).

(** The body of the loop "For each non-memory node, find closest
    memory node" ... *)
Definition assign_node (memory_nodes : list NodeInfo)
    (clusters : dict Cluster) (node : NodeInfo) : result (dict Cluster) :=
  if memory node then Ok clusters
  else
    let? st := closest_memory_node memory_nodes node in
    match st.2 with
    | Some closest_mem_id =>
        (* if closest_mem_id: a non-empty string *)
        if String.eqb closest_mem_id EmptyString then Ok clusters
        else Ok (dict_append closest_mem_id node clusters)
    | None => Ok clusters
    end.

(** ... and the loop. *)
Definition assign_nodes (memory_nodes nodes : list NodeInfo)
    (clusters : dict Cluster) : result (dict Cluster) :=
  rfoldl (assign_node memory_nodes) nodes clusters.

(** The key of the sort inside a cluster. *)
Definition distance_key (memory_node x : NodeInfo) : result ext :=
  if id memory_node <? Z.of_nat (length (distance x)) then
    let? d := py_index (distance x) (id memory_node) in Ok (Finite d)
  else Ok Infinity.

(** "Sort nodes in each cluster by distance to memory node". *)
Definition sort_cluster (cluster : Cluster) : result Cluster :=
  match cluster with
  | memory_node :: (_ :: _) as others =>
      let? keyed :=
        rmapM (fun x => let? k := distance_key memory_node x in Ok (k, x))
              others in
      Ok (memory_node :: map snd (py_sorted ext_le fst keyed))
  | _ => Ok cluster
  end.

(** [{str(mem_node.id): [mem_node] for mem_node in memory_nodes}]. *)
Definition seed_clusters (memory_nodes : list NodeInfo) : dict Cluster :=
  fold_left (fun clusters mem_node =>
               dict_set (pretty (id mem_node)) [mem_node] clusters)
            memory_nodes [].

(** [get_clusters].  The keys of [clusters] are the strings
    [str(mem_node.id)].  The last phase assigns
    [cluster[i] = optimize_cache_nodes(cluster[i], level)], which updates
    the node object in place; the records here are values, which gives
    the same clusters because optimizing twice is optimizing once. *)
Definition get_clusters (nodes : option (list NodeInfo))
    (optimize_cache_level : Z) (log : list message)
  : result (list Cluster) * list message :=
  let '(read, log) :=
    match nodes with
    | None => get_nodes_info log
    | Some nodes => (Ok nodes, log)
    end in
  match read with
  | Raise e => (Raise e, log)
  | Ok [] => (Ok [], log)
  | Ok nodes =>
      let memory_nodes := List.filter memory nodes in
      match memory_nodes with
      | [] => (Ok [nodes], log ++ [Warning_no_memory_nodes])
      | _ :: _ =>
          (let? clusters :=
             assign_nodes memory_nodes nodes (seed_clusters memory_nodes) in
           let? sorted := rmapM sort_cluster (map snd clusters) in
           if 0 <=? optimize_cache_level then
             rmapM (rmapM (fun node =>
                             optimize_cache_nodes node optimize_cache_level))
                   sorted
           else Ok sorted,
           log)
      end
  end.

(** *** What the specification says of the attribute readers *)




(** *** What the specification says of the optimizer *)

(** "The tuple's first logical id yields a cache-id list of length at
    least [cache_level + 1]." *)
Definition long_enough (cache_level : Z) (core : list Z) : bool :=
  match core with
  | [] => false
  | first :: _ =>
      match _get_cache_info first with
      | Ok cache_ids => cache_level + 1 <=? Z.of_nat (length cache_ids)
      | Raise _ => false
      end
  end.

(** The composite key of a core tuple: the cache id at [cache_level]
    of its first logical id, then that id. *)
Definition sort_key (cache_level : Z) (core : list Z) : Z * Z :=
  match core with
  | [] => (0, 0)
  | first :: _ =>
      match _get_cache_info first with
      | Ok cache_ids => (nth (Z.to_nat cache_level) cache_ids 0, first)
      | Raise _ => (0, first)
      end
  end.

(** Looking up the cache ids of the first logical id of each of these
    core tuples yields a list (no [id] file that was read holds a
    malformed number). *)
Definition cache_ids_readable (cores : list (list Z)) : Prop :=
  Forall (fun core => ∀ first, head core = Some first →
                        ∃ cache_ids, _get_cache_info first = Ok cache_ids)
         cores.

(** *** What the specification says of the node builder *)

(** The sibling lists agree with the membership list [cpus] of a node:
    every listed CPU has a readable sibling list that contains it, has
    no repeats, stays inside [cpus] and is the sibling list of each of
    its members. *)
Definition siblings_consistent (cpus : list Z) : Prop :=
  ∀ cpu, cpu ∈ cpus →
    ∃ siblings,
      _get_cpus_logical_ids cpu = Ok siblings
      ∧ cpu ∈ siblings
      ∧ NoDup siblings
      ∧ ∀ other, other ∈ siblings →
          other ∈ cpus ∧ _get_cpus_logical_ids other = Ok siblings.

End Tree.

(** *** What the specification says of the cluster builder *)

(** "The node has a distance entry at the anchor's node-id index." *)
Definition has_entry (node anchor : NodeInfo) : bool :=
  (0 <=? id anchor) && (id anchor <? Z.of_nat (length (distance node))).

(** That entry of the node's distance vector. *)
Definition distance_to (node anchor : NodeInfo) : Z :=
  nth (Z.to_nat (id anchor)) (distance node) 0.

(** The anchor with the numerically smallest entry, the first of them in
    scan order when several are equally near; anchors without an entry
    cannot be chosen. *)
Fixpoint nearest (node : NodeInfo) (anchors : list NodeInfo)
  : option NodeInfo :=
  match anchors with
  | [] => None
  | anchor :: rest =>
      match nearest node rest with
      | Some other =>
          if has_entry node anchor
             && (distance_to node anchor <=? distance_to node other)
          then Some anchor else Some other
      | None => if has_entry node anchor then Some anchor else None
      end
  end.

(** The memory-capable nodes of a node list, in the order of the list. *)
Definition anchors_of (nodes : list NodeInfo) : list NodeInfo :=
  List.filter memory nodes.

(** Node ids are node numbers: those of the memory-capable nodes are
    not negative. *)
Definition anchor_ids_valid (nodes : list NodeInfo) : Prop :=
  Forall (fun node => memory node = true → 0 ≤ id node) nodes.

(** Ascending order of the composite keys. *)
Definition key_order (a b : Z * Z) : Prop :=
  a.1 < b.1 ∨ (a.1 = b.1 ∧ a.2 ≤ b.2).

End SystemTopology.

(* ===================================================================== *)
(** ** A small machine *)
(* ===================================================================== *)

(** Two memory nodes, one compute node at the same distance from both and
    one node without a distance vector; cores 0/2 and 1/3 are SMT
    siblings, the others are single-threaded. *)
Definition example_tree : FileSystem :=
  tree
    [ (NODE_PATH ++ ["has_memory"], "0,1");
      (NODE_PATH ++ ["node0"; "cpulist"], "0-3");
      (NODE_PATH ++ ["node0"; "distance"], "10 20 20");
      (NODE_PATH ++ ["node1"; "cpulist"], "4,5");
      (NODE_PATH ++ ["node1"; "distance"], "20 10 20");
      (NODE_PATH ++ ["node2"; "cpulist"], "6");
      (NODE_PATH ++ ["node2"; "distance"], "20 20 10");
      (CPU_PATH ++ ["cpu0"; "topology"; "thread_siblings_list"], "0,2");
      (CPU_PATH ++ ["cpu1"; "topology"; "thread_siblings_list"], "1,3");
      (CPU_PATH ++ ["cpu2"; "topology"; "thread_siblings_list"], "0,2");
      (CPU_PATH ++ ["cpu3"; "topology"; "thread_siblings_list"], "1,3");
      (CPU_PATH ++ ["cpu4"; "topology"; "thread_siblings_list"], "4");
      (CPU_PATH ++ ["cpu5"; "topology"; "thread_siblings_list"], "5");
      (CPU_PATH ++ ["cpu6"; "topology"; "thread_siblings_list"], "6");
      (CPU_PATH ++ ["cpu0"; "cache"; "index0"; "id"], "0");
      (CPU_PATH ++ ["cpu0"; "cache"; "index1"; "id"], "1");
      (CPU_PATH ++ ["cpu1"; "cache"; "index0"; "id"], "1");
      (CPU_PATH ++ ["cpu1"; "cache"; "index1"; "id"], "0");
      (CPU_PATH ++ ["cpu4"; "cache"; "index0"; "id"], "4") ]
    [ (NODE_PATH, ["node2"; "has_memory"; "node0"; "node1"; "possible"]);
      (CPU_PATH ++ ["cpu0"], ["cache"; "node0"; "topology"]);
      (CPU_PATH ++ ["cpu0"; "cache"], ["index1"; "index0"]);
      (CPU_PATH ++ ["cpu1"; "cache"], ["index0"; "index1"]);
      (CPU_PATH ++ ["cpu4"; "cache"], ["index0"]) ].

Definition example_nodes : list NodeInfo :=
  [ mkNodeInfo 0 true [[0; 2]; [1; 3]] [10; 20; 20];
    mkNodeInfo 1 true [[4]; [5]] [20; 10; 20];
    mkNodeInfo 2 false [[6]] [20; 20; 10];
    mkNodeInfo 3 false [[7]] [] ].

(** The first three of these nodes with the memory node of the larger id
    first: node 2 is as far from node 1 as from node 0, and node 1 is
    scanned first. *)
Definition example_tie : list NodeInfo :=
  [ mkNodeInfo 1 true [[4]; [5]] [20; 10; 20];
    mkNodeInfo 0 true [[0; 2]; [1; 3]] [10; 20; 20];
    mkNodeInfo 2 false [[6]] [20; 20; 10] ].


(* ===================================================================== *)
(** ** Pinning generators *)
(* ===================================================================== *)

Module CPUPinningGenerator.

(** The generator expression
    [len(core) for cluster in clusters for node in cluster
               for core in node.cores_list]. *)
Definition core_lengths (clusters : list Cluster) : list nat :=
  flat_map (fun cluster =>
    flat_map (fun node =>
      map (fun core : list Z => length core) (cores_list node)) cluster)
    clusters.

(** The innermost loop of both generators:
    [for core in node.cores_list:
        if smt_pos < len(core): cpu_list.append(core[smt_pos])].
    The index is in range under the test, so the default of [nth] is
    never read. *)
Definition append_node (smt_pos : nat) (cpu_list : list Z) (node : NodeInfo)
  : list Z :=
  fold_left (fun cpu_list core =>
    if (smt_pos <? length core)%nat
    then cpu_list ++ [nth smt_pos core 0]
    else cpu_list) (cores_list node) cpu_list.

Definition cluster_first_pinning (clusters : list Cluster) : result (list Z) :=
  match clusters with
  | [] => Ok []                                   (* not clusters *)
  | [] :: _ => Ok []                              (* not clusters[0] *)
  | (first :: _) :: _ =>
      match cores_list first with
      | [] => Ok []                               (* not clusters[0][0].cores_list *)
      | _ :: _ =>
          let? max_smt := py_max (core_lengths clusters) in
          Ok (fold_left (fun cpu_list smt_pos =>
                fold_left (fun cpu_list cluster =>
                  fold_left (append_node smt_pos) cluster cpu_list)
                  clusters cpu_list)
                (seq 0 max_smt) [])
      end
  end.

(** [while cond: body], run with fuel: [None] when the fuel runs out
    before the condition turns false. *)
Fixpoint while {St : Type} (fuel : nat) (cond : St → bool)
    (body : St → option St) (s : St) : option St :=
  if cond s then
    match fuel with
    | O => None
    | S fuel' => s' ← body s; while fuel' cond body s'
    end
  else Some s.

(** A [for] loop whose body may run out of fuel. *)
Fixpoint for_each {St A : Type} (l : list A) (body : St → A → option St)
    (s : St) : option St :=
  match l with
  | [] => Some s
  | x :: xs => s' ← body s x; for_each xs body s'
  end.

(** [enumerate(l)]. *)
Definition enumerate {A} (l : list A) : list (nat * A) :=
  zip (seq 0 (length l)) l.

(** The state the loops of [ping_pong_pinning] mutate. *)
Record pp_state : Type := mkPP {
  cluster_positions : list nat;
  cpu_list : list Z
}.

(** [any(pos < len(cluster)
         for pos, cluster in zip(cluster_positions, clusters))]. *)
Definition any_pending (clusters : list Cluster) (st : pp_state) : bool :=
  existsb (fun pc : nat * Cluster => (pc.1 <? length pc.2)%nat)
          (zip (cluster_positions st) clusters).

(** The inner [while] of [ping_pong_pinning], on the loop state
    [(nodes_processed, st)]: its test
    [nodes_processed < nodes_per_round and
     cluster_positions[cluster_idx] < len(cluster)] ... *)
Definition more_nodes (nodes_per_round : Z) (cluster_idx : nat)
    (cluster : Cluster) (s : Z * pp_state) : bool :=
  (s.1 <? nodes_per_round) &&
  (cluster_positions s.2 !!! cluster_idx <? length cluster)%nat.

(** ... and its body.  [cluster[pos]] is in range under the loop test,
    so the [None] branch of the lookup is never taken. *)
Definition visit_node (smt_pos : nat) (cluster_idx : nat)
    (cluster : Cluster) (s : Z * pp_state) : option (Z * pp_state) :=
  let pos := cluster_positions s.2 !!! cluster_idx in
  match cluster !! pos with
  | Some node =>
      Some (s.1 + 1,
            mkPP (<[cluster_idx := (pos + 1)%nat]> (cluster_positions s.2))
                 (append_node smt_pos (cpu_list s.2) node))
  | None => None
  end.

(** One cluster's turn in a round: [nodes_processed = 0], then the inner
    [while]. *)
Definition process_cluster (fuel : nat) (nodes_per_round : Z) (smt_pos : nat)
    (st : pp_state) (ic : nat * Cluster) : option pp_state :=
  r ← while fuel (more_nodes nodes_per_round ic.1 ic.2)
             (visit_node smt_pos ic.1 ic.2) (0, st);
  Some r.2.

Definition ping_pong_pinning (fuel : nat) (clusters : list Cluster)
    (nodes_per_round : Z) : option (result (list Z)) :=
  match clusters with
  | [] => Some (Ok [])                            (* not clusters *)
  | _ :: _ =>
      if nodes_per_round <=? 0 then Some (Ok [])
      else
        match py_max (core_lengths clusters) with
        | Raise e => Some (Raise e)
        | Ok max_smt =>
            out ← for_each (seq 0 max_smt)
                    (fun out smt_pos =>
                       st ← while fuel (any_pending clusters)
                              (fun st =>
                                 for_each (enumerate clusters)
                                   (process_cluster fuel nodes_per_round smt_pos) st)
                              (mkPP (replicate (length clusters) 0%nat) out);
                       Some (cpu_list st))
                    [];
            Some (Ok out)
        end
  end.

(** *** The orders the specification describes *)

(** The [smt_pos]-th logical id of a core tuple, when it has one. *)
Definition slot (smt_pos : nat) (core : list Z) : list Z :=
  match core !! smt_pos with
  | Some cpu => [cpu]
  | None => []
  end.

(** What one node contributes at an SMT position. *)
Definition node_slot (smt_pos : nat) (node : NodeInfo) : list Z :=
  flat_map (slot smt_pos) (cores_list node).

(** [S]: the maximum SMT width over every core tuple ([0] without any). *)
Definition smt_width (clusters : list Cluster) : nat :=
  max_list (core_lengths clusters).

(** All entries of one SMT position: clusters, then nodes, then cores. *)
Definition slot_entries (clusters : list Cluster) (smt_pos : nat) : list Z :=
  flat_map (fun cluster => flat_map (node_slot smt_pos) cluster) clusters.

(** Cluster-first order as the specification words it: [smt_pos]
    outermost, then clusters, nodes and core tuples. *)
Definition cluster_first_spec (clusters : list Cluster) : list Z :=
  flat_map (slot_entries clusters) (seq 0 (smt_width clusters)).

(** The nodes cluster [cluster] hands out in round [r]: its cursor is at
    [r * npr] and advances by up to [npr]. *)
Definition round_nodes (npr r : nat) (cluster : Cluster) : list NodeInfo :=
  take npr (drop (r * npr) cluster).

(** The number of rounds until every cursor is at the end of its node
    list: the longest cluster, in steps of [npr], rounded up. *)
Definition rounds (npr : nat) (clusters : list Cluster) : nat :=
  ((max_list (map length clusters) + npr - 1) / npr)%nat.

(** The node visit order of one SMT slot: round by round, clusters in
    the given order inside a round. *)
Definition ping_pong_order (npr : nat) (clusters : list Cluster)
  : list NodeInfo :=
  flat_map (fun r => flat_map (round_nodes npr r) clusters)
           (seq 0 (rounds npr clusters)).

(** Ping-pong order as the specification words it. *)
Definition ping_pong_spec (npr : nat) (clusters : list Cluster) : list Z :=
  flat_map (fun smt_pos =>
              flat_map (node_slot smt_pos) (ping_pong_order npr clusters))
           (seq 0 (smt_width clusters)).

(** Every id of every core tuple, in cluster, node and core order. *)
Definition all_cpu_ids (clusters : list Cluster) : list Z :=
  flat_map (fun cluster =>
    flat_map (fun node => concat (cores_list node)) cluster) clusters.

(** "Every referenced node has at least one non-empty core tuple." *)
Definition every_node_has_core (clusters : list Cluster) : Prop :=
  Forall (Forall (fun node => Exists (fun core => core ≠ []) (cores_list node)))
         clusters.

(** "The input contains at least one core tuple." *)
Definition has_core_tuple (clusters : list Cluster) : Prop :=
  Exists (Exists (fun node => cores_list node ≠ [])) clusters.

(** "The aggregate core set is empty": every node's core list is empty. *)
Definition no_core_tuple (clusters : list Cluster) : Prop :=
  Forall (Forall (fun node => cores_list node = [])) clusters.

End CPUPinningGenerator.

(* ===================================================================== *)
(** ** The shape of a cluster *)
(* ===================================================================== *)

Module ClusterShape.

(** The key [x.distance[memory_node.id] if memory_node.id < len(x.distance)
    else float('inf')] of the sort inside a cluster, for an anchor whose
    id is a node number. *)
Definition anchor_distance (anchor x : NodeInfo) : ext :=
  if SystemTopology.has_entry x anchor
  then Finite (SystemTopology.distance_to x anchor)
  else Infinity.

(** A cluster with the nodes after its first sorted by that key. *)
Definition by_distance (cluster : Cluster) : Cluster :=
  match cluster with
  | [] => []
  | anchor :: others =>
      anchor :: py_sorted ext_le (anchor_distance anchor) others
  end.

(** The nodes [get_clusters] keeps when the list has a memory node: the
    memory nodes, and the nodes with a distance entry at some memory
    node's id. *)
Definition kept (nodes : list NodeInfo) (node : NodeInfo) : bool :=
  memory node
  || existsb (SystemTopology.has_entry node) (SystemTopology.anchors_of nodes).

End ClusterShape.

(* ===================================================================== *)
(** ** The writers and [main] *)
(* ===================================================================== *)

Module CommandLine.
Import SystemTopology CPUPinningGenerator.

(** The line feed. *)
Definition LF : string := String "010"%char EmptyString.

(** What the tool prints: what the topology functions print, and the
    lines of the writers, the report functions and [main]. *)
Inductive report : Set :=
  | Topology (m : message)
  | Error_writing (filepath : string) (e : exn)
      (* f"Error writing to {filepath}: {str(e)}" *)
  | Error_no_clusters
      (* "Error: No clusters found" *)
  | Saved_cluster_info (filename : string)
      (* f"CPU pinning configuration saved to {filename}" *)
  | Error_saving (e : exn)
      (* f"Error saving pinning file: {str(e)}" *)
  | Cpu_layout_header
      (* "CPU Layout Information:" *)
  | Cpu_lines (cpu_info : list CPUInfo)
      (* the lines of [print_cpu_info] *)
  | Cluster_lines (clusters : list Cluster) (cache_level : Z)
      (* the header of [print_cluster_info] and the lines of these
         clusters *)
  | Json_cpus (cpu_info : list CPUInfo)
      (* json.dumps(cpu_data, indent=2) *)
  | Json_clusters (clusters : list Cluster)
      (* json.dumps(cluster_data, indent=2) *)
  | Saved_ping_pong (x : Z) (filepath : string)
      (* f"Ping-pong pinning (x={x}) saved to {filepath}" *)
  | Saved_cluster_first (filepath : string)
      (* f"Cluster-first pinning saved to {filepath}" *)
  | Error_value (e : exn)
      (* f"Error: {str(e)}" *)
  | Unexpected_error (e : exn)
      (* f"Unexpected error: {str(e)}" *).

(** What a run leaves: the lines printed and the files opened for
    writing, each with the text handed to the writes that returned
    before it was closed. *)
Record Output : Set := mkOutput {
  printed : list report;
  written : list (string * string)
}.

Definition print (out : Output) (line : report) : Output :=
  mkOutput (printed out ++ [line]) (written out).

(** What a topology function printed during a call. *)
Definition prints (out : Output) (log : list message) : Output :=
  mkOutput (printed out ++ map Topology log) (written out).

(** [",".join(map(str, cpus))]. *)
Definition join_commas (cpus : list Z) : string :=
  String.concat "," (map pretty cpus).

(** *** Files opened for writing *)

(** What opening, writing and closing a file do: [open_w path] is
    [open(path, 'w')], which creates or empties the file; [write path
    text chunk] is [f.write(chunk)] on the file that was handed [text]
    so far; [close path text] closes it when the [with] block is left.
    Each returns or raises. *)
Record Disk : Type := mkDisk {
  open_w : string → result unit;
  write : string → string → string → result unit;
  close : string → string → result unit
}.

(** An open file inside its [with] block: the text handed to the writes
    that returned, and the exception that ended the block, if any. *)
Record Handle : Set := mkHandle {
  held : string;
  stopped : option exn
}.

(** An exception raised inside the block; nothing runs after one. *)
Definition fraise (e : exn) (f : Handle) : Handle :=
  match stopped f with
  | Some _ => f
  | None => mkHandle (held f) (Some e)
  end.

(** *** The text of the files *)

(** The text of these writes, one after the other. *)
Definition text_of (chunks : list string) : string :=
  foldr String.append EmptyString chunks.

(** One id per line. *)
Definition pinning_lines (pinning : list Z) : list string :=
  map (fun cpu_id => pretty cpu_id +:+ LF) pinning.

Definition pinning_text (pinning : list Z) : string :=
  text_of (pinning_lines pinning).

(** The four header lines; [nodename] is [os.uname().nodename]. *)
Definition header_lines (nodename : string) (cache_level : Z)
  : list string :=
  [ "# CPU Pinning Configuration" +:+ LF;
    "# Generated on " +:+ nodename +:+ LF;
    "# Format: core[cluster_id][node_id][core_id]=smt_list" +:+ LF;
    "# Cache optimization level: " +:+ pretty cache_level +:+ LF +:+ LF ].

(** The line of a core tuple, none for an empty tuple. *)
Definition lines_of_core (cluster_idx node_idx : nat) (core : nat * list Z)
  : list string :=
  match core.2 with
  | [] => []
  | _ :: _ =>
      [ "core[" +:+ pretty cluster_idx +:+ "][" +:+ pretty node_idx
        +:+ "][" +:+ pretty core.1 +:+ "]=" +:+ join_commas core.2 +:+ LF ]
  end.

(** The line of a node, then the lines of its core tuples. *)
Definition lines_of_node (cluster_idx : nat) (node : nat * NodeInfo)
  : list string :=
  ("# Node " +:+ pretty (id node.2) +:+ " ("
   +:+ (if memory node.2 then "Memory" else "Compute") +:+ ")" +:+ LF)
  :: flat_map (lines_of_core cluster_idx node.1)
              (enumerate (cores_list node.2)).

(** The line of a cluster, which names its first node, then the lines
    of its nodes. *)
Definition lines_of_cluster (cluster : nat * Cluster) : list string :=
  match cluster.2 with
  | [] => []
  | first :: _ =>
      ("# Cluster " +:+ pretty cluster.1 +:+ " (Memory Node: "
       +:+ pretty (id first) +:+ ")" +:+ LF)
      :: flat_map (lines_of_node cluster.1) (enumerate cluster.2)
  end.

(** The lines of the file of [save_cluster_info]. *)
Definition cluster_info_lines (nodename : string) (cache_level : Z)
    (clusters : list Cluster) : list string :=
  header_lines nodename cache_level
  ++ flat_map lines_of_cluster (enumerate clusters).

Definition print_cpu_info (cpu_info : list CPUInfo) (out : Output)
  : Output :=
  print out (Cpu_lines cpu_info).

(** The clusters [print_cluster_info] prints before it stops, and the
    [IndexError] of [cluster[0]] of an empty cluster that stops it, if
    any. *)
Fixpoint printed_clusters (clusters : list Cluster)
  : list Cluster * option exn :=
  match clusters with
  | [] => ([], None)
  | [] :: _ => ([], Some IndexError)
  | cluster :: rest =>
      let '(shown, stopped) := printed_clusters rest in
      (cluster :: shown, stopped)
  end.

Definition print_cluster_info (clusters : list Cluster) (cache_level : Z)
    (out : Output) : result unit * Output :=
  let '(shown, stopped) := printed_clusters clusters in
  (match stopped with
   | None => Ok tt
   | Some e => Raise e
   end,
   print out (Cluster_lines shown cache_level)).

(** The operation modes of the command line, one of which is required,
    and the parsed arguments. *)
Inductive Mode : Set :=
  | Mode_cpu                                        (* --cpu *)
  | Mode_cluster                                    (* --cluster *)
  | Mode_pin_ping_pong (filepath x : string)        (* --pin_ping_pong *)
  | Mode_pin_cluster (filepath : string)            (* --pin_cluster *).

Record Args : Set := mkArgs {
  mode : Mode;
  cache : Z;                                        (* --cache, default 3 *)
  json : bool                                       (* --json *)
}.

(** [except Exception as e: print(f"Unexpected error: ..."); return 1]. *)
Definition unexpected (out : Output) (e : exn) : Z * Output :=
  (1, print out (Unexpected_error e)).

(** Inside the [try] of the ping-pong mode, [except ValueError] comes
    first. *)
Definition failed (out : Output) (e : exn) : Z * Output :=
  if is_ValueError e then (1, print out (Error_value e))
  else unexpected out e.

Section Writers.
Variable disk : Disk.

(** The file takes these writes in turn and is then closed. *)
Fixpoint accepted (path text : string) (chunks : list string) : Prop :=
  match chunks with
  | [] => ∃ u, close disk path text = Ok u
  | chunk :: rest =>
      (∃ u, write disk path text chunk = Ok u)
      ∧ accepted path (text +:+ chunk) rest
  end.

(** The file is opened, takes these writes and is closed. *)
Definition stored (path : string) (chunks : list string) : Prop :=
  (∃ u, open_w disk path = Ok u) ∧ accepted path EmptyString chunks.

(** [f.write(chunk)]. *)
Definition fwrite (path chunk : string) (f : Handle) : Handle :=
  match stopped f with
  | Some _ => f
  | None =>
      match write disk path (held f) chunk with
      | Ok _ => mkHandle (held f +:+ chunk) None
      | Raise e => mkHandle (held f) (Some e)
      end
  end.

(** These writes in turn. *)
Fixpoint write_all (path : string) (chunks : list string) (f : Handle)
  : Handle :=
  match chunks with
  | [] => f
  | chunk :: rest => write_all path rest (fwrite path chunk f)
  end.

(** Leaving the [with] block closes the file, also after an exception;
    an exception of [close] takes the place of the one that ended the
    block. *)
Definition fclose (path : string) (f : Handle) : Handle :=
  match close disk path (held f) with
  | Ok _ => f
  | Raise e => mkHandle (held f) (Some e)
  end.

Definition save_pinning_to_file (filepath : string) (pinning : list Z)
    (out : Output) : result unit * Output :=
  (* except IOError as e: print(..); raise *)
  let handler (e : exn) (out : Output) : result unit * Output :=
    if is_OSError e then (Raise e, print out (Error_writing filepath e))
    else (Raise e, out) in
  match open_w disk filepath with
  | Raise e => handler e out
  | Ok _ =>
      let file :=
        fold_left
          (fun file cpu_id => fwrite filepath (pretty cpu_id +:+ LF) file)
          pinning (mkHandle EmptyString None) in
      let file := fclose filepath file in
      let out :=
        mkOutput (printed out) (written out ++ [(filepath, held file)]) in
      match stopped file with
      | None => (Ok tt, out)
      | Some e => handler e out
      end
  end.

(** The loop over the core tuples of a node in [save_cluster_info]. *)
Definition write_cores (filename : string) (cluster_idx node_idx : nat)
    (cores : list (list Z)) (f : Handle) : Handle :=
  fold_left
    (fun f (core : nat * list Z) =>
       let '(core_idx, cpus) := core in
       match cpus with
       | [] => f                                      (* if cpus: *)
       | _ :: _ =>
           let core_name :=
             "core[" +:+ pretty cluster_idx +:+ "][" +:+ pretty node_idx
             +:+ "][" +:+ pretty core_idx +:+ "]" in
           let cpu_list := join_commas cpus in
           fwrite filename (core_name +:+ "=" +:+ cpu_list +:+ LF) f
       end)
    (enumerate cores) f.

(** The loop over the nodes of a cluster. *)
Definition write_nodes (filename : string) (cluster_idx : nat)
    (cluster : Cluster) (f : Handle) : Handle :=
  fold_left
    (fun f (node : nat * NodeInfo) =>
       let '(node_idx, node) := node in
       write_cores filename cluster_idx node_idx (cores_list node)
         (fwrite filename
            ("# Node " +:+ pretty (id node) +:+ " ("
             +:+ (if memory node then "Memory" else "Compute") +:+ ")"
             +:+ LF) f))
    (enumerate cluster) f.

(** The loop over the clusters; [cluster[0]] of an empty cluster raises
    [IndexError]. *)
Definition write_clusters (filename : string) (clusters : list Cluster)
    (f : Handle) : Handle :=
  fold_left
    (fun f (cluster : nat * Cluster) =>
       let '(cluster_idx, cluster) := cluster in
       match cluster with
       | [] => fraise IndexError f
       | first :: _ =>
           write_nodes filename cluster_idx cluster
             (fwrite filename
                ("# Cluster " +:+ pretty cluster_idx +:+ " (Memory Node: "
                 +:+ pretty (id first) +:+ ")" +:+ LF) f)
       end)
    (enumerate clusters) f.

Variable fs : FileSystem.

(** [nodename] is [os.uname().nodename]. *)
Definition save_cluster_info (nodename filename : string) (cache_level : Z)
    (out : Output) : bool * Output :=
  let '(r, log) := get_clusters fs None cache_level [] in
  let out := prints out log in
  match r with
  | Raise e => (false, print out (Error_saving e))
  | Ok [] => (false, print out Error_no_clusters)
  | Ok clusters =>
      match open_w disk filename with
      | Raise e => (false, print out (Error_saving e))
      | Ok _ =>
          let f := mkHandle EmptyString None in
          let f := fwrite filename ("# CPU Pinning Configuration" +:+ LF) f in
          let f :=
            fwrite filename ("# Generated on " +:+ nodename +:+ LF) f in
          let f :=
            fwrite filename
              ("# Format: core[cluster_id][node_id][core_id]=smt_list"
               +:+ LF) f in
          let f :=
            fwrite filename
              ("# Cache optimization level: " +:+ pretty cache_level
               +:+ LF +:+ LF) f in
          let f := write_clusters filename clusters f in
          let f := fclose filename f in
          let out :=
            mkOutput (printed out) (written out ++ [(filename, held f)]) in
          match stopped f with
          | None => (true, print out (Saved_cluster_info filename))
          | Some e => (false, print out (Error_saving e))
          end
      end
  end.

(** [main] after [parser.parse_args()]: the exit code and what the run
    leaves.  An interrupt from the keyboard is outside the model. *)
Definition main (fuel : nat) (args : Args) : option (Z * Output) :=
  let out := mkOutput [] [] in
  match mode args with
  | Mode_cpu =>
      let '(r, log) := get_cpu_info fs [] in
      let out := prints out log in
      match r with
      | Raise e => Some (unexpected out e)
      | Ok cpu_info =>
          if json args then Some (0, print out (Json_cpus cpu_info))
          else Some (0, print_cpu_info cpu_info (print out Cpu_layout_header))
      end
  | Mode_cluster =>
      let '(r, log) := get_clusters fs None (cache args) [] in
      let out := prints out log in
      match r with
      | Raise e => Some (unexpected out e)
      | Ok clusters =>
          if json args then Some (0, print out (Json_clusters clusters))
          else
            match print_cluster_info clusters (cache args) out with
            | (Ok _, out) => Some (0, out)
            | (Raise e, out) => Some (unexpected out e)
            end
      end
  | Mode_pin_ping_pong filepath x =>
      match py_int x with
      | Raise e => Some (failed out e)
      | Ok x =>
          if x <=? 0 then Some (failed out ValueError)
          else
            let '(r, log) := get_clusters fs None (cache args) [] in
            let out := prints out log in
            match r with
            | Raise e => Some (failed out e)
            | Ok [] => Some (1, print out Error_no_clusters)
            | Ok clusters =>
                cpu_list ← ping_pong_pinning fuel clusters x;
                match cpu_list with
                | Raise e => Some (failed out e)
                | Ok cpu_list =>
                    match save_pinning_to_file filepath cpu_list out with
                    | (Ok _, out) =>
                        Some (0, print out (Saved_ping_pong x filepath))
                    | (Raise e, out) => Some (failed out e)
                    end
                end
            end
      end
  | Mode_pin_cluster filepath =>
      let '(r, log) := get_clusters fs None (cache args) [] in
      let out := prints out log in
      match r with
      | Raise e => Some (unexpected out e)
      | Ok [] => Some (1, print out Error_no_clusters)
      | Ok clusters =>
          match cluster_first_pinning clusters with
          | Raise e => Some (unexpected out e)
          | Ok cpu_list =>
              match save_pinning_to_file filepath cpu_list out with
              | (Ok _, out) =>
                  Some (0, print out (Saved_cluster_first filepath))
              | (Raise e, out) => Some (unexpected out e)
              end
          end
      end
  end.

End Writers.

(** *** Two disks *)

(** A disk on which every operation succeeds. *)
Definition sound_disk : Disk :=
  mkDisk (fun _ => Ok tt) (fun _ _ _ => Ok tt) (fun _ _ => Ok tt).

(** A disk that takes [room] characters per file: a write to a file
    that holds as many raises [OSError]. *)
Definition small_disk (room : nat) : Disk :=
  mkDisk (fun _ => Ok tt)
         (fun _ text _ =>
            if (room <=? String.length text)%nat then Raise OSError
            else Ok tt)
         (fun _ _ => Ok tt).

(** A disk on which no file can be closed. *)
Definition unclosable_disk : Disk :=
  mkDisk (fun _ => Ok tt) (fun _ _ _ => Ok tt) (fun _ _ => Raise OSError).

End CommandLine.

(* ===================================================================== *)
(** * Properties *)
(* ===================================================================== *)

Module SortingFacts.

Section Sorted.
Context {A K : Type} (le : K → K → bool) (key : A → K).
Hypothesis le_total : ∀ a b, le a b = true ∨ le b a = true.
Hypothesis le_trans : ∀ a b c, le a b = true → le b c = true → le a c = true.

Lemma insert_sorted_perm x l : insert_sorted le key x l ≡ₚ x :: l.
Proof.
  induction l as [|y l IH]; simpl; [done|].
  destruct (le (key x) (key y)); [done|].
  rewrite IH. apply perm_swap.
Qed.

Lemma py_sorted_perm l : py_sorted le key l ≡ₚ l.
Proof.
  induction l as [|x l IH]; simpl; [done|].
  by rewrite insert_sorted_perm, IH.
Qed.

Lemma insert_sorted_sorted x l :
  StronglySorted (fun a b => le (key a) (key b) = true) l →
  StronglySorted (fun a b => le (key a) (key b) = true)
                 (insert_sorted le key x l).
Proof.
  induction 1 as [|y l Hs IH Hy]; simpl.
  - repeat constructor.
  - destruct (le (key x) (key y)) eqn:Hxy.
    + constructor; [by constructor|].
      constructor; [done|].
      eapply Forall_impl; [exact Hy|]. intros z Hz. simpl in Hz. eauto.
    + constructor; [done|].
      rewrite insert_sorted_perm. constructor; [|done].
      destruct (le_total (key x) (key y)); [congruence|done].
Qed.

Lemma py_sorted_sorted l :
  StronglySorted (fun a b => le (key a) (key b) = true) (py_sorted le key l).
Proof.
  induction l as [|x l IH]; simpl; [constructor|].
  by apply insert_sorted_sorted.
Qed.

Lemma py_sorted_of_sorted l :
  StronglySorted (fun a b => le (key a) (key b) = true) l →
  py_sorted le key l = l.
Proof.
  induction 1 as [|x l _ IH Hx]; simpl; [done|]. rewrite IH.
  destruct l as [|y l]; [done|]. simpl.
  apply Forall_cons in Hx as [-> _]. done.
Qed.

End Sorted.

Lemma StronglySorted_weaken {A} (R R' : A → A → Prop) l :
  (∀ a b, R a b → R' a b) → StronglySorted R l → StronglySorted R' l.
Proof.
  intros HR. induction 1 as [|x l _ IH Hx]; constructor; [done|].
  eapply Forall_impl; [exact Hx|]. intros; by apply HR.
Qed.

(** Sorting commutes with a map that preserves the keys. *)
Lemma py_sorted_map {A B K} (le : K → K → bool) (key : A → K) (key' : B → K)
    (f : A → B) (l : list A) :
  (∀ x, key' (f x) = key x) →
  py_sorted le key' (map f l) = map f (py_sorted le key l).
Proof.
  intros Hkey. induction l as [|x l IH]; simpl; [done|].
  rewrite IH. generalize (py_sorted le key l). intros l'.
  induction l' as [|y l' IH']; simpl; [done|].
  rewrite !Hkey. destruct (le (key x) (key y)); simpl; [done|].
  by rewrite IH'.
Qed.

End SortingFacts.

Module PinningFacts.
Import CPUPinningGenerator.

(** A loop that only appends computes a [flat_map]. *)
Lemma fold_left_append {A B} (g : list B → A → list B) (f : A → list B) :
  (∀ acc x, g acc x = acc ++ f x) →
  ∀ l acc, fold_left g l acc = acc ++ flat_map f l.
Proof.
  intros Hg l. induction l as [|x l IH]; intros acc; simpl.
  - by rewrite app_nil_r.
  - by rewrite IH, Hg, <- app_assoc.
Qed.

Lemma slot_guard (smt_pos : nat) (core : list Z) (acc : list Z) :
  (if (smt_pos <? length core)%nat then acc ++ [nth smt_pos core 0] else acc)
  = acc ++ slot smt_pos core.
Proof.
  unfold slot. destruct (Nat.ltb_spec smt_pos (length core)) as [Hlt|Hge].
  - destruct (lookup_lt_is_Some_2 core smt_pos Hlt) as [x Hx].
    rewrite Hx. f_equal. f_equal.
    apply nth_lookup_Some with (d := 0) in Hx. exact Hx.
  - rewrite (lookup_ge_None_2 core smt_pos) by lia. by rewrite app_nil_r.
Qed.

Lemma append_node_spec smt_pos acc node :
  append_node smt_pos acc node = acc ++ node_slot smt_pos node.
Proof.
  unfold append_node, node_slot.
  apply (fold_left_append _ (slot smt_pos)). intros; apply slot_guard.
Qed.

Lemma append_cluster_spec smt_pos (cluster : Cluster) acc :
  fold_left (append_node smt_pos) cluster acc
  = acc ++ flat_map (node_slot smt_pos) cluster.
Proof. apply fold_left_append. intros; apply append_node_spec. Qed.

Lemma fold_left_max_list (l : list nat) (x : nat) :
  fold_left Nat.max l x = (x `max` max_list l)%nat.
Proof.
  revert x. induction l as [|y l IH]; intros x; simpl; [lia|].
  rewrite IH. lia.
Qed.

Lemma py_max_cons (x : nat) (l : list nat) :
  py_max (x :: l) = Ok (max_list (x :: l)).
Proof. simpl. by rewrite fold_left_max_list. Qed.

Lemma py_max_nonempty (l : list nat) :
  l ≠ [] → py_max l = Ok (max_list l).
Proof. destruct l; [done|]. intros _. apply py_max_cons. Qed.

Lemma cluster_first_loops (clusters : list Cluster) (max_smt : nat) :
  fold_left (fun cpu_list smt_pos =>
     fold_left (fun cpu_list cluster =>
        fold_left (append_node smt_pos) cluster cpu_list) clusters cpu_list)
    (seq 0 max_smt) []
  = flat_map (slot_entries clusters) (seq 0 max_smt).
Proof.
  rewrite (fold_left_append _ (slot_entries clusters)); [done|].
  intros acc p. unfold slot_entries.
  apply fold_left_append. intros; apply append_cluster_spec.
Qed.

Lemma core_lengths_nonempty (clusters : list Cluster) :
  has_core_tuple clusters → core_lengths clusters ≠ [].
Proof.
  unfold has_core_tuple, core_lengths.
  induction 1 as [cluster others Hex|cluster others _ IH]; simpl.
  - intros Hnil. apply app_eq_nil in Hnil as [Hnil _].
    induction Hex as [node nodes Hne|node nodes _ IHn]; simpl in Hnil;
      apply app_eq_nil in Hnil as [Hn Hns].
    + destruct (cores_list node); [done|discriminate].
    + by apply IHn.
  - intros Hnil. apply app_eq_nil in Hnil as [_ Hnil]. by apply IH.
Qed.

Lemma core_lengths_empty (clusters : list Cluster) :
  no_core_tuple clusters → core_lengths clusters = [].
Proof.
  unfold no_core_tuple, core_lengths.
  induction 1 as [|cluster others Hc _ IH]; simpl; [done|].
  rewrite IH, app_nil_r.
  induction Hc as [|node nodes Hn _ IHn]; simpl; [done|].
  by rewrite Hn, IHn.
Qed.

(** Past its guard, [cluster_first_pinning] runs the four nested loops. *)
Lemma cluster_first_pinning_runs first rest others :
  cores_list first ≠ [] →
  cluster_first_pinning ((first :: rest) :: others)
  = Ok (cluster_first_spec ((first :: rest) :: others)).
Proof.
  intros Hne. unfold cluster_first_pinning, cluster_first_spec, smt_width.
  destruct (cores_list first) as [|core cores] eqn:Hcores; [done|].
  rewrite py_max_nonempty.
  - cbn [rbind]. by rewrite cluster_first_loops.
  - apply core_lengths_nonempty. do 2 constructor. by rewrite Hcores.
Qed.

Lemma cluster_first_spec_split (clusters : list Cluster) (more : nat) :
  smt_width clusters = (2 + more)%nat →
  cluster_first_spec clusters
  = slot_entries clusters 0 ++ slot_entries clusters 1
    ++ flat_map (slot_entries clusters) (seq 2 more).
Proof. unfold cluster_first_spec. intros ->. reflexivity. Qed.

Lemma flat_map_flat_map {A B C} (f : B → list C) (g : A → list B) l :
  flat_map f (flat_map g l) = flat_map (fun x => flat_map f (g x)) l.
Proof.
  induction l as [|x l IH]; simpl; [done|].
  by rewrite flat_map_app, IH.
Qed.

(** *** The loops of [ping_pong_pinning] *)

Lemma for_each_append {A B} (body : list B → A → option (list B))
    (f : A → list B) :
  (∀ acc x, body acc x = Some (acc ++ f x)) →
  ∀ l acc, for_each l body acc = Some (acc ++ flat_map f l).
Proof.
  intros Hb l. induction l as [|x l IH]; intros acc; simpl.
  - by rewrite app_nil_r.
  - rewrite Hb. simpl. by rewrite IH, <- app_assoc.
Qed.

(** [r < rounds npr clusters] exactly while some cursor is short of the
    end of its cluster. *)
Lemma rounds_spec (npr : nat) (clusters : list Cluster) (r : nat) :
  (0 < npr)%nat →
  (r < rounds npr clusters ↔ r * npr < max_list (map length clusters))%nat.
Proof.
  intros Hnpr. unfold rounds.
  set (M := max_list (map length clusters)).
  pose proof (Nat.Div0.mul_div_le (M + npr - 1) npr) as Hle.
  pose proof (Nat.mul_succ_div_gt (M + npr - 1) npr ltac:(lia)) as Hgt.
  set (R := ((M + npr - 1) / npr)%nat) in *.
  split; intros H; nia.
Qed.

Lemma while_exit {St} fuel (cond : St → bool) body s :
  cond s = false → while fuel cond body s = Some s.
Proof. intros H. destruct fuel; simpl; by rewrite H. Qed.

Lemma while_step {St} fuel (cond : St → bool) body s s' :
  cond s = true → body s = Some s' →
  while (S fuel) cond body s = while fuel cond body s'.
Proof. intros Hc Hb. simpl. by rewrite Hc, Hb. Qed.

Lemma pp_state_eta st :
  mkPP (cluster_positions st) (cpu_list st) = st.
Proof. by destruct st. Qed.

Section PingPongLoops.
Variable nodes_per_round : Z.
Variable smt_pos : nat.

Lemma process_cluster_while (cluster : Cluster) (cluster_idx : nat) :
  ∀ (m fuel : nat) (processed : Z) (st : pp_state) (q : nat),
    (m ≤ fuel)%nat →
    nodes_per_round - processed = Z.of_nat m →
    cluster_positions st !! cluster_idx = Some q →
    ∃ processed',
      while fuel (more_nodes nodes_per_round cluster_idx cluster)
            (visit_node smt_pos cluster_idx cluster) (processed, st)
      = Some (processed',
              mkPP (<[cluster_idx := (q + m `min` (length cluster - q))%nat]>
                      (cluster_positions st))
                   (cpu_list st
                    ++ flat_map (node_slot smt_pos) (take m (drop q cluster)))).
Proof.
  induction m as [|m IH]; intros fuel processed st q Hfuel Hm Hq.
  - exists processed. rewrite while_exit.
    + rewrite Nat.min_0_l, Nat.add_0_r, list_insert_id by done.
      rewrite take_0. simpl. by rewrite app_nil_r, pp_state_eta.
    + unfold more_nodes. simpl.
      replace (processed <? nodes_per_round) with false
        by (symmetry; apply Z.ltb_ge; lia).
      done.
  - destruct fuel as [|fuel]; [lia|].
    destruct (decide (q < length cluster)%nat) as [Hlt|Hge].
    + destruct (lookup_lt_is_Some_2 cluster q Hlt) as [node Hnode].
      destruct (IH fuel (processed + 1)
                  (mkPP (<[cluster_idx := (q + 1)%nat]> (cluster_positions st))
                        (append_node smt_pos (cpu_list st) node))
                  (q + 1)%nat) as [p' Hp']; [lia|lia|..].
      { simpl. apply list_lookup_insert_eq. by eapply lookup_lt_Some. }
      exists p'. erewrite while_step; [rewrite Hp'|..].
      * cbn [cluster_positions cpu_list]. f_equal. f_equal. f_equal.
        -- rewrite list_insert_insert_eq. f_equal. lia.
        -- rewrite append_node_spec, <- app_assoc. f_equal.
           rewrite (drop_S _ _ _ Hnode). simpl. by rewrite Nat.add_1_r.
      * unfold more_nodes. simpl.
        rewrite (list_lookup_total_correct _ _ _ Hq).
        apply andb_true_intro. split; [apply Z.ltb_lt|apply Nat.ltb_lt]; lia.
      * unfold visit_node. simpl.
        by rewrite (list_lookup_total_correct _ _ _ Hq), Hnode.
    + exists processed. rewrite while_exit.
      * replace (length cluster - q)%nat with 0%nat by lia.
        rewrite Nat.min_0_r, Nat.add_0_r, list_insert_id by done.
        rewrite drop_ge by lia. rewrite take_nil. simpl.
        by rewrite app_nil_r, pp_state_eta.
      * unfold more_nodes. simpl.
        rewrite (list_lookup_total_correct _ _ _ Hq).
        replace (q <? length cluster)%nat with false
          by (symmetry; apply Nat.ltb_ge; lia).
        apply andb_false_r.
Qed.

Hypothesis Hnpr : 0 < nodes_per_round.
Let npr := Z.to_nat nodes_per_round.

Lemma process_cluster_spec fuel st cluster_idx cluster q :
  (npr ≤ fuel)%nat →
  cluster_positions st !! cluster_idx = Some q →
  process_cluster fuel nodes_per_round smt_pos st (cluster_idx, cluster)
  = Some (mkPP (<[cluster_idx := (q + npr `min` (length cluster - q))%nat]>
                  (cluster_positions st))
               (cpu_list st
                ++ flat_map (node_slot smt_pos) (take npr (drop q cluster)))).
Proof.
  intros Hfuel Hq. unfold process_cluster. cbn [fst snd].
  destruct (process_cluster_while cluster cluster_idx npr fuel 0 st q)
    as [p' ->]; [done|subst npr; lia|done|done].
Qed.

(** One round: every cursor advances by up to [npr]. *)
Lemma round_from fuel (clusters : list Cluster) :
  (npr ≤ fuel)%nat →
  ∀ (pre qs : list nat) (out : list Z),
    length qs = length clusters →
    for_each (zip (seq (length pre) (length clusters)) clusters)
             (process_cluster fuel nodes_per_round smt_pos)
             (mkPP (pre ++ qs) out)
    = Some (mkPP
              (pre ++ zip_with (fun q (cl : Cluster) =>
                                  (q + npr `min` (length cl - q))%nat)
                               qs clusters)
              (out ++ flat_map (fun qc : nat * Cluster =>
                          flat_map (node_slot smt_pos)
                                   (take npr (drop qc.1 qc.2)))
                       (zip qs clusters))).
Proof.
  intros Hfuel. induction clusters as [|cl cls IH]; intros pre qs out Hlen.
  - destruct qs; [|discriminate Hlen]. simpl. by rewrite !app_nil_r.
  - destruct qs as [|q qs]; [discriminate Hlen|]. injection Hlen as Hlen.
    cbn [length seq zip zip_with for_each].
    rewrite (process_cluster_spec fuel _ _ _ q Hfuel)
      by (cbn [cluster_positions]; apply list_lookup_middle; done).
    cbn [cluster_positions cpu_list mbind option_bind].
    rewrite insert_app_r_alt by done.
    rewrite Nat.sub_diag. cbn [insert list_insert].
    specialize (IH (pre ++ [(q + npr `min` (length cl - q))%nat]) qs
                  (out ++ flat_map (node_slot smt_pos) (take npr (drop q cl)))
                  Hlen).
    rewrite length_app in IH. cbn [length] in IH.
    rewrite Nat.add_1_r, <- !app_assoc in IH. cbn [app] in IH.
    rewrite IH. reflexivity.
Qed.

Lemma cursors_advance (clusters : list Cluster) (r : nat) :
  zip_with (fun q (cl : Cluster) => (q + npr `min` (length cl - q))%nat)
           (map (fun cl : Cluster => (r * npr) `min` length cl)%nat clusters)
           clusters
  = map (fun cl : Cluster => (S r * npr) `min` length cl)%nat clusters.
Proof.
  induction clusters as [|cl cls IH]; simpl; [done|].
  rewrite IH. f_equal. lia.
Qed.

Lemma cursors_round (clusters : list Cluster) (r : nat) :
  flat_map (fun qc : nat * Cluster =>
              flat_map (node_slot smt_pos) (take npr (drop qc.1 qc.2)))
           (zip (map (fun cl : Cluster => (r * npr) `min` length cl)%nat
                     clusters) clusters)
  = flat_map (node_slot smt_pos) (flat_map (round_nodes npr r) clusters).
Proof.
  rewrite flat_map_flat_map.
  induction clusters as [|cl cls IH]; simpl; [done|].
  rewrite IH. f_equal. unfold round_nodes.
  destruct (Nat.min_spec (r * npr) (length cl)) as [[_ ->]|[Hle ->]]; [done|].
  by rewrite !drop_ge by lia.
Qed.

Lemma any_pending_cursors (clusters : list Cluster) (r : nat) out :
  any_pending clusters
    (mkPP (map (fun cl : Cluster => (r * npr) `min` length cl)%nat clusters)
          out)
  = (r * npr <? max_list (map length clusters))%nat.
Proof.
  unfold any_pending. cbn [cluster_positions].
  induction clusters as [|cl cls IH]; simpl.
  - symmetry. apply Nat.ltb_ge. lia.
  - rewrite IH.
    destruct (Nat.ltb_spec ((r * npr) `min` length cl) (length cl));
    destruct (Nat.ltb_spec (r * npr) (max_list (map length cls)));
    destruct (Nat.ltb_spec (r * npr)
                (length cl `max` max_list (map length cls))); simpl;
      first [done | lia].
Qed.

(** The outer [while]: from round [r] it runs the remaining rounds. *)
Lemma rounds_loop fuel (clusters : list Cluster) :
  (npr ≤ fuel)%nat →
  ∀ (k r fuel' : nat) (out : list Z),
    (r + k = rounds npr clusters)%nat →
    (k ≤ fuel')%nat →
    while fuel' (any_pending clusters)
      (fun st => for_each (enumerate clusters)
                   (process_cluster fuel nodes_per_round smt_pos) st)
      (mkPP (map (fun cl : Cluster => (r * npr) `min` length cl)%nat clusters)
            out)
    = Some (mkPP
              (map (fun cl : Cluster => ((r + k) * npr) `min` length cl)%nat
                   clusters)
              (out ++ flat_map (fun r' =>
                          flat_map (node_slot smt_pos)
                            (flat_map (round_nodes npr r') clusters))
                       (seq r k))).
Proof.
  intros Hfuel. assert (0 < npr)%nat as Hpos by (subst npr; lia).
  induction k as [|k IH]; intros r fuel' out Hr Hk.
  - rewrite while_exit.
    + rewrite Nat.add_0_r. simpl. by rewrite app_nil_r.
    + rewrite any_pending_cursors. apply Nat.ltb_ge.
      pose proof (rounds_spec npr clusters r Hpos). lia.
  - destruct fuel' as [|fuel']; [lia|].
    erewrite while_step; [rewrite (IH (S r)); [|lia|lia]|..].
    + rewrite <- Nat.add_succ_comm. cbn [seq flat_map].
      by rewrite <- app_assoc.
    + rewrite any_pending_cursors. apply Nat.ltb_lt.
      apply rounds_spec; [done|lia].
    + unfold enumerate.
      pose proof (round_from fuel clusters Hfuel []
        (map (fun cl : Cluster => (r * npr) `min` length cl)%nat clusters) out)
        as Hround.
      cbn [length app] in Hround. rewrite Hround by apply length_map.
      by rewrite cursors_advance, cursors_round.
Qed.

(** All the rounds of one SMT slot. *)
Lemma slot_loop fuel (clusters : list Cluster) (out : list Z) :
  (npr ≤ fuel)%nat → (rounds npr clusters ≤ fuel)%nat →
  (st ← while fuel (any_pending clusters)
          (fun st => for_each (enumerate clusters)
                       (process_cluster fuel nodes_per_round smt_pos) st)
          (mkPP (replicate (length clusters) 0%nat) out);
   Some (cpu_list st))
  = Some (out ++ flat_map (node_slot smt_pos) (ping_pong_order npr clusters)).
Proof.
  intros Hfuel Hrounds.
  replace (replicate (length clusters) 0%nat)
    with (map (fun cl : Cluster => (0 * npr) `min` length cl)%nat clusters).
  - rewrite (rounds_loop fuel clusters Hfuel (rounds npr clusters) 0 fuel out)
      by done.
    simpl. unfold ping_pong_order. by rewrite flat_map_flat_map.
  - clear Hrounds. induction clusters as [|cl cls IH]; [done|].
    cbn [map length replicate]. by rewrite IH.
Qed.

End PingPongLoops.

(** Past its guards, with enough fuel, [ping_pong_pinning] yields the
    round-by-round order. *)
Lemma ping_pong_pinning_runs (clusters : list Cluster) (nodes_per_round : Z)
    (fuel : nat) :
  0 < nodes_per_round →
  has_core_tuple clusters →
  (Z.to_nat nodes_per_round ≤ fuel)%nat →
  (rounds (Z.to_nat nodes_per_round) clusters ≤ fuel)%nat →
  ping_pong_pinning fuel clusters nodes_per_round
  = Some (Ok (ping_pong_spec (Z.to_nat nodes_per_round) clusters)).
Proof.
  intros Hnpr Hcore Hf1 Hf2. unfold ping_pong_pinning.
  destruct clusters as [|cl cls] eqn:Hcl; [by inversion Hcore|].
  rewrite <- Hcl in *. clear Hcl.
  replace (nodes_per_round <=? 0) with false by (symmetry; apply Z.leb_gt; lia).
  rewrite py_max_nonempty by (by apply core_lengths_nonempty).
  erewrite for_each_append; [reflexivity|].
  intros acc p. by apply slot_loop.
Qed.

(** *** The two orders list the same ids *)

Lemma flat_map_app_perm {A B} (f g : A → list B) l :
  flat_map (fun x => f x ++ g x) l ≡ₚ flat_map f l ++ flat_map g l.
Proof.
  induction l as [|x l IH]; simpl; [done|].
  rewrite IH, <- !app_assoc. apply Permutation_app_head.
  rewrite !app_assoc. apply Permutation_app_tail, Permutation_app_comm.
Qed.

Lemma flat_map_swap {A B C} (f : A → B → list C) la lb :
  flat_map (fun a => flat_map (f a) lb) la
  ≡ₚ flat_map (fun b => flat_map (fun a => f a b) la) lb.
Proof.
  induction la as [|a la IH]; simpl.
  - induction lb as [|b lb IHb]; simpl; done.
  - by rewrite IH, flat_map_app_perm.
Qed.

Lemma flat_map_perm_ext {A B} (f g : A → list B) l :
  (∀ x, x ∈ l → f x ≡ₚ g x) → flat_map f l ≡ₚ flat_map g l.
Proof.
  induction l as [|x l IH]; intros H; simpl; [done|].
  rewrite (H x) by constructor.
  rewrite IH; [done|]. intros y Hy. apply H. by constructor.
Qed.

Lemma concat_flat_map {A} (l : list (list A)) :
  concat l = flat_map (fun x => x) l.
Proof. induction l as [|x l IH]; simpl; [done|]. by rewrite IH. Qed.

(** A core tuple is the list of its slots. *)
Lemma slots_of_core (core : list Z) :
  ∀ width, (length core ≤ width)%nat →
    flat_map (fun p => slot p core) (seq 0 width) = core.
Proof.
  induction core as [|cpu core IH]; intros width Hw.
  - induction (seq 0 width) as [|p ps IHp]; simpl; [done|]. exact IHp.
  - destruct width as [|width]; [simpl in Hw; lia|].
    cbn [seq flat_map]. rewrite <- fmap_S_seq.
    change (S <$> seq 0 width) with (map S (seq 0 width)).
    rewrite flat_map_concat_map, map_map, <- flat_map_concat_map.
    unfold slot at 1. simpl. f_equal.
    apply IH. simpl in Hw. lia.
Qed.

(** A cluster is the concatenation of what it hands out round by round. *)
Lemma rounds_of_cluster (npr : nat) :
  ∀ R (cluster : Cluster), (length cluster ≤ R * npr)%nat →
    flat_map (fun r => round_nodes npr r cluster) (seq 0 R) = cluster.
Proof.
  induction R as [|R IH]; intros cluster Hlen.
  - simpl in *. by destruct cluster; [|simpl in Hlen; lia].
  - cbn [seq flat_map]. rewrite <- fmap_S_seq.
    change (S <$> seq 0 R) with (map S (seq 0 R)).
    rewrite flat_map_concat_map, map_map, <- flat_map_concat_map.
    rewrite (flat_map_ext _ (fun r => round_nodes npr r (drop npr cluster))).
    + rewrite IH by (rewrite length_drop; lia).
      unfold round_nodes. simpl. apply take_drop.
    + intros r. unfold round_nodes. by rewrite drop_drop.
Qed.

Lemma ping_pong_order_perm (npr : nat) (clusters : list Cluster) :
  (0 < npr)%nat → ping_pong_order npr clusters ≡ₚ concat clusters.
Proof.
  intros Hnpr. unfold ping_pong_order.
  rewrite (flat_map_swap (round_nodes npr)), concat_flat_map.
  apply flat_map_perm_ext. intros cluster Hin.
  rewrite rounds_of_cluster; [done|].
  pose proof (rounds_spec npr clusters (rounds npr clusters) Hnpr) as Hr.
  assert (length cluster ≤ max_list (map length clusters))%nat
    by (apply max_list_elem_of_le, list_elem_of_fmap; eauto).
  lia.
Qed.

Lemma ping_pong_spec_perm (npr : nat) (clusters : list Cluster) :
  (0 < npr)%nat →
  ping_pong_spec npr clusters ≡ₚ cluster_first_spec clusters.
Proof.
  intros Hnpr. unfold ping_pong_spec, cluster_first_spec.
  apply flat_map_perm_ext. intros p _.
  rewrite (ping_pong_order_perm npr clusters Hnpr).
  unfold slot_entries.
  by rewrite concat_flat_map, flat_map_flat_map.
Qed.

Lemma core_length_le_width (clusters : list Cluster) cluster node core :
  cluster ∈ clusters → node ∈ cluster → core ∈ cores_list node →
  (length core ≤ smt_width clusters)%nat.
Proof.
  intros Hc Hn Hk. apply max_list_elem_of_le. unfold core_lengths.
  apply list_elem_of_In, in_flat_map. exists cluster.
  split; [by apply list_elem_of_In|].
  apply in_flat_map. exists node. split; [by apply list_elem_of_In|].
  apply in_map. by apply list_elem_of_In.
Qed.

Lemma cluster_first_spec_perm (clusters : list Cluster) :
  cluster_first_spec clusters ≡ₚ all_cpu_ids clusters.
Proof.
  unfold cluster_first_spec, slot_entries, all_cpu_ids.
  rewrite (flat_map_swap (fun p cluster => flat_map (node_slot p) cluster)).
  apply flat_map_perm_ext. intros cluster Hc.
  rewrite (flat_map_swap (fun p node => node_slot p node)).
  apply flat_map_perm_ext. intros node Hn. unfold node_slot.
  rewrite (flat_map_swap (fun p core => slot p core)), concat_flat_map.
  apply flat_map_perm_ext. intros core Hk.
  rewrite slots_of_core; [done|]. by eapply core_length_le_width.
Qed.

Lemma cluster_first_pinning_no_cores (clusters : list Cluster) :
  no_core_tuple clusters → cluster_first_pinning clusters = Ok [].
Proof.
  intros H. destruct clusters as [|[|first rest] others]; [done..|].
  apply Forall_cons in H as [Hfirst _]. apply Forall_cons in Hfirst as [H _].
  simpl. by rewrite H.
Qed.

Lemma ping_pong_pinning_no_cores (clusters : list Cluster) npr fuel :
  clusters ≠ [] → 0 < npr → no_core_tuple clusters →
  ping_pong_pinning fuel clusters npr = Some (Raise ValueError).
Proof.
  intros Hne Hnpr H. unfold ping_pong_pinning.
  destruct clusters as [|cl cls] eqn:Hcl; [done|]. rewrite <- Hcl in *.
  replace (npr <=? 0) with false by (symmetry; apply Z.leb_gt; lia).
  by rewrite core_lengths_empty.
Qed.

(** *** The claims on the pinning generators *)

(** C1, as stated, fails when the first cluster is empty: every node has
    a core tuple, the order the specification describes is [[0]], and the
    guard [not clusters[0]] makes [cluster_first_pinning] return [[]]. *)
Lemma cluster_first_pinning_empty_first_cluster :
  let clusters := [[]; [mkNodeInfo 1 true [[0]] [10]]] in
  every_node_has_core clusters
  ∧ cluster_first_pinning clusters = Ok []
  ∧ cluster_first_spec clusters = [0]
  ∧ cluster_first_pinning clusters ≠ Ok (cluster_first_spec clusters).
Proof.
  repeat split; [|done].
  unfold every_node_has_core. repeat constructor. done.
Qed.

(** C1 (amended): when the first cluster is not empty and every node has
    a non-empty core tuple, [cluster_first_pinning] returns the ids in
    the order [smt_pos] (outermost), cluster, node, core tuple; in
    particular the entries of [smt_pos = 0] come before those of
    [smt_pos = 1]. *)
Theorem cluster_first_pinning_order (clusters : list Cluster) :
  head clusters ≠ Some [] →
  every_node_has_core clusters →
  cluster_first_pinning clusters = Ok (cluster_first_spec clusters)
  ∧ ∀ more, smt_width clusters = (2 + more)%nat →
      cluster_first_spec clusters
      = slot_entries clusters 0 ++ slot_entries clusters 1
        ++ flat_map (slot_entries clusters) (seq 2 more).
Proof.
  intros Hhead Hcores. split; [|apply cluster_first_spec_split].
  destruct clusters as [|[|first rest] others]; [done|done|].
  apply cluster_first_pinning_runs.
  apply Forall_cons in Hcores as [Hfirst _].
  apply Forall_cons in Hfirst as [Hex _].
  intros Hnil. rewrite Hnil in Hex. by apply Exists_nil in Hex.
Qed.

Lemma cluster_first_pinning_order_witness :
  cluster_first_pinning
    [[mkNodeInfo 0 true [[0; 4]; [1]] [10; 20]];
     [mkNodeInfo 1 true [[2]] [20; 10]]]
  = Ok [0; 1; 2; 4].
Proof.
  destruct (cluster_first_pinning_order
              [[mkNodeInfo 0 true [[0; 4]; [1]] [10; 20]];
               [mkNodeInfo 1 true [[2]] [20; 10]]]) as [H _].
  - simpl. discriminate.
  - unfold every_node_has_core. repeat constructor; discriminate.
  - rewrite H. reflexivity.
Defined.

(** C2: with at least one core tuple and a positive [nodes_per_round],
    [ping_pong_pinning] returns, for each [smt_pos] in turn, the entries
    of the nodes in round order: rounds until every cursor is at the end,
    clusters in the given order inside a round, up to [nodes_per_round]
    nodes of a cluster per round.  For two clusters of two nodes and
    [nodes_per_round = 1] the nodes are visited in the order
    [c0.n0, c1.n0, c0.n1, c1.n1]. *)
Theorem ping_pong_pinning_order (clusters : list Cluster) (nodes_per_round : Z) :
  has_core_tuple clusters →
  0 < nodes_per_round →
  (∃ fuel0, ∀ fuel, (fuel0 ≤ fuel)%nat →
     ping_pong_pinning fuel clusters nodes_per_round
     = Some (Ok (ping_pong_spec (Z.to_nat nodes_per_round) clusters)))
  ∧ ∀ a b c d, clusters = [[a; b]; [c; d]] → nodes_per_round = 1 →
      ping_pong_order (Z.to_nat nodes_per_round) clusters = [a; c; b; d].
Proof.
  intros Hcore Hnpr. split.
  - exists (Z.to_nat nodes_per_round
            `max` rounds (Z.to_nat nodes_per_round) clusters)%nat.
    intros fuel Hfuel. apply ping_pong_pinning_runs; [done|done|lia|lia].
  - by intros a b c d -> ->.
Qed.

Lemma ping_pong_pinning_order_witness :
  ∃ fuel0, ∀ fuel, (fuel0 ≤ fuel)%nat →
    ping_pong_pinning fuel
      [[mkNodeInfo 0 true [[0; 4]] [10; 20; 15; 25];
        mkNodeInfo 2 false [[2; 6]] [15; 25; 10; 30]];
       [mkNodeInfo 1 true [[1; 5]] [20; 10; 25; 15];
        mkNodeInfo 3 false [[3]] [25; 15; 30; 10]]] 1
    = Some (Ok [0; 1; 2; 3; 4; 5; 6]).
Proof.
  destruct (ping_pong_pinning_order
              [[mkNodeInfo 0 true [[0; 4]] [10; 20; 15; 25];
                mkNodeInfo 2 false [[2; 6]] [15; 25; 10; 30]];
               [mkNodeInfo 1 true [[1; 5]] [20; 10; 25; 15];
                mkNodeInfo 3 false [[3]] [25; 15; 30; 10]]] 1)
    as [H _].
  - unfold has_core_tuple. do 2 constructor. discriminate.
  - lia.
  - exact H.
Defined.

(** C4: without any core tuple [cluster_first_pinning] returns the empty
    list, but [ping_pong_pinning] evaluates [max] over an empty sequence
    and raises [ValueError].  Such clusters come out of [get_clusters]:
    on the small machine no CPU has a cache id at level 3, the default
    level, and the optimizer empties every core list. *)
Theorem ping_pong_pinning_no_core_tuple :
  let clusters := [[mkNodeInfo 0 true [] [10]]] in
  no_core_tuple clusters
  ∧ cluster_first_pinning clusters = Ok []
  ∧ (∀ fuel, ping_pong_pinning fuel clusters 1 = Some (Raise ValueError))
  ∧ ∃ built,
      SystemTopology.get_clusters example_tree None 3 [] = (Ok built, [])
      ∧ built ≠ []
      ∧ no_core_tuple built
      ∧ cluster_first_pinning built = Ok []
      ∧ ∀ fuel, ping_pong_pinning fuel built 1 = Some (Raise ValueError).
Proof.
  split; [|split; [|split]].
  - unfold no_core_tuple. repeat constructor.
  - reflexivity.
  - intros fuel. apply ping_pong_pinning_no_cores; [done|lia|].
    unfold no_core_tuple. repeat constructor.
  - eexists. split; [vm_compute; reflexivity|].
    split; [done|]. split; [unfold no_core_tuple; repeat constructor|].
    split; [reflexivity|].
    intros fuel. apply ping_pong_pinning_no_cores; [done|lia|].
    unfold no_core_tuple. repeat constructor.
Qed.

(** C9: when the first node of the first cluster has a non-empty core
    list and [nodes_per_round] is positive, both generators return a
    permutation of the ids of all core tuples: each core tuple gives its
    [smt_pos]-th id once for every [smt_pos] below its length. *)
Theorem pinning_orders_same_ids first rest others (nodes_per_round : Z) :
  cores_list first ≠ [] →
  0 < nodes_per_round →
  ∃ cf pp,
    cluster_first_pinning ((first :: rest) :: others) = Ok cf
    ∧ (∃ fuel0, ∀ fuel, (fuel0 ≤ fuel)%nat →
         ping_pong_pinning fuel ((first :: rest) :: others) nodes_per_round
         = Some (Ok pp))
    ∧ cf ≡ₚ pp
    ∧ cf ≡ₚ all_cpu_ids ((first :: rest) :: others)
    ∧ pp ≡ₚ all_cpu_ids ((first :: rest) :: others).
Proof.
  intros Hfirst Hnpr. set (clusters := (first :: rest) :: others).
  exists (cluster_first_spec clusters),
         (ping_pong_spec (Z.to_nat nodes_per_round) clusters).
  assert (ping_pong_spec (Z.to_nat nodes_per_round) clusters
          ≡ₚ cluster_first_spec clusters) as Hpp
    by (apply ping_pong_spec_perm; lia).
  split; [by apply cluster_first_pinning_runs|]. split; [|split; [|split]].
  - exists (Z.to_nat nodes_per_round
            `max` rounds (Z.to_nat nodes_per_round) clusters)%nat.
    intros fuel Hfuel. apply ping_pong_pinning_runs; [done| |lia|lia].
    do 2 constructor. done.
  - by rewrite Hpp.
  - apply cluster_first_spec_perm.
  - rewrite Hpp. apply cluster_first_spec_perm.
Qed.

Lemma pinning_orders_same_ids_witness :
  ∃ cf pp,
    cluster_first_pinning
      [[mkNodeInfo 0 true [[0; 4]; [1]] [10; 20];
        mkNodeInfo 2 false [[3]] [15; 25]];
       [mkNodeInfo 1 true [[2; 5]] [20; 10]]] = Ok cf
    ∧ (∃ fuel0, ∀ fuel, (fuel0 ≤ fuel)%nat →
         ping_pong_pinning fuel
           [[mkNodeInfo 0 true [[0; 4]; [1]] [10; 20];
             mkNodeInfo 2 false [[3]] [15; 25]];
            [mkNodeInfo 1 true [[2; 5]] [20; 10]]] 1 = Some (Ok pp))
    ∧ cf ≡ₚ pp
    ∧ cf ≡ₚ [0; 4; 1; 3; 2; 5]
    ∧ pp ≡ₚ [0; 4; 1; 3; 2; 5].
Proof.
  apply (pinning_orders_same_ids
           (mkNodeInfo 0 true [[0; 4]; [1]] [10; 20])
           [mkNodeInfo 2 false [[3]] [15; 25]]
           [[mkNodeInfo 1 true [[2; 5]] [20; 10]]] 1).
  - simpl. discriminate.
  - lia.
Defined.

(** C10: when the first node of the first cluster has no core tuple,
    [cluster_first_pinning] returns the empty list whatever the other
    nodes hold. *)
Theorem cluster_first_pinning_first_node_guard first rest others :
  cores_list first = [] →
  cluster_first_pinning ((first :: rest) :: others) = Ok [].
Proof. intros H. simpl. by rewrite H. Qed.

Lemma cluster_first_pinning_first_node_guard_witness :
  cluster_first_pinning
    [[mkNodeInfo 0 true [] [10; 20]; mkNodeInfo 2 false [[3]] [15; 25]];
     [mkNodeInfo 1 true [[2; 5]] [20; 10]]] = Ok [].
Proof.
  apply (cluster_first_pinning_first_node_guard
           (mkNodeInfo 0 true [] [10; 20])
           [mkNodeInfo 2 false [[3]] [15; 25]]
           [[mkNodeInfo 1 true [[2; 5]] [20; 10]]]).
  reflexivity.
Defined.

End PinningFacts.

Module TopologyFacts.
Import SystemTopology SortingFacts.

Lemma py_index_in_range {A} (l : list A) (i : Z) (d : A) :
  0 ≤ i < Z.of_nat (length l) → py_index l i = Ok (nth (Z.to_nat i) l d).
Proof.
  intros Hi. unfold py_index.
  replace (i <? 0) with false by (symmetry; apply Z.ltb_ge; lia).
  replace (0 <=? i) with true by (symmetry; apply Z.leb_le; lia).
  replace (i <? Z.of_nat (length l)) with true
    by (symmetry; apply Z.ltb_lt; lia).
  simpl. destruct (lookup_lt_is_Some_2 l (Z.to_nat i)) as [x Hx]; [lia|].
  rewrite Hx. f_equal. symmetry. by apply nth_lookup_Some.
Qed.

(** *** The cache optimizer *)

Lemma key_le_spec a b : key_le a b = true ↔ key_order a b.
Proof.
  unfold key_le, key_order.
  rewrite orb_true_iff, andb_true_iff, Z.ltb_lt, Z.eqb_eq, Z.leb_le. done.
Qed.

Lemma key_le_total a b : key_le a b = true ∨ key_le b a = true.
Proof. rewrite !key_le_spec. unfold key_order. lia. Qed.

Lemma key_le_trans a b c :
  key_le a b = true → key_le b c = true → key_le a c = true.
Proof. rewrite !key_le_spec. unfold key_order. lia. Qed.

Section Optimizer.
Variable fs : FileSystem.
Variable cache_level : Z.
Hypothesis Hlevel : 0 ≤ cache_level.

(** The entry the loop builds for a core tuple it keeps. *)
Let entry_of (core : list Z) : cache_entry :=
  mkEntry core (sort_key fs cache_level core).1
               (sort_key fs cache_level core).2.

Lemma collect_cache_entries_spec (cores : list (list Z)) :
  cache_ids_readable fs cores →
  ∀ acc,
    collect_cache_entries fs cache_level cores acc
    = Ok (acc ++ map entry_of
                   (List.filter (long_enough fs cache_level) cores)).
Proof.
  induction 1 as [|core cores Hcore _ IH]; intros acc; simpl.
  - by rewrite app_nil_r.
  - destruct core as [|first rest]; [apply IH|].
    destruct (Hcore first eq_refl) as [cache_ids Hids].
    unfold long_enough at 1. rewrite Hids. cbn [rbind].
    destruct (Z.leb_spec (cache_level + 1) (Z.of_nat (length cache_ids)))
      as [Hlong|Hshort].
    + replace (bool_decide (cache_ids = [])) with false
        by (symmetry; apply bool_decide_eq_false; intros ->; simpl in *; lia).
      replace (Z.of_nat (length cache_ids) <=? cache_level) with false
        by (symmetry; apply Z.leb_gt; lia).
      cbn [orb]. rewrite (py_index_in_range _ _ 0) by lia. cbn [rbind].
      rewrite IH. cbn [map]. rewrite <- app_assoc. cbn [app].
      do 3 f_equal. unfold entry_of, sort_key. by rewrite Hids.
    + replace (bool_decide (cache_ids = [])
               || (Z.of_nat (length cache_ids) <=? cache_level)) with true.
      * apply IH.
      * symmetry. apply orb_true_iff. right. apply Z.leb_le. lia.
Qed.

(** The optimizer returns the node with its qualifying core tuples in
    the stable order of their keys. *)
Lemma optimize_cache_nodes_sorted (node : NodeInfo) :
  cache_ids_readable fs (cores_list node) →
  optimize_cache_nodes fs node cache_level
  = Ok (mkNodeInfo (id node) (memory node)
          (py_sorted key_le (sort_key fs cache_level)
             (List.filter (long_enough fs cache_level) (cores_list node)))
          (distance node)).
Proof.
  intros Hread. unfold optimize_cache_nodes.
  replace (cache_level <? 0) with false by (symmetry; apply Z.ltb_ge; lia).
  rewrite collect_cache_entries_spec by done. cbn [rbind app].
  rewrite (py_sorted_map key_le (sort_key fs cache_level))
    by (intros core; unfold entry_of; simpl; by destruct (sort_key _ _ _)).
  rewrite map_map. unfold entry_of. simpl. by rewrite map_id.
Qed.

End Optimizer.

Lemma filter_all {A} (f : A → bool) (l : list A) :
  Forall (fun x => f x = true) l → List.filter f l = l.
Proof. induction 1 as [|x l Hx _ IH]; simpl; [done|]. by rewrite Hx, IH. Qed.

Lemma collect_cache_entries_readable fs cache_level (cores : list (list Z)) :
  ∀ acc entries,
    collect_cache_entries fs cache_level cores acc = Ok entries →
    cache_ids_readable fs cores.
Proof.
  induction cores as [|core cores IH]; intros acc entries H; [constructor|].
  cbn [collect_cache_entries] in H. destruct core as [|first rest].
  - constructor; [done|]. by eapply IH.
  - destruct (_get_cache_info fs first) as [ids|e] eqn:Hids; [|done].
    cbn [rbind] in H. constructor.
    + intros ? [= <-]. by exists ids.
    + destruct (_ || _) in H; [by eapply IH|].
      destruct (py_index ids cache_level); [|done]. by eapply IH.
Qed.

(** Optimizing an optimized node changes nothing: [get_clusters] may
    optimize the same node object twice when the node list holds it
    twice, with the result the value model gives. *)
Lemma optimize_cache_nodes_idempotent fs (node node' : NodeInfo) cache_level :
  optimize_cache_nodes fs node cache_level = Ok node' →
  optimize_cache_nodes fs node' cache_level = Ok node'.
Proof.
  intros H. destruct (decide (0 ≤ cache_level)) as [Hl|Hl].
  2:{ unfold optimize_cache_nodes in *.
      replace (cache_level <? 0) with true in *
        by (symmetry; apply Z.ltb_lt; lia).
      by injection H as <-. }
  assert (cache_ids_readable fs (cores_list node)) as Hread.
  { unfold optimize_cache_nodes in H.
    replace (cache_level <? 0) with false in H
      by (symmetry; apply Z.ltb_ge; lia).
    destruct (collect_cache_entries fs cache_level (cores_list node) [])
      as [entries|] eqn:Hentries; [|done].
    by eapply collect_cache_entries_readable. }
  rewrite optimize_cache_nodes_sorted in H by done. injection H as <-.
  set (kept := List.filter (long_enough fs cache_level) (cores_list node)).
  assert (∀ core, core ∈ py_sorted key_le (sort_key fs cache_level) kept →
                  core ∈ cores_list node
                  ∧ long_enough fs cache_level core = true) as Hkept.
  { intros core. rewrite (py_sorted_perm key_le _ kept).
    intros [? ?]%list_elem_of_In%filter_In. by rewrite list_elem_of_In. }
  rewrite optimize_cache_nodes_sorted; cbn [cores_list id memory distance].
  - f_equal. f_equal. rewrite filter_all.
    + apply py_sorted_of_sorted.
      apply (py_sorted_sorted key_le _ key_le_total key_le_trans).
    + apply Forall_forall. intros core Hcore. by apply Hkept.
  - done.
  - unfold cache_ids_readable in *. rewrite Forall_forall in Hread.
    apply Forall_forall. intros core Hcore. apply Hread. by apply Hkept.
Qed.

(** C5, as stated, fails: the first core tuple has a cache-id list of
    length 1, the cache [id] file of the second holds no number, and the
    optimizer raises [ValueError] at level 0 instead of producing a core
    list. *)
Lemma optimize_cache_nodes_malformed_id :
  let fs := tree [ (CPU_PATH ++ ["cpu0"; "cache"; "index0"; "id"], "0");
                   (CPU_PATH ++ ["cpu1"; "cache"; "index0"; "id"], "L1") ]
                 [ (CPU_PATH ++ ["cpu0"; "cache"], ["index0"]);
                   (CPU_PATH ++ ["cpu1"; "cache"], ["index0"]) ] in
  let node := mkNodeInfo 0 true [[0]; [1]] [10] in
  _get_cache_info fs 0 = Ok [0]
  ∧ _get_cache_info fs 1 = Raise ValueError
  ∧ List.filter (long_enough fs 0) (cores_list node) = [[0]]
  ∧ optimize_cache_nodes fs node 0 = Raise ValueError.
Proof. repeat split; vm_compute; reflexivity. Qed.

(** C5 (amended): for a negative level the optimizer returns the node
    unchanged.  For a level [>= 0], when looking up the cache ids of the
    first logical id of every core tuple yields a list, it keeps exactly
    the core tuples whose first logical id has a cache-id list of length
    at least [cache_level + 1], in ascending order of (cache id at that
    level, first logical id), and changes no other field; when one of
    these lookups raises, so does the optimizer. *)
Theorem optimize_cache_nodes_spec (fs : FileSystem) (node : NodeInfo)
    (cache_level : Z) :
  (cache_level < 0 → optimize_cache_nodes fs node cache_level = Ok node)
  ∧ (0 ≤ cache_level →
     (cache_ids_readable fs (cores_list node) →
      ∃ cores,
        optimize_cache_nodes fs node cache_level
        = Ok (mkNodeInfo (id node) (memory node) cores (distance node))
        ∧ cores ≡ₚ List.filter (long_enough fs cache_level) (cores_list node)
        ∧ StronglySorted
            (fun a b => key_order (sort_key fs cache_level a)
                                  (sort_key fs cache_level b)) cores)
     ∧ (¬ cache_ids_readable fs (cores_list node) →
        ∃ e, optimize_cache_nodes fs node cache_level = Raise e)).
Proof.
  split.
  - intros Hneg. unfold optimize_cache_nodes.
    by replace (cache_level <? 0) with true by (symmetry; apply Z.ltb_lt; lia).
  - intros Hlevel. split.
    + intros Hread. eexists.
      split; [by apply optimize_cache_nodes_sorted|].
      split; [apply py_sorted_perm|].
      eapply StronglySorted_weaken;
        [|apply (py_sorted_sorted key_le _ key_le_total key_le_trans)].
      intros a b. apply key_le_spec.
    + intros Hbad. unfold optimize_cache_nodes.
      replace (cache_level <? 0) with false
        by (symmetry; apply Z.ltb_ge; lia).
      destruct (collect_cache_entries fs cache_level (cores_list node) [])
        as [entries|e] eqn:Hentries; [|by exists e].
      destruct Hbad. by eapply collect_cache_entries_readable.
Qed.

(** *** The cluster builder: the nearest anchor *)

Lemma scan_step_spec node st anchor :
  0 ≤ id anchor →
  scan_step node st anchor
  = Ok (if has_entry node anchor
           && ext_lt (Finite (distance_to node anchor)) st.1
        then (Finite (distance_to node anchor), Some (pretty (id anchor)))
        else st).
Proof.
  intros Hid. unfold scan_step, has_entry.
  replace (0 <=? id anchor) with true by (symmetry; apply Z.leb_le; lia).
  cbn [andb].
  destruct (Z.ltb_spec (id anchor) (Z.of_nat (length (distance node))));
    [|done].
  rewrite (py_index_in_range _ _ 0) by lia. cbn [rbind andb].
  fold (distance_to node anchor). by destruct (ext_lt _ _).
Qed.

(** The scan keeps the state unless the nearest anchor of the list beats
    it strictly. *)
Lemma scan_from node anchors :
  Forall (fun a => 0 ≤ id a) anchors →
  ∀ st,
    rfoldl (scan_step node) anchors st
    = Ok match nearest node anchors with
         | Some b =>
             if ext_lt (Finite (distance_to node b)) st.1
             then (Finite (distance_to node b), Some (pretty (id b)))
             else st
         | None => st
         end.
Proof.
  induction 1 as [|a rest Ha _ IH]; intros st; [done|].
  cbn [rfoldl nearest]. rewrite scan_step_spec by done. cbn [rbind].
  rewrite IH. f_equal.
  destruct st as [d0 k0]. unfold ext_lt. cbn [fst].
  destruct (nearest node rest) as [b|];
    destruct (has_entry node a); cbn [andb];
    destruct d0 as [d0|];
    repeat (match goal with
            | |- context [?x <? ?y] => destruct (Z.ltb_spec x y)
            | |- context [?x <=? ?y] => destruct (Z.leb_spec x y)
            end; cbn [fst andb]);
    first [done | lia].
Qed.

Lemma closest_memory_node_spec node anchors :
  Forall (fun a => 0 ≤ id a) anchors →
  ∃ d, closest_memory_node anchors node
       = Ok (d, (fun b => pretty (id b)) <$> nearest node anchors).
Proof.
  intros Hids. unfold closest_memory_node. rewrite scan_from by done.
  destruct (nearest node anchors); simpl; eauto.
Qed.

(** [nearest] picks an anchor with an entry, strictly nearer than every
    candidate scanned before it and at least as near as every candidate
    scanned after it. *)
Lemma nearest_Some node anchors chosen :
  nearest node anchors = Some chosen →
  ∃ pre post,
    anchors = pre ++ chosen :: post
    ∧ has_entry node chosen = true
    ∧ Forall (fun a => has_entry node a = true →
                       distance_to node chosen < distance_to node a) pre
    ∧ Forall (fun a => has_entry node a = true →
                       distance_to node chosen ≤ distance_to node a) post.
Proof.
  revert chosen. induction anchors as [|a rest IH]; intros chosen; [done|].
  cbn [nearest]. destruct (nearest node rest) as [b|] eqn:Hb.
  - destruct (IH b eq_refl) as (pre & post & -> & Hentry & Hpre & Hpost).
    destruct (has_entry node a) eqn:Ha; cbn [andb].
    + destruct (Z.leb_spec (distance_to node a) (distance_to node b)).
      * intros [= <-]. exists [], (pre ++ b :: post).
        repeat split; [done|constructor|].
        apply Forall_app. split; [|constructor].
        -- eapply Forall_impl; [exact Hpre|].
           intros c Hc Hec. specialize (Hc Hec). simpl in Hc. lia.
        -- intros. lia.
        -- eapply Forall_impl; [exact Hpost|].
           intros c Hc Hec. specialize (Hc Hec). simpl in Hc. lia.
      * intros [= <-]. exists (a :: pre), post.
        repeat split; [done|constructor; [intros; lia|done]|done].
    + intros [= <-]. exists (a :: pre), post.
      repeat split; [done|constructor; [congruence|done]|done].
  - destruct (has_entry node a) eqn:Ha; [|done].
    intros [= <-]. exists [], rest. repeat split; [done|constructor|].
    clear IH. induction rest as [|c rest IH]; [constructor|].
    cbn [nearest] in Hb. destruct (nearest node rest);
      [by destruct (has_entry node c && _)|].
    destruct (has_entry node c) eqn:Hc; [done|].
    constructor; [congruence|by apply IH].
Qed.

Lemma nearest_None node anchors :
  nearest node anchors = None ↔
  Forall (fun a => has_entry node a = false) anchors.
Proof.
  induction anchors as [|a rest IH]; cbn [nearest].
  - split; [constructor|done].
  - destruct (nearest node rest) as [b|].
    + split.
      * by destruct (has_entry node a && _).
      * intros H. apply Forall_cons in H as [_ H]. by apply IH in H.
    + destruct (has_entry node a) eqn:Ha.
      * split; [done|]. intros H. apply Forall_cons in H as [H _]. congruence.
      * split; [|done]. intros _. constructor; [done|by apply IH].
Qed.

(** [nearest] reads the node only through its distance vector. *)
Lemma nearest_distance node node' anchors :
  distance node = distance node' →
  nearest node anchors = nearest node' anchors.
Proof.
  intros Hd. induction anchors as [|a rest IH]; [done|].
  cbn [nearest]. rewrite IH. unfold has_entry, distance_to. by rewrite Hd.
Qed.

(** *** The cluster builder: the dictionary of clusters *)

(** [str(n)] is never the empty string. *)
Lemma pretty_N_go_length (x : N) (s : string) :
  (String.length s ≤ String.length (pretty_N_go x s))%nat.
Proof.
  revert s. induction (N.lt_wf_0 x) as [x _ IH]; intros s.
  assert (x = 0 ∨ 0 < x)%N as [->|Hpos] by lia; [by rewrite pretty_N_go_0|].
  rewrite pretty_N_go_step by done.
  etrans; [|apply IH; by apply N.div_lt]. simpl. lia.
Qed.

Lemma pretty_Z_nonempty (z : Z) : pretty z ≠ EmptyString.
Proof.
  destruct z as [|p|p]; [done| |done].
  unfold pretty, pretty_Z, pretty, pretty_positive, pretty, pretty_N.
  destruct (decide (N.pos p = 0%N)); [done|].
  rewrite pretty_N_go_step by lia. intros Heq.
  pose proof (pretty_N_go_length (N.pos p `div` 10)
                (String (pretty_N_char (N.pos p `mod` 10)) EmptyString)) as Hlen.
  rewrite Heq in Hlen. simpl in Hlen. lia.
Qed.

Lemma dict_set_elem {V} (k : string) (v : V) d k' v' :
  (k', v') ∈ dict_set k v d → (k', v') ∈ d ∨ (k' = k ∧ v' = v).
Proof.
  induction d as [|[k0 v0] d IH]; simpl.
  - intros [= -> ->]%list_elem_of_singleton. by right.
  - destruct (String.eqb_spec k k0) as [->|Hne].
    + intros [[= -> ->]|Hin]%elem_of_cons; [by right|].
      left. by constructor.
    + intros [[= -> ->]|Hin]%elem_of_cons; [left; constructor|].
      destruct (IH Hin) as [?|?]; [left; by constructor|by right].
Qed.

Lemma dict_set_same {V} (k : string) (v : V) d : (k, v) ∈ dict_set k v d.
Proof.
  induction d as [|[k0 v0] d IH]; simpl; [constructor|].
  destruct (String.eqb_spec k k0) as [->|Hne]; [constructor|by constructor].
Qed.

Lemma dict_set_keeps_keys {V} (k : string) (v : V) d k' v' :
  (k', v') ∈ d → ∃ v'', (k', v'') ∈ dict_set k v d.
Proof.
  induction d as [|[k0 v0] d IH]; simpl; [by intros ?%elem_of_nil|].
  intros [[= -> ->]|Hin]%elem_of_cons.
  - destruct (String.eqb_spec k k0) as [->|Hne]; eexists; constructor.
  - destruct (IH Hin) as [v'' Hv''].
    destruct (String.eqb_spec k k0) as [->|Hne]; eexists;
      constructor; first [exact Hin | exact Hv''].
Qed.

(** The seeded dictionary holds, under the key of each anchor, one
    anchor with that key, and nothing else. *)
Lemma seed_clusters_from (anchors : list NodeInfo) :
  ∀ d,
    let d' := fold_left (fun clusters mem_node =>
                 dict_set (pretty (id mem_node)) [mem_node] clusters)
                anchors d in
    (∀ k c, (k, c) ∈ d' →
       (k, c) ∈ d ∨ ∃ m, m ∈ anchors ∧ k = pretty (id m) ∧ c = [m])
    ∧ (∀ k c, (k, c) ∈ d → ∃ c', (k, c') ∈ d')
    ∧ (∀ m, m ∈ anchors → ∃ c, (pretty (id m), c) ∈ d').
Proof.
  induction anchors as [|a rest IH]; intros d; cbn [fold_left].
  - repeat split; [by left|eauto|by intros m ?%elem_of_nil].
  - destruct (IH (dict_set (pretty (id a)) [a] d)) as (H1 & H2 & H3).
    repeat split.
    + intros k c Hin. destruct (H1 k c Hin) as [Hd|(m & Hm & -> & ->)].
      * destruct (dict_set_elem _ _ _ _ _ Hd) as [?|[-> ->]]; [by left|].
        right. exists a. split; [constructor|done].
      * right. exists m. split; [by constructor|done].
    + intros k c Hin.
      destruct (dict_set_keeps_keys (pretty (id a)) [a] d k c Hin) as [c' Hc'].
      by eapply H2.
    + intros m [->|Hm]%elem_of_cons; [|by apply H3].
      eapply H2. apply dict_set_same.
Qed.

Lemma seed_clusters_spec (anchors : list NodeInfo) :
  (∀ k c, (k, c) ∈ seed_clusters anchors →
     ∃ m, m ∈ anchors ∧ k = pretty (id m) ∧ c = [m])
  ∧ (∀ m, m ∈ anchors → ∃ c, (pretty (id m), c) ∈ seed_clusters anchors).
Proof.
  destruct (seed_clusters_from anchors []) as (H1 & _ & H3). split; [|done].
  intros k c Hin. destruct (H1 k c Hin) as [?%elem_of_nil|?]; done.
Qed.

(** The key under which the scan files a node. *)
Abbreviation key_of anchors node :=
  ((fun b => pretty (id b)) <$> nearest node anchors).

Lemma assign_node_spec anchors clusters node :
  Forall (fun a => 0 ≤ id a) anchors →
  assign_node anchors clusters node
  = Ok (if memory node then clusters
        else match key_of anchors node with
             | Some k => dict_append k node clusters
             | None => clusters
             end).
Proof.
  intros Hids. unfold assign_node. destruct (memory node); [done|].
  destruct (closest_memory_node_spec node anchors Hids) as [d ->].
  cbn [rbind snd]. destruct (nearest node anchors) as [b|]; [|done].
  cbn [fmap option_fmap option_map].
  destruct (String.eqb_spec (pretty (id b)) EmptyString) as [Heq|]; [|done].
  by destruct (pretty_Z_nonempty (id b)).
Qed.

(** After the assignment loop every cluster holds, after what it held,
    the non-memory nodes filed under its key, in the order of the list. *)
Lemma assign_nodes_spec anchors nodes :
  Forall (fun a => 0 ≤ id a) anchors →
  ∀ clusters,
    assign_nodes anchors nodes clusters
    = Ok (map (fun kv : string * Cluster =>
                 (kv.1,
                  kv.2 ++ List.filter
                            (fun n => negb (memory n)
                                      && bool_decide
                                           (key_of anchors n = Some kv.1))
                            nodes))
              clusters).
Proof.
  intros Hids. unfold assign_nodes.
  induction nodes as [|n nodes IH]; intros clusters; cbn [rfoldl].
  - f_equal. induction clusters as [|[k c] d IHd]; [done|].
    simpl in *. rewrite app_nil_r. f_equal. exact IHd.
  - rewrite assign_node_spec by done. cbn [rbind]. rewrite IH. f_equal.
    cbn [List.filter].
    destruct (memory n); cbn [negb andb]; [done|].
    destruct (nearest n anchors) as [b|];
      cbn [fmap option_fmap option_map].
    + unfold dict_append. rewrite map_map. apply map_ext. intros [k c].
      cbn [fst snd].
      destruct (String.eqb_spec (pretty (id b)) k) as [->|Hne]; cbn [fst snd].
      * rewrite bool_decide_eq_true_2 by done. by rewrite <- app_assoc.
      * rewrite bool_decide_eq_false_2 by congruence. done.
    + apply map_ext. intros [k c]. by rewrite bool_decide_eq_false_2.
Qed.

(** *** The cluster builder: sorting, optimizing, and the result *)

Lemma elem_of_map {A B} (f : A → B) l y :
  y ∈ map f l ↔ ∃ x, y = f x ∧ x ∈ l.
Proof. apply (list_elem_of_fmap f). Qed.

Lemma elem_of_list_filter {A} (f : A → bool) l x :
  x ∈ List.filter f l ↔ f x = true ∧ x ∈ l.
Proof. rewrite !list_elem_of_In, filter_In. tauto. Qed.

Lemma rmapM_ok {A B} (f : A → result B) (g : A → B) l :
  (∀ x, x ∈ l → f x = Ok (g x)) → rmapM f l = Ok (map g l).
Proof.
  induction l as [|x l IH]; intros H; simpl; [done|].
  rewrite (H x) by constructor. cbn [rbind].
  rewrite IH; [done|]. intros y Hy. apply H. by constructor.
Qed.

Lemma rmapM_Forall2 {A B} (f : A → result B) (P : A → B → Prop) l :
  (∀ x, x ∈ l → ∃ y, f x = Ok y ∧ P x y) →
  ∃ l', rmapM f l = Ok l' ∧ Forall2 P l l'.
Proof.
  induction l as [|x l IH]; intros H; simpl.
  - exists []. split; [done|constructor].
  - destruct (H x) as (y & -> & Hy); [constructor|].
    destruct IH as (l' & -> & Hl').
    { intros z Hz. apply H. by constructor. }
    exists (y :: l'). split; [done|by constructor].
Qed.

Lemma Forall2_elem_l {A B} (P : A → B → Prop) l k x :
  Forall2 P l k → x ∈ l → ∃ y, y ∈ k ∧ P x y.
Proof.
  induction 1 as [|a b l k Hab _ IH]; [by intros ?%elem_of_nil|].
  intros [->|Hx]%elem_of_cons.
  - exists b. split; [constructor|done].
  - destruct (IH Hx) as (y & Hy & HP). exists y. split; [by constructor|done].
Qed.

Lemma Forall2_elem_r {A B} (P : A → B → Prop) l k y :
  Forall2 P l k → y ∈ k → ∃ x, x ∈ l ∧ P x y.
Proof.
  induction 1 as [|a b l k Hab _ IH]; [by intros ?%elem_of_nil|].
  intros [->|Hy]%elem_of_cons.
  - exists a. split; [constructor|done].
  - destruct (IH Hy) as (x & Hx & HP). exists x. split; [by constructor|done].
Qed.

Lemma Forall2_impl_elem {A B} (P Q : A → B → Prop) l k :
  Forall2 P l k → (∀ x y, x ∈ l → P x y → Q x y) → Forall2 Q l k.
Proof.
  induction 1 as [|a b l k Hab _ IH]; intros H; constructor.
  - apply H; [constructor|done].
  - apply IH. intros x y Hx. apply H. by constructor.
Qed.

Lemma Forall2_map_l {A A' B} (f : A → A') (P : A' → B → Prop) l k :
  Forall2 P (map f l) k → Forall2 (fun x y => P (f x) y) l k.
Proof.
  revert k. induction l as [|x l IH]; intros k H; inversion H; subst;
    constructor; auto.
Qed.

(** With an anchor among the nodes, [get_clusters] runs its three
    phases and prints nothing. *)
Lemma get_clusters_phases fs (nodes : list NodeInfo) cache_level log :
  anchors_of nodes ≠ [] →
  get_clusters fs (Some nodes) cache_level log
  = (let? clusters :=
       assign_nodes (anchors_of nodes) nodes
                    (seed_clusters (anchors_of nodes)) in
     let? sorted := rmapM sort_cluster (map snd clusters) in
     if 0 <=? cache_level then
       rmapM (rmapM (fun node =>
                       optimize_cache_nodes fs node cache_level)) sorted
     else Ok sorted,
     log).
Proof.
  intros Hne. unfold get_clusters, anchors_of in *.
  destruct nodes as [|n ns]; [done|].
  by destruct (List.filter memory (n :: ns)).
Qed.

Lemma distance_key_spec memory_node x :
  0 ≤ id memory_node →
  distance_key memory_node x
  = Ok (if has_entry x memory_node
        then Finite (distance_to x memory_node) else Infinity).
Proof.
  intros Hid. unfold distance_key, has_entry.
  replace (0 <=? id memory_node) with true by (symmetry; apply Z.leb_le; lia).
  cbn [andb].
  destruct (Z.ltb_spec (id memory_node) (Z.of_nat (length (distance x))));
    [|done].
  by rewrite (py_index_in_range _ _ 0) by lia.
Qed.

(** Sorting a cluster permutes the nodes after the anchor. *)
Lemma sort_cluster_spec (cluster : Cluster) :
  (∀ anchor, head cluster = Some anchor → 0 ≤ id anchor) →
  ∃ sorted, sort_cluster cluster = Ok sorted
            ∧ sorted ≡ₚ cluster ∧ head sorted = head cluster.
Proof.
  intros Hhead. destruct cluster as [|anchor [|x others]];
    [by exists []|by exists [anchor]|].
  unfold sort_cluster.
  rewrite (rmapM_ok _ (fun x => (if has_entry x anchor
                                 then Finite (distance_to x anchor)
                                 else Infinity, x))).
  - cbn [rbind]. eexists. split; [done|]. split; [|done].
    constructor. rewrite (py_sorted_perm ext_le fst), map_map. simpl.
    by rewrite map_id.
  - intros y _. by rewrite distance_key_spec by (by apply Hhead).
Qed.

Section Builder.
Variable fs : FileSystem.
Variable nodes : list NodeInfo.
Variable cache_level : Z.
Hypothesis Hanchor : Exists (fun node => memory node = true) nodes.
Hypothesis Hids : anchor_ids_valid nodes.
Hypothesis Hcache :
  0 ≤ cache_level →
  Forall (fun node => cache_ids_readable fs (cores_list node)) nodes.

(** What the optional last phase makes of a node. *)
Let post (node : NodeInfo) : NodeInfo :=
  if 0 <=? cache_level then
    mkNodeInfo (id node) (memory node)
      (py_sorted key_le (sort_key fs cache_level)
         (List.filter (long_enough fs cache_level) (cores_list node)))
      (distance node)
  else node.

(** The non-memory nodes filed under a key, in the order of the list. *)
Let filed (k : string) : list NodeInfo :=
  List.filter (fun n => negb (memory n)
                        && bool_decide (key_of (anchors_of nodes) n = Some k))
              nodes.

Lemma anchors_elem a : a ∈ anchors_of nodes ↔ memory a = true ∧ a ∈ nodes.
Proof. apply elem_of_list_filter. Qed.

Lemma anchors_nonneg : Forall (fun a => 0 ≤ id a) (anchors_of nodes).
Proof.
  apply Forall_forall. intros a [Hm Ha]%anchors_elem.
  unfold anchor_ids_valid in Hids. rewrite Forall_forall in Hids. eauto.
Qed.

Lemma post_ok node :
  node ∈ nodes → optimize_cache_nodes fs node cache_level = Ok (post node).
Proof.
  intros Hin. unfold post. destruct (Z.leb_spec 0 cache_level) as [Hl|Hl].
  - apply optimize_cache_nodes_sorted; [done|].
    specialize (Hcache Hl). rewrite Forall_forall in Hcache. eauto.
  - unfold optimize_cache_nodes.
    by replace (cache_level <? 0) with true
      by (symmetry; apply Z.ltb_lt; lia).
Qed.

Lemma post_fields node :
  id (post node) = id node ∧ memory (post node) = memory node
  ∧ distance (post node) = distance node.
Proof. unfold post. by destruct (0 <=? cache_level). Qed.

(** The clusters [get_clusters] returns: one per seeded key, holding
    the anchor first and then, in some order, the nodes filed under the
    key, every node as the last phase leaves it; nothing is printed. *)
Lemma get_clusters_built (log : list message) :
  ∃ sorted,
    get_clusters fs (Some nodes) cache_level log
    = (Ok (map (map post) sorted), log)
    ∧ Forall2 (fun (kv : string * Cluster) (cluster : Cluster) =>
                 ∃ anchor,
                   anchor ∈ anchors_of nodes
                   ∧ kv.1 = pretty (id anchor)
                   ∧ head cluster = Some anchor
                   ∧ cluster ≡ₚ anchor :: filed kv.1)
              (seed_clusters (anchors_of nodes)) sorted.
Proof.
  destruct (seed_clusters_spec (anchors_of nodes)) as [Hseed _].
  destruct (rmapM_Forall2 sort_cluster
              (fun c c' => c' ≡ₚ c ∧ head c' = head c)
              (map snd (map (fun kv : string * Cluster =>
                               (kv.1, kv.2 ++ filed kv.1))
                            (seed_clusters (anchors_of nodes)))))
    as (sorted & Hsorted & Hrel).
  { intros c (kv & -> & (kv0 & -> & Hkv0)%elem_of_map)%elem_of_map.
    destruct kv0 as [k c0]. destruct (Hseed k c0 Hkv0) as (m & Hm & -> & ->).
    cbn [fst snd]. apply sort_cluster_spec. intros anchor [= <-].
    pose proof anchors_nonneg as Hnn. rewrite Forall_forall in Hnn. eauto. }
  exists sorted. split.
  - rewrite get_clusters_phases.
    2:{ apply Exists_exists in Hanchor as (a & Ha & Hm).
        assert (a ∈ anchors_of nodes) as Hin by (by apply anchors_elem).
        intros Hnil. rewrite Hnil in Hin. by apply elem_of_nil in Hin. }
    f_equal.
    rewrite assign_nodes_spec by apply anchors_nonneg. cbn [rbind].
    pose proof Hsorted as Hrun. unfold filed in Hrun. cbv beta in Hrun.
    rewrite Hrun. clear Hrun. cbn [rbind].
    assert (∀ c x, c ∈ sorted → x ∈ c → x ∈ nodes) as Hmem.
    { intros c x Hc Hx.
      destruct (Forall2_elem_r _ _ _ _ Hrel Hc) as (c0 & Hc0 & Hperm & _).
      apply elem_of_map in Hc0 as (kv & -> & (kv0 & -> & Hkv0)%elem_of_map).
      destruct kv0 as [k c0]. destruct (Hseed k c0 Hkv0) as (m & Hm & -> & ->).
      cbn [fst snd] in Hperm. rewrite Hperm in Hx.
      apply elem_of_cons in Hx as [->|Hx].
      - by apply anchors_elem in Hm as [_ ?].
      - by apply elem_of_list_filter in Hx as [_ ?]. }
    destruct (decide (0 ≤ cache_level)) as [Hl|Hl].
    + replace (0 <=? cache_level) with true
        by (symmetry; apply Z.leb_le; lia).
      apply rmapM_ok. intros c Hc. apply rmapM_ok. intros x Hx.
      apply post_ok. by eapply Hmem.
    + replace (0 <=? cache_level) with false at 1
        by (symmetry; apply Z.leb_gt; lia).
      f_equal. rewrite <- (map_id sorted) at 1. apply map_ext_in.
      intros c Hc. rewrite <- (map_id c) at 1. apply map_ext.
      intros x. unfold post.
      by replace (0 <=? cache_level) with false
        by (symmetry; apply Z.leb_gt; lia).
  - rewrite map_map in Hrel. apply Forall2_map_l in Hrel.
    eapply Forall2_impl_elem; [exact Hrel|].
    intros [k c0] c' Hin [Hperm Hhead]. cbn [fst snd] in *.
    destruct (Hseed k c0 Hin) as (m & Hm & -> & ->).
    exists m. by repeat split.
Qed.

(** C3: with a memory-capable node in the list, every non-memory node
    that has a distance entry at some anchor's id goes to the cluster of
    the anchor with the numerically smallest entry; anchors without an
    entry cannot be chosen, and among equally near anchors the first in
    scan order wins, whatever the ids.  The node is in that cluster as
    the optional cache optimization leaves it, and in no cluster of an
    anchor with another id.  (Anchor ids are node numbers, and the cache
    ids the optimization reads are taken to be readable.) *)
Theorem get_clusters_nearest_anchor (log : list message) :
  ∃ clusters,
    get_clusters fs (Some nodes) cache_level log = (Ok clusters, log)
    ∧ ∀ node,
        node ∈ nodes → memory node = false →
        Exists (fun a => has_entry node a = true) (anchors_of nodes) →
        ∃ scanned_before chosen scanned_after cluster anchor node',
          anchors_of nodes = scanned_before ++ chosen :: scanned_after
          ∧ has_entry node chosen = true
          ∧ Forall (fun a => has_entry node a = true →
                             distance_to node chosen < distance_to node a)
                   scanned_before
          ∧ Forall (fun a => has_entry node a = true →
                             distance_to node chosen ≤ distance_to node a)
                   scanned_after
          ∧ cluster ∈ clusters
          ∧ head cluster = Some anchor
          ∧ memory anchor = true
          ∧ id anchor = id chosen
          ∧ optimize_cache_nodes fs node cache_level = Ok node'
          ∧ node' ∈ cluster
          ∧ ∀ other,
              other ∈ clusters → node' ∈ other →
              ∃ anchor', head other = Some anchor' ∧ id anchor' = id chosen.
Proof.
  destruct (get_clusters_built log) as (sorted & Hrun & Hrel).
  eexists. split; [exact Hrun|].
  intros node Hnode Hmem Hentry.
  destruct (nearest node (anchors_of nodes)) as [chosen|] eqn:Hnear.
  2:{ apply nearest_None in Hnear. apply Exists_exists in Hentry
        as (a & Ha & Hea). rewrite Forall_forall in Hnear.
      specialize (Hnear a Ha). congruence. }
  destruct (nearest_Some _ _ _ Hnear) as (pre & post' & Hsplit & He & Hpre & Hpost).
  assert (chosen ∈ anchors_of nodes) as Hchosen.
  { rewrite Hsplit. apply elem_of_app. right. constructor. }
  destruct (seed_clusters_spec (anchors_of nodes)) as [_ Hkeys].
  destruct (Hkeys chosen Hchosen) as [c0 Hc0].
  destruct (Forall2_elem_l _ _ _ _ Hrel Hc0)
    as (cluster & Hcluster & anchor & Hanc & Hkey & Hhead & Hperm).
  cbn [fst] in *. apply (inj pretty) in Hkey.
  exists pre, chosen, post', (map post cluster), (post anchor), (post node).
  repeat split; try done.
  - apply elem_of_map. by exists cluster.
  - destruct cluster; [done|]. by injection Hhead as ->.
  - destruct (post_fields anchor) as (_ & -> & _).
    by apply anchors_elem in Hanc as [? _].
  - destruct (post_fields anchor) as (-> & _ & _). done.
  - by apply post_ok.
  - apply elem_of_map. exists node. split; [done|].
    rewrite Hperm. apply elem_of_cons. right. unfold filed.
    apply elem_of_list_filter. split; [|done].
    rewrite Hmem, Hnear. cbn [negb andb fmap option_fmap option_map].
    by apply bool_decide_eq_true_2.
  - intros other (c & -> & Hc)%elem_of_map (x & Heq & Hx)%elem_of_map.
    destruct (Forall2_elem_r _ _ _ _ Hrel Hc)
      as (kv & _ & anchor_c & Hanc_c & Hkey_c & Hhead_c & Hperm_c).
    destruct (post_fields x) as (_ & Hxm & Hxd).
    destruct (post_fields node) as (_ & Hnm & Hnd).
    rewrite <- Heq in Hxm, Hxd. rewrite Hnm in Hxm. rewrite Hnd in Hxd.
    exists (post anchor_c). split.
    + destruct c as [|first_c rest_c]; [done|]. by injection Hhead_c as ->.
    + destruct (post_fields anchor_c) as (-> & _ & _).
      rewrite Hperm_c in Hx. apply elem_of_cons in Hx as [->|Hx].
      * apply anchors_elem in Hanc_c as [? _]. congruence.
      * unfold filed in Hx. apply elem_of_list_filter in Hx as [Hx _].
        apply andb_true_iff in Hx as [_ Hx]. apply bool_decide_eq_true in Hx.
        rewrite (nearest_distance x node) in Hx by done.
        rewrite Hnear in Hx. cbn in Hx. rewrite Hkey_c in Hx.
        injection Hx as Hx. by apply (inj pretty) in Hx.
Qed.

(** C8 (amended): with a memory-capable node in the list, a non-memory
    node without a distance entry at any anchor's id is in no returned
    cluster (no member has its id, memory flag and distance vector), and
    nothing is printed. *)
Theorem get_clusters_drops_unreachable (log : list message) :
  ∃ clusters,
    get_clusters fs (Some nodes) cache_level log = (Ok clusters, log)
    ∧ ∀ node,
        node ∈ nodes → memory node = false →
        Forall (fun a => has_entry node a = false) (anchors_of nodes) →
        ∀ cluster member,
          cluster ∈ clusters → member ∈ cluster →
          ¬ (id member = id node ∧ memory member = memory node
             ∧ distance member = distance node).
Proof.
  destruct (get_clusters_built log) as (sorted & Hrun & Hrel).
  eexists. split; [exact Hrun|].
  intros node Hnode Hmem Hnone cluster member Hcluster Hmember (_ & Hm & Hd).
  apply nearest_None in Hnone.
  apply elem_of_map in Hcluster as (c & -> & Hc).
  apply elem_of_map in Hmember as (x & -> & Hx).
  destruct (post_fields x) as (_ & Hxm & Hxd). rewrite Hxm in Hm.
  rewrite Hxd in Hd.
  destruct (Forall2_elem_r _ _ _ _ Hrel Hc)
    as (kv & _ & anchor & Hanc & _ & _ & Hperm).
  rewrite Hperm in Hx. apply elem_of_cons in Hx as [->|Hx].
  - apply anchors_elem in Hanc as [? _]. congruence.
  - unfold filed in Hx. apply elem_of_list_filter in Hx as [Hx _].
    apply andb_true_iff in Hx as [_ Hx]. apply bool_decide_eq_true in Hx.
    rewrite (nearest_distance x node) in Hx by done.
    by rewrite Hnone in Hx.
Qed.

End Builder.

Lemma optimize_cache_nodes_spec_witness :
  let node := mkNodeInfo 0 true [[0; 2]; [1; 3]] [10; 20; 20] in
  let bad := tree [ (CPU_PATH ++ ["cpu0"; "cache"; "index0"; "id"], "0");
                    (CPU_PATH ++ ["cpu1"; "cache"; "index0"; "id"], "L1") ]
                  [ (CPU_PATH ++ ["cpu0"; "cache"], ["index0"]);
                    (CPU_PATH ++ ["cpu1"; "cache"], ["index0"]) ] in
  optimize_cache_nodes example_tree node (-1) = Ok node
  ∧ (∃ cores,
       optimize_cache_nodes example_tree node 1
       = Ok (mkNodeInfo 0 true cores [10; 20; 20])
       ∧ cores ≡ₚ [[0; 2]; [1; 3]]
       ∧ StronglySorted
           (fun a b => key_order (sort_key example_tree 1 a)
                                 (sort_key example_tree 1 b)) cores)
  ∧ ∃ e, optimize_cache_nodes bad (mkNodeInfo 0 true [[0]; [1]] [10]) 0
         = Raise e.
Proof.
  intros node bad. split; [|split].
  - destruct (optimize_cache_nodes_spec example_tree node (-1)) as [Hneg _].
    apply Hneg. lia.
  - destruct (optimize_cache_nodes_spec example_tree node 1) as [_ Hlevel].
    destruct Hlevel as [Hreadable _]; [lia|].
    apply Hreadable. unfold cache_ids_readable. simpl.
    repeat constructor; intros first [= <-]; eexists; vm_compute; reflexivity.
  - destruct (optimize_cache_nodes_spec bad
                (mkNodeInfo 0 true [[0]; [1]] [10]) 0) as [_ Hlevel].
    destruct Hlevel as [_ Hraises]; [lia|].
    apply Hraises. unfold cache_ids_readable. simpl. intros Hread.
    inversion Hread as [|? ? _ Hrest]. inversion Hrest as [|? ? Hone _].
    destruct (Hone 1 eq_refl) as [cache_ids Hids].
    vm_compute in Hids. discriminate Hids.
Defined.

(** On the small machine, node 2 is as far from node 0 as from node 1
    and goes to node 0, the first anchor; node 3 has no distance vector
    and is in no cluster. *)
Example get_clusters_example :
  get_clusters example_tree (Some example_nodes) (-1) []
  = (Ok [[mkNodeInfo 0 true [[0; 2]; [1; 3]] [10; 20; 20];
          mkNodeInfo 2 false [[6]] [20; 20; 10]];
         [mkNodeInfo 1 true [[4]; [5]] [20; 10; 20]]], []).
Proof. vm_compute. reflexivity. Qed.

Lemma get_clusters_nearest_anchor_witness :
  get_clusters example_tree (Some example_tie) 0 []
  = (Ok [[mkNodeInfo 1 true [[4]] [20; 10; 20];
          mkNodeInfo 2 false [] [20; 20; 10]];
         [mkNodeInfo 0 true [[0; 2]; [1; 3]] [10; 20; 20]]], [])
  ∧ ∃ clusters,
      get_clusters example_tree (Some example_tie) 0 [] = (Ok clusters, [])
      ∧ ∀ node,
          node ∈ example_tie → memory node = false →
          Exists (fun a => has_entry node a = true) (anchors_of example_tie) →
          ∃ scanned_before chosen scanned_after cluster anchor node',
            anchors_of example_tie = scanned_before ++ chosen :: scanned_after
            ∧ has_entry node chosen = true
            ∧ Forall (fun a => has_entry node a = true →
                               distance_to node chosen < distance_to node a)
                     scanned_before
            ∧ Forall (fun a => has_entry node a = true →
                               distance_to node chosen ≤ distance_to node a)
                     scanned_after
            ∧ cluster ∈ clusters
            ∧ head cluster = Some anchor
            ∧ memory anchor = true
            ∧ id anchor = id chosen
            ∧ optimize_cache_nodes example_tree node 0 = Ok node'
            ∧ node' ∈ cluster
            ∧ ∀ other,
                other ∈ clusters → node' ∈ other →
                ∃ anchor', head other = Some anchor' ∧ id anchor' = id chosen.
Proof.
  split; [vm_compute; reflexivity|].
  apply (get_clusters_nearest_anchor example_tree example_tie 0).
  - constructor. reflexivity.
  - unfold anchor_ids_valid, example_tie. repeat constructor; simpl; lia.
  - intros _. unfold cache_ids_readable, example_tie. simpl.
    repeat constructor; intros first [= <-]; eexists; vm_compute; reflexivity.
Defined.

(** C8, as stated, fails: a node without a distance entry to the only
    anchor is dropped and nothing is printed; and in a list without any
    memory-capable node, where no node has an entry at an anchor's id,
    nothing is dropped. *)
Lemma get_clusters_drop_not_reported :
  let anchor := mkNodeInfo 0 true [[0]] [10; 20] in
  let far := mkNodeInfo 1 false [[1]] [] in
  memory far = false
  ∧ Forall (fun a => has_entry far a = false) (anchors_of [anchor; far])
  ∧ get_clusters (tree [] []) (Some [anchor; far]) (-1) []
    = (Ok [[anchor]], [])
  ∧ anchors_of [far] = []
  ∧ get_clusters (tree [] []) (Some [far]) (-1) []
    = (Ok [[far]], [Warning_no_memory_nodes]).
Proof.
  split; [done|]. split; [by repeat constructor|]. by repeat split.
Qed.

Lemma get_clusters_drops_unreachable_witness :
  ∃ clusters,
    get_clusters example_tree (Some example_nodes) 1 [] = (Ok clusters, [])
    ∧ ∀ node,
        node ∈ example_nodes → memory node = false →
        Forall (fun a => has_entry node a = false) (anchors_of example_nodes) →
        ∀ cluster member,
          cluster ∈ clusters → member ∈ cluster →
          ¬ (id member = id node ∧ memory member = memory node
             ∧ distance member = distance node).
Proof.
  apply (get_clusters_drops_unreachable example_tree example_nodes 1).
  - constructor. reflexivity.
  - unfold anchor_ids_valid, example_nodes. repeat constructor; simpl; lia.
  - intros _. unfold cache_ids_readable, example_nodes. simpl.
    repeat constructor; intros first [= <-]; eexists; vm_compute; reflexivity.
Defined.

(** *** The attribute readers *)

Lemma is_digit_not_special (c : ascii) :
  is_digit c = true →
  is_space c = false ∧ Ascii.eqb c "_" = false
  ∧ Ascii.eqb c "+" = false ∧ Ascii.eqb c "-" = false.
Proof.
  destruct c as [[] [] [] [] [] [] [] []]; vm_compute; intros H;
    first [discriminate H | done].
Qed.

Lemma lstrip_digits (s : string) : all_digits s = true → lstrip s = s.
Proof.
  destruct s as [|c s]; [done|]. simpl. intros [Hc _]%andb_true_iff.
  by destruct (is_digit_not_special c Hc) as (-> & _).
Qed.

Lemma rstrip_digits (s : string) : all_digits s = true → rstrip s = s.
Proof.
  induction s as [|c s IH]; [done|]. simpl. intros [Hc Hs]%andb_true_iff.
  rewrite IH by done.
  destruct (is_digit_not_special c Hc) as (-> & _). by destruct s.
Qed.

Lemma int_digits_all_digits (s : string) :
  all_digits s = true →
  ∀ acc after_digit, s ≠ EmptyString ∨ after_digit = true →
    ∃ n, int_digits acc after_digit s = Some n.
Proof.
  induction s as [|c s IH]; intros Hs acc after_digit Hne.
  - destruct Hne as [?| ->]; [done|]. by exists acc.
  - simpl in *. apply andb_true_iff in Hs as [Hc Hs].
    destruct (is_digit_not_special c Hc) as (_ & -> & _). rewrite Hc.
    apply IH; [done|by right].
Qed.

(** [int] accepts what [isdigit] accepts. *)
Lemma py_int_isdigit (s : string) :
  isdigit s = true → ∃ n, py_int s = Ok n.
Proof.
  destruct s as [|c s]; [done|]. cbn [isdigit]. intros Hs.
  unfold py_int, strip. rewrite lstrip_digits, rstrip_digits by done.
  destruct (int_digits_all_digits (String c s) Hs 0 false) as [n Hn];
    [by left|].
  simpl in Hs. apply andb_true_iff in Hs as [Hc _].
  destruct (is_digit_not_special c Hc) as (_ & _ & Hplus & Hminus).
  exists n.
  destruct (Ascii.eqb_spec c "+"); [done|].
  destruct (Ascii.eqb_spec c "-"); [done|].
  replace (match String c s with
           | String "+" digits => int_digits 0 false digits
           | String "-" digits => Z.opp <$> int_digits 0 false digits
           | _ => int_digits 0 false (String c s)
           end) with (int_digits 0 false (String c s)); [by rewrite Hn|].
  destruct c as [[] [] [] [] [] [] [] []]; done.
Qed.

Lemma py_int_raises (s : string) e : py_int s = Raise e → e = ValueError.
Proof.
  unfold py_int. cbv zeta.
  match goal with
  | |- match ?parsed with Some _ => _ | None => _ end = _ → _ =>
      destruct parsed
  end; by intros [=].
Qed.

Lemma rmapM_raise {A B} (f : A → result B) l e :
  rmapM f l = Raise e → ∃ x, x ∈ l ∧ f x = Raise e.
Proof.
  induction l as [|x l IH]; [done|]. simpl.
  destruct (f x) as [y|e'] eqn:Hx; simpl.
  - destruct (rmapM f l) as [ys|e'']; [done|]. intros [= ->].
    destruct IH as (z & Hz & Hfz); [done|].
    exists z. split; [by constructor|done].
  - intros [= ->]. exists x. split; [constructor|done].
Qed.

Lemma first_node_marker_ok (names : list string) :
  ∃ node, first_node_marker names = Ok node.
Proof.
  induction names as [|name names IH]; cbn [first_node_marker];
    [by eexists|].
  destruct (numbered "node" name) eqn:Hname; [|done].
  apply andb_true_iff in Hname as [_ Hdigits].
  destruct (py_int_isdigit _ Hdigits) as [n Hn].
  change (String.length "node") with 4%nat in Hn.
  rewrite Hn. by eexists.
Qed.

Lemma cache_keys_ok (names : list string) :
  ∃ keyed,
    rmapM (fun name => let? k := py_int (str_drop 5 name) in Ok (k, name))
          (List.filter (numbered "index") names) = Ok keyed
    ∧ ∀ name, name ∈ map snd keyed → name ∈ names.
Proof.
  induction names as [|name names (keyed & IH & Hsub)]; cbn [List.filter].
  - exists []. split; [done|]. by intros name ?%elem_of_nil.
  - destruct (numbered "index" name) eqn:Hname.
    + apply andb_true_iff in Hname as [_ Hdigits].
      destruct (py_int_isdigit _ Hdigits) as [n Hn].
      change (String.length "index") with 5%nat in Hn.
      cbn [rmapM]. rewrite Hn. cbn [rbind]. rewrite IH. cbn [rbind].
      eexists. split; [done|]. cbn [map snd].
      intros x [->|Hx]%elem_of_cons; [constructor|].
      constructor. by apply Hsub.
    + exists keyed. split; [done|]. intros x Hx. constructor. by apply Hsub.
Qed.

(** The reading loop of [_get_cache_info] stops on an unreadable [id]
    file or on one whose text is not an integer. *)
Lemma read_cache_ids_stops fs cache_path cache_dirs :
  ∀ acc cache_ids e,
    read_cache_ids fs cache_path cache_dirs acc = (cache_ids, Some e) →
    (∃ cache_dir, read_text fs (cache_path ++ [cache_dir; "id"]) = Raise e)
    ∨ (e = ValueError
       ∧ ∃ cache_dir text,
           read_text fs (cache_path ++ [cache_dir; "id"]) = Ok text
           ∧ py_int (strip text) = Raise ValueError).
Proof.
  induction cache_dirs as [|d ds IH]; intros acc cache_ids e; simpl;
    [done|].
  destruct (read_text fs (cache_path ++ [d; "id"])) as [text|e'] eqn:Hread;
    simpl.
  - destruct (py_int (strip text)) as [n|e'] eqn:Hint.
    + apply IH.
    + intros [= _ ->]. pose proof (py_int_raises _ _ Hint) as ->.
      right. split; [done|]. by exists d, text.
  - intros [= _ ->]. left. by exists d.
Qed.







Lemma get_node_of_cpu_ok fs (logical_id : Z) :
  raises_OSError fs → ∃ node, _get_node_of_cpu fs logical_id = Ok node.
Proof.
  intros Hfs. unfold _get_node_of_cpu.
  destruct (iterdir fs (cpu_dir logical_id)) as [names|e] eqn:Hdir; simpl.
  - destruct (first_node_marker_ok names) as [node ->]. by eexists.
  - rewrite (Hfs _ e (or_intror Hdir)). by eexists.
Qed.


Lemma get_cache_info_raises fs (logical_id : Z) e :
  raises_OSError fs →
  _get_cache_info fs logical_id = Raise e →
  e = ValueError
  ∧ ∃ cache_dir text,
      read_text fs (cpu_dir logical_id ++ ["cache"; cache_dir; "id"]) = Ok text
      ∧ py_int (strip text) = Raise ValueError.
Proof.
  intros Hfs H. unfold _get_cache_info in H.
  destruct (iterdir fs _) as [names|e'] eqn:Hdir; cbn [rbind] in H.
  - destruct (cache_keys_ok names) as (keyed & Hkeyed & _).
    rewrite Hkeyed in H.
    destruct (read_cache_ids fs _ _ _) as [ids [e'|]] eqn:Hloop; [|done].
    apply read_cache_ids_stops in Hloop
      as [[d Hread]|(-> & d & text & Hread & Hint)].
    + by rewrite (Hfs _ e' (or_introl Hread)) in H.
    + injection H as <-. split; [done|].
      exists d, text. by rewrite <- app_assoc in Hread.
  - by rewrite (Hfs _ e' (or_intror Hdir)) in H.
Qed.

Lemma rbind_raise {A B} (m : result A) (k : A → result B) e :
  rbind m k = Raise e → m = Raise e ∨ ∃ a, m = Ok a ∧ k a = Raise e.
Proof. destruct m as [a|e']; simpl; [eauto|]. intros [= ->]. by left. Qed.

(** Whatever stops the reading of one CPU is caught by [get_cpu_info]. *)
Lemma read_cpu_raises fs cpu_entry cpu_nbr e :
  raises_OSError fs →
  read_cpu fs cpu_entry cpu_nbr = Raise e →
  is_OSError e || is_ValueError e = true.
Proof.
  intros Hfs H. unfold read_cpu in H. cbv zeta in H.
  assert (∀ path, read_text fs path = Raise e →
                  is_OSError e || is_ValueError e = true) as Hread.
  { intros path Hp. by rewrite (Hfs _ e (or_introl Hp)). }
  assert (∀ text, py_int text = Raise e →
                  is_OSError e || is_ValueError e = true) as Hint.
  { by intros text ->%py_int_raises. }
  apply rbind_raise in H as [H|(? & _ & H)]; [by eapply Hread|].
  apply rbind_raise in H as [H|(? & _ & H)].
  { apply rmapM_raise in H as (? & _ & H). by eapply Hint. }
  apply rbind_raise in H as [H|(? & _ & H)]; [by eapply Hread|].
  apply rbind_raise in H as [H|(? & _ & H)]; [by eapply Hint|].
  apply rbind_raise in H as [H|(? & _ & H)]; [by eapply Hread|].
  apply rbind_raise in H as [H|(? & _ & H)]; [by eapply Hint|].
  apply rbind_raise in H as [H|(? & _ & H)].
  { by apply get_cache_info_raises in H as [-> _]. }
  apply rbind_raise in H as [H|(? & _ & H)]; [|done].
  destruct (get_node_of_cpu_ok fs cpu_nbr Hfs) as [node Hnode]. congruence.
Qed.

Lemma read_cpus_returns fs (cpu_entries : list string) :
  raises_OSError fs →
  Forall (fun name => numbered "cpu" name = true) cpu_entries →
  ∀ cpu_list log,
    ∃ cpus log', read_cpus fs cpu_entries cpu_list log = (Ok cpus, log').
Proof.
  intros Hfs. induction 1 as [|name names Hname _ IH]; intros cpu_list log;
    cbn [read_cpus]; [by eexists _, _|].
  apply andb_true_iff in Hname as [_ Hdigits].
  destruct (py_int_isdigit _ Hdigits) as [n Hn].
  change (String.length "cpu") with 3%nat in Hn. rewrite Hn.
  destruct (read_cpu fs name n) as [info|e] eqn:Hread; [apply IH|].
  rewrite (read_cpu_raises _ _ _ _ Hfs Hread). apply IH.
Qed.

(** [get_cpu_info] never raises: a CPU with an unreadable or malformed
    attribute is skipped. *)
Lemma get_cpu_info_returns fs (log : list message) :
  raises_OSError fs → ∃ cpus log', get_cpu_info fs log = (Ok cpus, log').
Proof.
  intros Hfs. unfold get_cpu_info.
  destruct (iterdir fs CPU_PATH) as [names|e] eqn:Hdir.
  - cbv zeta.
    destruct (read_cpus_returns fs (List.filter (numbered "cpu") names) Hfs)
      with (cpu_list := @nil CPUInfo) (log := log) as (cpus & log' & ->).
    + apply Forall_forall. by intros name [? _]%elem_of_list_filter.
    + by eexists _, _.
  - rewrite (Hfs _ e (or_intror Hdir)). by eexists _, _.
Qed.



(** *** The node builder *)

Lemma dedup_cores_from (cores : list (list Z)) :
  ∀ (seen : gset (list Z)) (unique : list (list Z)),
    seen = list_to_set unique → NoDup unique →
    let r := fold_left
               (fun (st : gset (list Z) * list (list Z)) core =>
                  if decide (core ∈ st.1) then st
                  else ({[core]} ∪ st.1, st.2 ++ [core]))
               cores (seen, unique) in
    NoDup r.2 ∧ ∀ core, core ∈ r.2 ↔ core ∈ unique ∨ core ∈ cores.
Proof.
  induction cores as [|c cores IH]; intros seen unique Hseen Hnd;
    cbn [fold_left fst snd].
  - split; [done|]. intros core. rewrite elem_of_nil. tauto.
  - destruct (decide (c ∈ seen)) as [Hin|Hout].
    + destruct (IH seen unique Hseen Hnd) as [Hnd' Hel]. split; [done|].
      intros core. rewrite Hel, elem_of_cons.
      subst seen. apply elem_of_list_to_set in Hin.
      split; [tauto|]. intros [?|[->|?]]; tauto.
    + destruct (IH ({[c]} ∪ seen) (unique ++ [c])) as [Hnd' Hel].
      * subst seen. rewrite list_to_set_app_L. simpl.
        by rewrite (right_id_L ∅ (∪)), (comm_L (∪)).
      * apply NoDup_app. split; [done|]. split; [|apply NoDup_singleton].
        intros x Hx ->%list_elem_of_singleton. apply Hout. subst seen.
        by apply elem_of_list_to_set.
      * split; [done|]. intros core.
        rewrite Hel, elem_of_app, list_elem_of_singleton, elem_of_cons. tauto.
Qed.

(** Deduplication keeps one copy of every tuple. *)
Lemma dedup_cores_spec (cores : list (list Z)) :
  NoDup (dedup_cores cores) ∧ ∀ core, core ∈ dedup_cores cores ↔ core ∈ cores.
Proof.
  destruct (dedup_cores_from cores ∅ []) as [Hnd Hel];
    [done|constructor|].
  split; [done|]. intros core. unfold dedup_cores. rewrite Hel, elem_of_nil.
  tauto.
Qed.

(** The loop over the CPUs of a node collects their non-empty sibling
    lists. *)
Lemma collect_cores_spec fs (cpus : list Z) :
  ∀ acc raw,
    collect_cores fs cpus acc = Ok raw →
    ∀ core,
      core ∈ raw ↔
      core ∈ acc
      ∨ (core ≠ [] ∧ ∃ cpu, cpu ∈ cpus ∧ _get_cpus_logical_ids fs cpu = Ok core).
Proof.
  induction cpus as [|cpu cpus IH]; intros acc raw; cbn [collect_cores].
  - intros [= <-] core. split; [by left|].
    intros [?|(_ & cpu & Hcpu%elem_of_nil & _)]; done.
  - destruct (_get_cpus_logical_ids fs cpu) as [siblings|e] eqn:Hs;
      cbn [rbind]; [|done].
    intros Hraw core. rewrite (IH _ _ Hraw core). split.
    + intros [Hin|(Hne & cpu' & Hcpu' & Hs')].
      * destruct siblings as [|x siblings]; [by left|].
        apply elem_of_app in Hin as [?|Heq%list_elem_of_singleton];
          [by left|subst core].
        right. split; [done|]. exists cpu. split; [constructor|done].
      * right. split; [done|]. exists cpu'. split; [by constructor|done].
    + intros [Hin|(Hne & cpu' & [->|Hcpu']%elem_of_cons & Hs')].
      * left. destruct siblings; [done|]. apply elem_of_app. by left.
      * left. rewrite Hs in Hs'. injection Hs' as ->.
        destruct core; [done|]. apply elem_of_app. right. constructor.
      * right. split; [done|]. by exists cpu'.
Qed.

(** A node record comes from the [try] body run on a node directory. *)
Lemma read_nodes_elem fs memory_nodes (node_dirs : list string) :
  ∀ acc log nodes log',
    read_nodes fs memory_nodes node_dirs acc log = (Ok nodes, log') →
    ∀ node, node ∈ nodes →
      node ∈ acc
      ∨ ∃ node_dir node_id,
          node_dir ∈ node_dirs
          ∧ py_int (str_drop 4 node_dir) = Ok node_id
          ∧ read_node fs memory_nodes node_dir node_id = Ok node.
Proof.
  induction node_dirs as [|d ds IH]; intros acc log nodes log';
    cbn [read_nodes].
  - intros [= <- _] node Hin. by left.
  - destruct (py_int (str_drop 4 d)) as [node_id|e] eqn:Hid; [|done].
    destruct (read_node fs memory_nodes d node_id) as [info|e] eqn:Hread.
    + intros Hrest node Hin.
      destruct (IH _ _ _ _ Hrest node Hin)
        as [[?|Heq%list_elem_of_singleton]%elem_of_app
           |(d' & id' & Hd' & Hi' & Hr')].
      * by left.
      * subst node. right. exists d, node_id. split; [constructor|done].
      * right. exists d', id'. split; [by constructor|done].
    + destruct (is_OSError e || is_ValueError e); [|done].
      intros Hrest node Hin.
      destruct (IH _ _ _ _ Hrest node Hin)
        as [?|(d' & id' & Hd' & Hi' & Hr')]; [by left|].
      right. exists d', id'. split; [by constructor|done].
Qed.

Lemma get_nodes_info_elem fs log nodes log' node :
  get_nodes_info fs log = (Ok nodes, log') → node ∈ nodes →
  ∃ memory_nodes node_dir node_id,
    py_int (str_drop 4 node_dir) = Ok node_id
    ∧ read_node fs memory_nodes node_dir node_id = Ok node.
Proof.
  unfold get_nodes_info. intros Hrun Hin.
  destruct (read_memory_nodes fs log) as [[memory_nodes|e] log0]; [|done].
  destruct (iterdir fs NODE_PATH) as [names|e].
  - cbv zeta in Hrun.
    destruct (read_nodes fs memory_nodes _ [] log0) as [[raw|e] log1] eqn:Hraw;
      [|done].
    injection Hrun as <- <-.
    rewrite (py_sorted_perm Z.leb id raw) in Hin.
    destruct (read_nodes_elem _ _ _ _ _ _ _ Hraw node Hin)
      as [?%elem_of_nil|(d & nid & _ & Hi & Hr)]; [done|]. eauto.
  - destruct (is_OSError e); [|done]. injection Hrun as <- _.
    by apply elem_of_nil in Hin.
Qed.

Lemma elem_of_concat {A} (ls : list (list A)) x :
  x ∈ concat ls ↔ ∃ l, l ∈ ls ∧ x ∈ l.
Proof.
  rewrite list_elem_of_In, in_concat. split.
  - intros (l & Hl & Hx). exists l. by rewrite !list_elem_of_In.
  - intros (l & Hl & Hx). exists l. by rewrite <- !list_elem_of_In.
Qed.

Lemma NoDup_concat {A} (ls : list (list A)) :
  NoDup ls →
  (∀ l, l ∈ ls → NoDup l) →
  (∀ l1 l2 x, l1 ∈ ls → l2 ∈ ls → x ∈ l1 → x ∈ l2 → l1 = l2) →
  NoDup (concat ls).
Proof.
  induction 1 as [|l ls Hl Hls IH]; intros Hnd Hdisj; simpl;
    [constructor|].
  apply NoDup_app. split; [apply Hnd; constructor|]. split.
  - intros x Hx (l2 & Hl2 & Hx2)%elem_of_concat.
    assert (l = l2) as <-; [|done].
    apply (Hdisj l l2 x); [constructor|by constructor|done|done].
  - apply IH.
    + intros l' Hl'. apply Hnd. by constructor.
    + intros l1 l2 x H1 H2. apply Hdisj; by constructor.
Qed.

(** C7, as stated, fails: CPU 1 is in the membership list of node 0, its
    sibling list cannot be read, it is in no core tuple of the node
    record, and no warning is recorded. *)
Lemma get_nodes_info_drops_cpu_silently :
  let fs := tree
      [ (NODE_PATH ++ ["has_memory"], "0");
        (NODE_PATH ++ ["node0"; "cpulist"], "0-1");
        (NODE_PATH ++ ["node0"; "distance"], "10");
        (CPU_PATH ++ ["cpu0"; "topology"; "thread_siblings_list"], "0") ]
      [ (NODE_PATH, ["node0"]) ] in
  get_nodes_info fs [] = (Ok [mkNodeInfo 0 true [[0]] [10]], [])
  ∧ parse_cpulist (strip "0-1") = Ok [0; 1]
  ∧ _get_cpus_logical_ids fs 1 = Ok [].
Proof. repeat split; vm_compute; reflexivity. Qed.

(** C7 (amended): the core tuples of a node record are the distinct
    non-empty sibling lists read for the CPUs of its [cpulist]; when
    these sibling lists agree with the membership list, the union of the
    ids of the core tuples is the membership list, without duplicates
    and without omissions. *)
Theorem get_nodes_info_core_tuples (fs : FileSystem) (log : list message)
    (nodes : list NodeInfo) (log' : list message) (node : NodeInfo) :
  get_nodes_info fs log = (Ok nodes, log') →
  node ∈ nodes →
  ∃ node_dir cpus_text cpus,
    py_int (str_drop 4 node_dir) = Ok (id node)
    ∧ read_text fs (NODE_PATH ++ [node_dir; "cpulist"]) = Ok cpus_text
    ∧ parse_cpulist (strip cpus_text) = Ok cpus
    ∧ NoDup (cores_list node)
    ∧ (∀ core,
         core ∈ cores_list node ↔
         core ≠ []
         ∧ ∃ cpu, cpu ∈ cpus ∧ _get_cpus_logical_ids fs cpu = Ok core)
    ∧ (siblings_consistent fs cpus →
       NoDup (concat (cores_list node))
       ∧ ∀ cpu, cpu ∈ concat (cores_list node) ↔ cpu ∈ cpus).
Proof.
  intros Hrun Hin.
  destruct (get_nodes_info_elem _ _ _ _ _ Hrun Hin)
    as (memory_nodes & node_dir & node_id & Hid & Hread).
  unfold read_node in Hread.
  destruct (read_text fs (NODE_PATH ++ [node_dir; "cpulist"]))
    as [cpus_text|] eqn:Htext; [|done]. cbn [rbind] in Hread.
  destruct (parse_cpulist (strip cpus_text)) as [cpus|] eqn:Hcpus; [|done].
  cbn [rbind] in Hread.
  destruct (read_text fs (NODE_PATH ++ [node_dir; "distance"])); [|done].
  cbn [rbind] in Hread. destruct (rmapM py_int _); [|done].
  cbn [rbind] in Hread.
  destruct (collect_cores fs cpus []) as [raw|] eqn:Hraw; [|done].
  cbn [rbind] in Hread. injection Hread as <-. cbn [cores_list id].
  destruct (dedup_cores_spec raw) as [Hnd Hel].
  assert (∀ core,
            core ∈ dedup_cores raw ↔
            core ≠ []
            ∧ ∃ cpu, cpu ∈ cpus ∧ _get_cpus_logical_ids fs cpu = Ok core)
    as Hcores.
  { intros core. rewrite Hel, (collect_cores_spec fs cpus [] raw Hraw core).
    rewrite elem_of_nil. tauto. }
  exists node_dir, cpus_text, cpus.
  split; [done|]. split; [done|]. split; [done|]. split; [done|].
  split; [exact Hcores|].
  intros Hcons. split.
  - apply NoDup_concat; [done|..].
    + intros core (_ & cpu & Hcpu & Hs)%Hcores.
      destruct (Hcons cpu Hcpu) as (siblings & Hs' & _ & Hnd' & _).
      congruence.
    + intros c1 c2 x (_ & cpu1 & Hcpu1 & Hs1)%Hcores
        (_ & cpu2 & Hcpu2 & Hs2)%Hcores Hx1 Hx2.
      destruct (Hcons cpu1 Hcpu1) as (s1 & Hs1' & _ & _ & Hall1).
      destruct (Hcons cpu2 Hcpu2) as (s2 & Hs2' & _ & _ & Hall2).
      assert (s1 = c1) as -> by congruence.
      assert (s2 = c2) as -> by congruence.
      destruct (Hall1 x Hx1) as [_ Hsx1]. destruct (Hall2 x Hx2) as [_ Hsx2].
      congruence.
  - intros cpu. split.
    + intros (core & (_ & cpu' & Hcpu' & Hs)%Hcores & Hx)%elem_of_concat.
      destruct (Hcons cpu' Hcpu') as (siblings & Hs' & _ & _ & Hall).
      assert (siblings = core) as -> by congruence.
      by destruct (Hall cpu Hx).
    + intros Hcpu. destruct (Hcons cpu Hcpu) as (siblings & Hs & Hself & _).
      apply elem_of_concat. exists siblings. split; [|done].
      apply Hcores. split; [|by exists cpu].
      intros ->. by apply elem_of_nil in Hself.
Qed.

Lemma example_siblings_consistent :
  siblings_consistent example_tree [0; 1; 2; 3].
Proof.
  intros cpu Hcpu.
  repeat (apply elem_of_cons in Hcpu as [->|Hcpu]);
    [..|by apply elem_of_nil in Hcpu];
    (eexists; split; [vm_compute; reflexivity|]).
  all: (split; [repeat constructor|]).
  all: split; [by apply (bool_decide_unpack _)|].
  all: intros other Hother.
  all: repeat (apply elem_of_cons in Hother as [->|Hother]).
  all: try (by apply elem_of_nil in Hother).
  all: (split; [repeat constructor|vm_compute; reflexivity]).
Qed.

Lemma get_nodes_info_core_tuples_witness :
  ∃ node_dir cpus_text cpus,
    py_int (str_drop 4 node_dir) = Ok 0
    ∧ read_text example_tree (NODE_PATH ++ [node_dir; "cpulist"]) = Ok cpus_text
    ∧ parse_cpulist (strip cpus_text) = Ok cpus
    ∧ NoDup [[0; 2]; [1; 3]]
    ∧ (∀ core,
         core ∈ [[0; 2]; [1; 3]] ↔
         core ≠ []
         ∧ ∃ cpu, cpu ∈ cpus
                  ∧ _get_cpus_logical_ids example_tree cpu = Ok core)
    ∧ (siblings_consistent example_tree cpus →
       NoDup (concat [[0; 2]; [1; 3]])
       ∧ ∀ cpu, cpu ∈ concat [[0; 2]; [1; 3]] ↔ cpu ∈ cpus).
Proof.
  apply (get_nodes_info_core_tuples example_tree []
           [mkNodeInfo 0 true [[0; 2]; [1; 3]] [10; 20; 20];
            mkNodeInfo 1 true [[4]; [5]] [20; 10; 20];
            mkNodeInfo 2 false [[6]] [20; 20; 10]]
           [] (mkNodeInfo 0 true [[0; 2]; [1; 3]] [10; 20; 20])).
  - vm_compute. reflexivity.
  - constructor.
Defined.

End TopologyFacts.

(* ===================================================================== *)
(** ** The pinning generators on any input *)
(* ===================================================================== *)

Module GeneratorFacts.
Import CPUPinningGenerator PinningFacts.

(** The rounds of a slot reach the end of every cluster. *)
Lemma rounds_cover (npr : nat) (clusters : list Cluster) (cluster : Cluster) :
  (0 < npr)%nat → cluster ∈ clusters →
  (length cluster ≤ rounds npr clusters * npr)%nat.
Proof.
  intros Hnpr Hin.
  assert (length cluster ≤ max_list (map length clusters))%nat as Hle.
  { apply max_list_elem_of_le. apply (list_elem_of_fmap length).
    by exists cluster. }
  pose proof (rounds_spec npr clusters (rounds npr clusters) Hnpr) as [_ H].
  destruct (decide (rounds npr clusters * npr
                    < max_list (map length clusters))%nat) as [Hlt|Hge];
    [apply H in Hlt|]; lia.
Qed.

(** When the node visit order of a slot is the order of the clusters,
    the ping-pong order is the cluster-first order. *)
Lemma ping_pong_spec_of_order (npr : nat) (clusters : list Cluster) :
  ping_pong_order npr clusters = concat clusters →
  ping_pong_spec npr clusters = cluster_first_spec clusters.
Proof.
  intros Horder. unfold ping_pong_spec, cluster_first_spec.
  apply flat_map_ext. intros smt_pos. rewrite Horder. unfold slot_entries.
  by rewrite concat_flat_map, flat_map_flat_map.
Qed.

Lemma ping_pong_order_single (npr : nat) (cluster : Cluster) :
  (0 < npr)%nat → ping_pong_order npr [cluster] = concat [cluster].
Proof.
  intros Hnpr. unfold ping_pong_order. cbn [concat].
  rewrite app_nil_r.
  rewrite (flat_map_ext _ (fun r => round_nodes npr r cluster)).
  - apply rounds_of_cluster. apply rounds_cover; [done|constructor].
  - intros r. cbn [flat_map]. by rewrite app_nil_r.
Qed.

Lemma flat_map_ext_elem {A B} (f g : A → list B) l :
  (∀ x, x ∈ l → f x = g x) → flat_map f l = flat_map g l.
Proof.
  induction l as [|x l IH]; intros H; [done|]. cbn [flat_map].
  rewrite (H x) by constructor. f_equal. apply IH.
  intros y Hy. apply H. by constructor.
Qed.

Lemma ping_pong_order_wide (npr : nat) (clusters : list Cluster) :
  (0 < npr)%nat →
  Exists (fun cluster : Cluster => cluster ≠ []) clusters →
  Forall (fun cluster : Cluster => (length cluster ≤ npr)%nat) clusters →
  ping_pong_order npr clusters = concat clusters.
Proof.
  intros Hnpr Hsome Hwide. unfold ping_pong_order.
  assert (rounds npr clusters = 1%nat) as ->.
  { pose proof (rounds_spec npr clusters 0 Hnpr) as [_ H0].
    pose proof (rounds_spec npr clusters 1 Hnpr) as [H1 _].
    assert (0 < max_list (map length clusters))%nat as Hpos.
    { apply Exists_exists in Hsome as (cluster & Hin & Hne).
      assert (length cluster ≤ max_list (map length clusters))%nat.
      { apply max_list_elem_of_le. apply (list_elem_of_fmap length).
        by exists cluster. }
      destruct cluster; [done|]. simpl in *. lia. }
    assert (max_list (map length clusters) ≤ npr)%nat as Hmax.
    { clear -Hwide. induction Hwide as [|c cs Hc _ IH]; simpl; lia. }
    destruct (rounds npr clusters) as [|[|r]]; lia. }
  cbn [seq flat_map]. rewrite app_nil_r, concat_flat_map.
  apply flat_map_ext_elem. intros cluster Hin.
  rewrite Forall_forall in Hwide. unfold round_nodes. cbn [Nat.mul drop].
  apply take_ge. by apply Hwide.
Qed.

(** X1: with a single cluster, or with rounds wide enough to take every
    cluster whole, the ping-pong generator returns what the cluster-first
    generator returns (the first node having a core tuple, and the round
    size being positive). *)
Theorem ping_pong_pinning_degenerates first rest others
    (nodes_per_round : Z) :
  cores_list first ≠ [] →
  0 < nodes_per_round →
  others = []
  ∨ Forall (fun cluster : Cluster =>
              Z.of_nat (length cluster) ≤ nodes_per_round)
           ((first :: rest) :: others) →
  ∃ fuel0, ∀ fuel, (fuel0 ≤ fuel)%nat →
    ping_pong_pinning fuel ((first :: rest) :: others) nodes_per_round
    = Some (cluster_first_pinning ((first :: rest) :: others)).
Proof.
  intros Hcores Hnpr Hshape.
  set (clusters := (first :: rest) :: others) in *.
  exists (Z.to_nat nodes_per_round `max`
          rounds (Z.to_nat nodes_per_round) clusters)%nat.
  intros fuel Hfuel.
  rewrite ping_pong_pinning_runs; [|done| |lia|lia].
  2:{ apply Exists_cons_hd. by apply Exists_cons_hd. }
  unfold clusters at 2. rewrite cluster_first_pinning_runs by done.
  do 2 f_equal. apply ping_pong_spec_of_order.
  destruct Hshape as [Hone|Hwide].
  - unfold clusters. rewrite Hone. apply ping_pong_order_single. lia.
  - apply ping_pong_order_wide; [lia|by apply Exists_cons_hd|].
    eapply Forall_impl; [exact Hwide|]. intros c Hc. simpl in Hc. lia.
Qed.

Lemma ping_pong_pinning_degenerates_witness :
  ∃ fuel0, ∀ fuel, (fuel0 ≤ fuel)%nat →
    ping_pong_pinning fuel
      [[mkNodeInfo 0 true [[0; 4]; [1]] [10; 20];
        mkNodeInfo 2 false [[3]] [15; 25]];
       [mkNodeInfo 1 true [[2; 5]] [20; 10]]] 2
    = Some (cluster_first_pinning
              [[mkNodeInfo 0 true [[0; 4]; [1]] [10; 20];
                mkNodeInfo 2 false [[3]] [15; 25]];
               [mkNodeInfo 1 true [[2; 5]] [20; 10]]]).
Proof.
  apply (ping_pong_pinning_degenerates
           (mkNodeInfo 0 true [[0; 4]; [1]] [10; 20])
           [mkNodeInfo 2 false [[3]] [15; 25]]
           [[mkNodeInfo 1 true [[2; 5]] [20; 10]]] 2).
  - simpl. discriminate.
  - lia.
  - right. repeat constructor; simpl; lia.
Defined.

(** X2: whenever the clusters hold a core tuple and the round size is
    positive, the ping-pong generator returns every logical id of every
    core tuple exactly as often as the clusters hold it: no id is lost,
    none is invented, and distinct ids stay distinct.  This needs no core
    tuple in the first node. *)
Theorem ping_pong_pinning_every_id (clusters : list Cluster)
    (nodes_per_round : Z) :
  has_core_tuple clusters →
  0 < nodes_per_round →
  ∃ pp,
    (∃ fuel0, ∀ fuel, (fuel0 ≤ fuel)%nat →
       ping_pong_pinning fuel clusters nodes_per_round = Some (Ok pp))
    ∧ pp ≡ₚ all_cpu_ids clusters
    ∧ length pp = length (all_cpu_ids clusters)
    ∧ (NoDup (all_cpu_ids clusters) → NoDup pp).
Proof.
  intros Hcore Hnpr.
  exists (ping_pong_spec (Z.to_nat nodes_per_round) clusters).
  assert (ping_pong_spec (Z.to_nat nodes_per_round) clusters
          ≡ₚ all_cpu_ids clusters) as Hperm.
  { rewrite ping_pong_spec_perm by lia. apply cluster_first_spec_perm. }
  split; [|split; [done|split]].
  - exists (Z.to_nat nodes_per_round `max`
            rounds (Z.to_nat nodes_per_round) clusters)%nat.
    intros fuel Hfuel. apply ping_pong_pinning_runs; [done|done|lia|lia].
  - by rewrite Hperm.
  - intros Hnd. by rewrite Hperm.
Qed.

Lemma ping_pong_pinning_every_id_witness :
  ∃ pp,
    (∃ fuel0, ∀ fuel, (fuel0 ≤ fuel)%nat →
       ping_pong_pinning fuel
         [[mkNodeInfo 0 true [] [10; 20]; mkNodeInfo 2 false [[3; 7]] [15; 25]];
          [mkNodeInfo 1 true [[2; 5]] [20; 10]]] 1 = Some (Ok pp))
    ∧ pp ≡ₚ [3; 7; 2; 5]
    ∧ length pp = 4%nat
    ∧ (NoDup [3; 7; 2; 5] → NoDup pp).
Proof.
  apply (ping_pong_pinning_every_id
           [[mkNodeInfo 0 true [] [10; 20]; mkNodeInfo 2 false [[3; 7]] [15; 25]];
            [mkNodeInfo 1 true [[2; 5]] [20; 10]]] 1).
  - apply Exists_cons_hd. apply Exists_cons_tl. apply Exists_cons_hd.
    simpl. discriminate.
  - lia.
Defined.

Lemma core_lengths_nil (clusters : list Cluster) :
  core_lengths clusters = [] → no_core_tuple clusters.
Proof.
  unfold core_lengths, no_core_tuple.
  induction clusters as [|cluster clusters IH]; intros H; [constructor|].
  cbn [flat_map] in H. apply app_eq_nil in H as [Hc Hcs].
  constructor; [|by apply IH].
  clear -Hc. induction cluster as [|node cluster IH]; [constructor|].
  cbn [flat_map] in Hc. apply app_eq_nil in Hc as [Hn Hc].
  constructor; [|by apply IH].
  by destruct (cores_list node).
Qed.

(** The cluster-first generator raises on no input. *)
Lemma cluster_first_pinning_returns (clusters : list Cluster) :
  ∃ cf, cluster_first_pinning clusters = Ok cf.
Proof.
  destruct clusters as [|[|first rest] others]; [by eexists..|].
  destruct (cores_list first) as [|core cores] eqn:Hcores.
  - exists []. unfold cluster_first_pinning. by rewrite Hcores.
  - eexists. apply cluster_first_pinning_runs. by rewrite Hcores.
Qed.

Lemma core_lengths_cons (clusters : list Cluster) :
  core_lengths clusters ≠ [] → has_core_tuple clusters.
Proof.
  unfold core_lengths, has_core_tuple.
  induction clusters as [|cluster clusters IH]; intros H; [done|].
  cbn [flat_map] in H.
  destruct (flat_map _ cluster) as [|n ns] eqn:Hcluster.
  - apply Exists_cons_tl. by apply IH.
  - apply Exists_cons_hd. clear -Hcluster.
    induction cluster as [|node cluster IH]; [done|].
    cbn [flat_map] in Hcluster.
    destruct (cores_list node) as [|core cores] eqn:Hcores.
    + apply Exists_cons_tl. by apply IH.
    + apply Exists_cons_hd. by rewrite Hcores.
Qed.

(** With enough fuel the ping-pong generator returns or raises: its
    loops end. *)
Lemma ping_pong_pinning_total (clusters : list Cluster) (nodes_per_round : Z) :
  ∃ fuel0 outcome,
    ∀ fuel, (fuel0 ≤ fuel)%nat →
      ping_pong_pinning fuel clusters nodes_per_round = Some outcome.
Proof.
  destruct clusters as [|c cs]; [by exists 0%nat, (Ok [])|].
  destruct (Z.leb_spec nodes_per_round 0) as [Hle|Hlt].
  { exists 0%nat, (Ok []). intros fuel _. unfold ping_pong_pinning.
    by replace (nodes_per_round <=? 0) with true
      by (symmetry; apply Z.leb_le; lia). }
  destruct (core_lengths (c :: cs)) as [|n ns] eqn:Hlen.
  - exists 0%nat, (Raise ValueError). intros fuel _.
    apply ping_pong_pinning_no_cores; [done|done|by apply core_lengths_nil].
  - exists (Z.to_nat nodes_per_round `max`
            rounds (Z.to_nat nodes_per_round) (c :: cs))%nat.
    eexists. intros fuel Hfuel.
    apply ping_pong_pinning_runs; [done| |lia|lia].
    apply core_lengths_cons. by rewrite Hlen.
Qed.

(** X3: the exceptions of the generators.  The cluster-first generator
    raises on no input.  The ping-pong generator raises exactly when the
    cluster list is not empty, the round size is positive and no node has
    a core tuple; the exception is the [ValueError] of [max()]. *)
Theorem pinning_exceptions (clusters : list Cluster) :
  (∃ cf, cluster_first_pinning clusters = Ok cf)
  ∧ ∀ fuel nodes_per_round e,
      ping_pong_pinning fuel clusters nodes_per_round = Some (Raise e)
      ↔ e = ValueError ∧ clusters ≠ [] ∧ 0 < nodes_per_round
        ∧ no_core_tuple clusters.
Proof.
  split; [apply cluster_first_pinning_returns|].
  intros fuel npr e. split.
  - unfold ping_pong_pinning. destruct clusters as [|c cs]; [done|].
    destruct (Z.leb_spec npr 0); [done|].
    destruct (core_lengths (c :: cs)) as [|n ns] eqn:Hlen.
    + cbn [py_max]. intros [= <-]. repeat split; [done|lia|].
      by apply core_lengths_nil.
    + rewrite py_max_cons.
      destruct (for_each _ _ _); simpl; discriminate.
  - intros (-> & Hne & Hnpr & Hnone).
    by apply ping_pong_pinning_no_cores.
Qed.

End GeneratorFacts.

(* ===================================================================== *)
(** ** The cache optimizer on any node *)
(* ===================================================================== *)

Module OptimizerFacts.
Import SystemTopology SortingFacts TopologyFacts.

Lemma filter_split_perm {A} (p : A → bool) (l : list A) :
  List.filter p l ++ List.filter (fun x => negb (p x)) l ≡ₚ l.
Proof.
  induction l as [|x l IH]; [done|]. cbn [List.filter].
  destruct (p x); cbn [negb app].
  - by constructor.
  - rewrite <- Permutation_middle. by constructor.
Qed.

(** X12: what the optimizer leaves of a node, whenever it returns: the
    id, the memory flag and the distance vector are unchanged; the core
    tuples are core tuples of the node, none of them twice as often as
    before; for a level [>= 0] none of them is empty; and optimizing the
    result again, at the same level, changes nothing. *)
Theorem optimize_cache_nodes_result fs (node node' : NodeInfo)
    (cache_level : Z) :
  optimize_cache_nodes fs node cache_level = Ok node' →
  id node' = id node
  ∧ memory node' = memory node
  ∧ distance node' = distance node
  ∧ (∃ dropped, cores_list node' ++ dropped ≡ₚ cores_list node)
  ∧ (0 ≤ cache_level → Forall (fun core => core ≠ []) (cores_list node'))
  ∧ optimize_cache_nodes fs node' cache_level = Ok node'.
Proof.
  intros H. pose proof (optimize_cache_nodes_idempotent _ _ _ _ H) as Hagain.
  destruct (decide (0 ≤ cache_level)) as [Hl|Hl].
  2:{ unfold optimize_cache_nodes in H.
      replace (cache_level <? 0) with true in H
        by (symmetry; apply Z.ltb_lt; lia).
      injection H as <-.
      split; [done|]. split; [done|]. split; [done|].
      split; [exists []; by rewrite app_nil_r|]. split; [lia|done]. }
  assert (cache_ids_readable fs (cores_list node)) as Hread.
  { unfold optimize_cache_nodes in H.
    replace (cache_level <? 0) with false in H
      by (symmetry; apply Z.ltb_ge; lia).
    destruct (collect_cache_entries fs cache_level (cores_list node) [])
      as [entries|] eqn:Hentries; [|done].
    by eapply collect_cache_entries_readable. }
  rewrite optimize_cache_nodes_sorted in H by done. injection H as <-.
  cbn [id memory distance cores_list].
  split; [done|]. split; [done|]. split; [done|]. split; [|split; [|done]].
  - exists (List.filter (fun core => negb (long_enough fs cache_level core))
                        (cores_list node)).
    rewrite (py_sorted_perm key_le). apply filter_split_perm.
  - intros _. apply Forall_forall. intros core.
    rewrite (py_sorted_perm key_le).
    intros [Hlong _]%elem_of_list_filter. by intros ->.
Qed.

Lemma optimize_cache_nodes_result_witness :
  let node := mkNodeInfo 0 true [[0; 2]; []; [4]; [1; 3]] [10; 20; 20] in
  let node' := mkNodeInfo 0 true [[1; 3]; [0; 2]] [10; 20; 20] in
  optimize_cache_nodes example_tree node 1 = Ok node'
  ∧ id node' = id node
  ∧ memory node' = memory node
  ∧ distance node' = distance node
  ∧ (∃ dropped, cores_list node' ++ dropped ≡ₚ cores_list node)
  ∧ (0 ≤ 1 → Forall (fun core => core ≠ []) (cores_list node'))
  ∧ optimize_cache_nodes example_tree node' 1 = Ok node'.
Proof.
  split; [vm_compute; reflexivity|].
  apply (optimize_cache_nodes_result example_tree).
  vm_compute. reflexivity.
Defined.

Lemma collect_cache_entries_raises fs cache_level (cores : list (list Z)) :
  0 ≤ cache_level →
  ∀ acc e,
    collect_cache_entries fs cache_level cores acc = Raise e →
    ∃ core first,
      core ∈ cores ∧ head core = Some first
      ∧ _get_cache_info fs first = Raise e.
Proof.
  intros Hl. induction cores as [|core cores IH]; intros acc e H; [done|].
  cbn [collect_cache_entries] in H.
  assert (∀ acc', collect_cache_entries fs cache_level cores acc' = Raise e →
                  ∃ core0 first,
                    core0 ∈ core :: cores ∧ head core0 = Some first
                    ∧ _get_cache_info fs first = Raise e) as Hrest.
  { intros acc' H'. destruct (IH _ _ H') as (c & f & Hc & Hf & Hr).
    exists c, f. split; [by constructor|done]. }
  destruct core as [|first rest]; [by eapply Hrest|].
  destruct (_get_cache_info fs first) as [ids|e'] eqn:Hids; cbn [rbind] in H.
  - destruct (bool_decide (ids = []) || (Z.of_nat (length ids) <=? cache_level))
      eqn:Hskip; [by eapply Hrest|].
    apply orb_false_iff in Hskip as [_ Hlen]. apply Z.leb_gt in Hlen.
    rewrite (py_index_in_range _ _ 0) in H by lia. cbn [rbind] in H.
    by eapply Hrest.
  - injection H as <-. exists (first :: rest), first.
    split; [constructor|done].
Qed.

(** What makes the optimizer raise. *)
Lemma optimize_cache_nodes_stops fs (node : NodeInfo) (cache_level : Z) e :
  optimize_cache_nodes fs node cache_level = Raise e →
  0 ≤ cache_level
  ∧ ∃ core first,
      core ∈ cores_list node ∧ head core = Some first
      ∧ _get_cache_info fs first = Raise e.
Proof.
  unfold optimize_cache_nodes.
  destruct (Z.ltb_spec cache_level 0) as [|Hl]; [done|].
  intros [H|(? & _ & H)]%rbind_raise; [|done].
  split; [done|]. by eapply collect_cache_entries_raises.
Qed.

(** X13: when reading the tree fails only with [OSError], the optimizer
    raises nothing but the [ValueError] of a malformed cache [id] file of
    the first logical id of one of the node's core tuples, and only for a
    level [>= 0]; in particular no index is out of range. *)
Theorem optimize_cache_nodes_raises fs (node : NodeInfo) (cache_level : Z) e :
  raises_OSError fs →
  optimize_cache_nodes fs node cache_level = Raise e →
  e = ValueError
  ∧ 0 ≤ cache_level
  ∧ ∃ core first cache_dir text,
      core ∈ cores_list node ∧ head core = Some first
      ∧ read_text fs (cpu_dir first ++ ["cache"; cache_dir; "id"]) = Ok text
      ∧ py_int (strip text) = Raise ValueError.
Proof.
  intros Hfs [Hl (core & first & Hcore & Hfirst & Hraise)]%optimize_cache_nodes_stops.
  apply get_cache_info_raises in Hraise as (-> & cache_dir & text & Hread & Hint);
    [|done].
  split; [done|]. split; [done|]. by exists core, first, cache_dir, text.
Qed.

Lemma optimize_cache_nodes_raises_witness :
  let fs := tree [(CPU_PATH ++ ["cpu0"; "cache"; "index0"; "id"], "L1")]
                 [(CPU_PATH ++ ["cpu0"; "cache"], ["index0"])] in
  let node := mkNodeInfo 0 true [[0; 1]] [10] in
  optimize_cache_nodes fs node 0 = Raise ValueError
  ∧ ValueError = ValueError
  ∧ 0 ≤ 0
  ∧ ∃ core first cache_dir text,
      core ∈ cores_list node ∧ head core = Some first
      ∧ read_text fs (cpu_dir first ++ ["cache"; cache_dir; "id"]) = Ok text
      ∧ py_int (strip text) = Raise ValueError.
Proof.
  split; [vm_compute; reflexivity|].
  apply (optimize_cache_nodes_raises
           (tree [(CPU_PATH ++ ["cpu0"; "cache"; "index0"; "id"], "L1")]
                 [(CPU_PATH ++ ["cpu0"; "cache"], ["index0"])])).
  - intros path e H. unfold tree in H. cbn [read_text iterdir] in H.
    destruct H as [H|H]; destruct (List.find _ _); by inversion H.
  - vm_compute. reflexivity.
Defined.

End OptimizerFacts.

(* ===================================================================== *)
(** ** The shape of the clusters *)
(* ===================================================================== *)

Module ClusterFacts.
Import SystemTopology SortingFacts TopologyFacts ClusterShape.

Lemma ext_le_total a b : ext_le a b = true ∨ ext_le b a = true.
Proof.
  unfold ext_le, ext_lt. destruct a as [x|], b as [y|]; simpl; auto.
  destruct (Z.ltb_spec y x), (Z.ltb_spec x y); simpl; auto. lia.
Qed.

Lemma ext_le_trans a b c :
  ext_le a b = true → ext_le b c = true → ext_le a c = true.
Proof.
  unfold ext_le, ext_lt. destruct a as [x|], b as [y|], c as [z|]; simpl;
    try done.
  destruct (Z.ltb_spec y x), (Z.ltb_spec z y), (Z.ltb_spec z x); simpl;
    try done. lia.
Qed.

Lemma sort_cluster_exact (cluster : Cluster) :
  (∀ anchor, head cluster = Some anchor → 0 ≤ id anchor) →
  sort_cluster cluster = Ok (by_distance cluster).
Proof.
  intros Hhead. destruct cluster as [|anchor [|x others]]; [done..|].
  unfold sort_cluster, by_distance.
  rewrite (rmapM_ok _ (fun x => (anchor_distance anchor x, x))).
  - cbn [rbind]. do 2 f_equal.
    rewrite (py_sorted_map ext_le (anchor_distance anchor) fst
               (fun x => (anchor_distance anchor x, x))) by done.
    rewrite map_map. cbn [snd]. apply map_id.
  - intros y _. by rewrite distance_key_spec by (by apply Hhead).
Qed.

Lemma dict_set_fresh {V} (k : string) (v : V) (d : dict V) :
  k ∉ map fst d → dict_set k v d = d ++ [(k, v)].
Proof.
  induction d as [|[k' v'] d IH]; intros Hk; [done|]. cbn [dict_set].
  cbn [map fst] in Hk. apply not_elem_of_cons in Hk as [Hne Hk].
  destruct (String.eqb_spec k k') as [->|_]; [done|].
  cbn [app]. f_equal. by apply IH.
Qed.

(** With distinct ids, the seed holds one entry per memory node, in the
    order of the list. *)
Lemma seed_clusters_distinct (anchors : list NodeInfo) :
  NoDup (map id anchors) →
  seed_clusters anchors = map (fun m => (pretty (id m), [m])) anchors.
Proof.
  unfold seed_clusters.
  enough (∀ d : dict Cluster,
            NoDup (map id anchors) →
            (∀ m, m ∈ anchors → pretty (id m) ∉ map fst d) →
            fold_left (fun clusters mem_node =>
                         dict_set (pretty (id mem_node)) [mem_node] clusters)
                      anchors d
            = d ++ map (fun m => (pretty (id m), [m])) anchors) as H.
  { intros Hnd. apply (H [] Hnd). intros m _. apply not_elem_of_nil. }
  induction anchors as [|a anchors IH]; intros d Hnd Hfresh.
  - cbn. by rewrite app_nil_r.
  - cbn [fold_left map]. cbn [map] in Hnd. apply NoDup_cons in Hnd as [Ha Hnd].
    rewrite dict_set_fresh by (apply Hfresh; constructor).
    rewrite IH; [by rewrite <- app_assoc|done|].
    intros m Hm. rewrite map_app. cbn [map fst].
    apply not_elem_of_app. split; [apply Hfresh; by constructor|].
    apply not_elem_of_cons. split; [|apply not_elem_of_nil].
    intros Heq%(inj pretty). apply Ha. rewrite <- Heq.
    apply (list_elem_of_fmap id). by exists m.
Qed.

Lemma StronglySorted_weaken_elem {A} (R R' : A → A → Prop) l :
  (∀ a b, a ∈ l → b ∈ l → R a b → R' a b) →
  StronglySorted R l → StronglySorted R' l.
Proof.
  intros H Hs. induction Hs as [|x l Hs IH Hx]; constructor.
  - apply IH. intros a b Ha Hb. apply H; by constructor.
  - apply Forall_forall. intros b Hb. rewrite Forall_forall in Hx.
    apply H; [constructor|by constructor|by apply Hx].
Qed.

Lemma StronglySorted_map {A B} (f : A → B) (R : B → B → Prop) l :
  StronglySorted (fun a b => R (f a) (f b)) l → StronglySorted R (map f l).
Proof.
  induction 1 as [|x l Hs IH Hx]; simpl; constructor; [done|].
  apply Forall_forall. intros y (a & -> & Ha)%elem_of_map.
  rewrite Forall_forall in Hx. by apply Hx.
Qed.

Lemma flat_map_map {A B C} (f : B → C) (g : A → list B) l :
  flat_map (fun x => map f (g x)) l = map f (flat_map g l).
Proof.
  induction l as [|x l IH]; [done|]. cbn [flat_map].
  by rewrite map_app, IH.
Qed.

(** A list splits into the elements that pass a test and the others that
    pass a second one. *)
Lemma filter_orb_perm {A} (p q : A → bool) l :
  List.filter (fun x => p x || q x) l
  ≡ₚ List.filter p l ++ List.filter (fun x => negb (p x) && q x) l.
Proof.
  induction l as [|x l IH]; [done|]. cbn [List.filter].
  destruct (p x); cbn [orb negb andb].
  - cbn [app]. by constructor.
  - destruct (q x); [|done]. rewrite IH. apply Permutation_middle.
Qed.

Lemma flat_map_nil {A B} (f : A → list B) l :
  (∀ x, x ∈ l → f x = []) → flat_map f l = [].
Proof.
  induction l as [|x l IH]; intros H; [done|]. cbn [flat_map].
  rewrite (H x) by constructor. apply IH. intros y Hy. apply H.
  by constructor.
Qed.

(** Among anchors with distinct ids, exactly one has the id of a given
    one of them. *)
Lemma one_anchor_per_id {B} (anchors : list NodeInfo) (b : NodeInfo)
    (hit : list B) :
  NoDup (map id anchors) → b ∈ anchors →
  flat_map (fun m => if bool_decide (id m = id b) then hit else []) anchors
  = hit.
Proof.
  induction anchors as [|a anchors IH]; intros Hnd Hb;
    [by apply elem_of_nil in Hb|].
  cbn [map] in Hnd. apply NoDup_cons in Hnd as [Ha Hnd]. cbn [flat_map].
  destruct (decide (id a = id b)) as [Heq|Hne].
  - rewrite bool_decide_eq_true_2 by done.
    rewrite flat_map_nil; [apply app_nil_r|].
    intros m Hm. rewrite bool_decide_eq_false_2; [done|].
    intros Hmb. apply Ha. rewrite Heq, <- Hmb.
    apply (list_elem_of_fmap id). by exists m.
  - rewrite bool_decide_eq_false_2 by done. cbn [app].
    apply IH; [done|]. apply elem_of_cons in Hb as [->|Hb]; done.
Qed.

(** The nodes filed under the keys of anchors with distinct ids are
    the non-memory nodes with a distance entry at the id of some anchor,
    each once. *)
Lemma filed_all (anchors ns : list NodeInfo) :
  NoDup (map id anchors) →
  flat_map (fun m =>
              List.filter
                (fun n => negb (memory n)
                          && bool_decide (key_of anchors n
                                          = Some (pretty (id m)))) ns)
           anchors
  ≡ₚ List.filter (fun n => negb (memory n)
                           && existsb (has_entry n) anchors) ns.
Proof.
  intros Hnd. induction ns as [|n ns IH].
  - cbn [List.filter]. by rewrite flat_map_nil.
  - cbn [List.filter].
    rewrite (flat_map_ext _
               (fun m => (if negb (memory n)
                             && bool_decide (key_of anchors n
                                             = Some (pretty (id m)))
                          then [n] else [])
                         ++ List.filter
                              (fun n => negb (memory n)
                                        && bool_decide
                                             (key_of anchors n
                                              = Some (pretty (id m)))) ns)).
    2:{ intros m. by destruct (_ && _). }
    rewrite PinningFacts.flat_map_app_perm, IH. clear IH.
    destruct (memory n); cbn [negb andb].
    { by rewrite flat_map_nil. }
    destruct (nearest n anchors) as [b|] eqn:Hnear;
      cbn [fmap option_fmap option_map].
    + destruct (nearest_Some _ _ _ Hnear) as (pre & suf & Hsplit & He & _).
      assert (b ∈ anchors) as Hb.
      { rewrite Hsplit. apply elem_of_app. right. constructor. }
      replace (existsb (has_entry n) anchors) with true.
      2:{ symmetry. apply existsb_exists. exists b.
          split; [by apply list_elem_of_In|done]. }
      rewrite (flat_map_ext _ (fun m => if bool_decide (id m = id b)
                                        then [n] else [])).
      * by rewrite one_anchor_per_id.
      * intros m. destruct (decide (id m = id b)) as [Heq|Hne].
        -- rewrite !bool_decide_eq_true_2; [done|done|by rewrite Heq].
        -- rewrite !bool_decide_eq_false_2; [done|done|].
           intros [= Heq%(inj pretty)]. by apply Hne.
    + replace (existsb (has_entry n) anchors) with false.
      2:{ symmetry. apply not_true_is_false.
          intros (a & Ha & Hea)%existsb_exists.
          apply nearest_None in Hnear. rewrite Forall_forall in Hnear.
          apply list_elem_of_In in Ha. specialize (Hnear a Ha). congruence. }
      by rewrite flat_map_nil.
Qed.

Lemma flat_map_singleton {A} (l : list A) : flat_map (fun x => [x]) l = l.
Proof. induction l as [|x l IH]; [done|]. cbn [flat_map app]. by f_equal. Qed.

Section Clusters.
Variable fs : FileSystem.
Variable nodes : list NodeInfo.
Variable cache_level : Z.
Hypothesis Hanchor : Exists (fun node => memory node = true) nodes.
Hypothesis Hids : anchor_ids_valid nodes.
(** What the optional last phase makes of a node. *)
Let post (node : NodeInfo) : NodeInfo :=
  if 0 <=? cache_level then
    mkNodeInfo (id node) (memory node)
      (py_sorted key_le (sort_key fs cache_level)
         (List.filter (long_enough fs cache_level) (cores_list node)))
      (distance node)
  else node.

(** The non-memory nodes filed under a key, in the order of the list. *)
Let filed (k : string) : list NodeInfo :=
  List.filter (fun n => negb (memory n)
                        && bool_decide (key_of (anchors_of nodes) n = Some k))
              nodes.

Lemma post_keeps node :
  id (post node) = id node ∧ memory (post node) = memory node
  ∧ distance (post node) = distance node.
Proof. unfold post. by destruct (0 <=? cache_level). Qed.

Lemma seed_entry kv :
  kv ∈ seed_clusters (anchors_of nodes) →
  ∃ m, memory m = true ∧ m ∈ nodes ∧ 0 ≤ id m
       ∧ kv = (pretty (id m), [m]).
Proof.
  destruct kv as [k c]. intros Hkv.
  destruct (seed_clusters_spec (anchors_of nodes)) as [Hseed _].
  destruct (Hseed k c Hkv) as (m & Hm & -> & ->).
  apply elem_of_list_filter in Hm as [Hmem Hin].
  exists m. repeat split; try done.
  unfold anchor_ids_valid in Hids. rewrite Forall_forall in Hids. eauto.
Qed.

(** The first two phases of [get_clusters] in closed form: one
    cluster per seeded key, the anchor first, then the nodes filed under
    the key sorted by their distance to the anchor; nothing is printed.
    The optional last phase runs on that. *)
Lemma get_clusters_sorted (log : list message) :
  get_clusters fs (Some nodes) cache_level log
  = (let sorted := map (fun kv : string * Cluster =>
                          by_distance (kv.2 ++ filed kv.1))
                       (seed_clusters (anchors_of nodes)) in
     if 0 <=? cache_level then
       rmapM (rmapM (fun node =>
                       optimize_cache_nodes fs node cache_level)) sorted
     else Ok sorted,
     log).
Proof.
  rewrite get_clusters_phases.
  2:{ apply Exists_exists in Hanchor as (a & Ha & Hm).
      assert (a ∈ anchors_of nodes) as Hin
        by (by apply elem_of_list_filter).
      intros Hnil. rewrite Hnil in Hin. by apply elem_of_nil in Hin. }
  f_equal.
  rewrite assign_nodes_spec by (by apply anchors_nonneg).
  cbn [rbind]. rewrite map_map. cbn [snd].
  rewrite (rmapM_ok _ by_distance).
  2:{ intros c (kv & -> & Hkv)%elem_of_map.
      apply seed_entry in Hkv as (m & _ & _ & Hm & ->). cbn [fst snd].
      apply sort_cluster_exact. by intros anchor [= <-]. }
  cbn [rbind]. by rewrite map_map.
Qed.

(** Every member of those clusters is a node of the list. *)
Lemma sorted_member kv x :
  kv ∈ seed_clusters (anchors_of nodes) →
  x ∈ by_distance (kv.2 ++ filed kv.1) → x ∈ nodes.
Proof.
  intros Hkv Hx.
  apply seed_entry in Hkv as (m & _ & Hm & _ & ->). cbn [fst snd] in Hx.
  cbn [app by_distance] in Hx. apply elem_of_cons in Hx as [->|Hx]; [done|].
  rewrite (py_sorted_perm ext_le) in Hx.
  by apply elem_of_list_filter in Hx as [_ ?].
Qed.

Hypothesis Hcache :
  0 ≤ cache_level →
  Forall (fun node => cache_ids_readable fs (cores_list node)) nodes.

Lemma post_optimizes node :
  node ∈ nodes → optimize_cache_nodes fs node cache_level = Ok (post node).
Proof. intros Hin. by apply (post_ok fs nodes cache_level Hcache). Qed.

(** The clusters [get_clusters] returns, in closed form: those of the
    first two phases, every node as the last phase leaves it. *)
Lemma get_clusters_exact (log : list message) :
  get_clusters fs (Some nodes) cache_level log
  = (Ok (map (fun kv : string * Cluster =>
                map post (by_distance (kv.2 ++ filed kv.1)))
             (seed_clusters (anchors_of nodes))), log).
Proof.
  rewrite get_clusters_sorted. cbv zeta. f_equal.
  destruct (decide (0 ≤ cache_level)) as [Hl|Hl].
  - replace (0 <=? cache_level) with true
      by (symmetry; apply Z.leb_le; lia).
    rewrite <- (map_map (fun kv : string * Cluster =>
                           by_distance (kv.2 ++ filed kv.1)) (map post)).
    apply rmapM_ok.
    intros c (kv & -> & Hkv)%elem_of_map. apply rmapM_ok. intros x Hx.
    apply post_optimizes. by eapply sorted_member.
  - replace (0 <=? cache_level) with false at 1
      by (symmetry; apply Z.leb_gt; lia).
    f_equal. apply map_ext. intros kv.
    rewrite <- (map_id (by_distance _)) at 1. apply map_ext.
    intros x. unfold post.
    by replace (0 <=? cache_level) with false
      by (symmetry; apply Z.leb_gt; lia).
Qed.

(** A node filed under the key of an anchor is a non-memory node of the
    list with a distance entry at the anchor's id. *)
Lemma filed_member m x :
  x ∈ filed (pretty (id m)) →
  x ∈ nodes ∧ memory x = false ∧ has_entry x m = true
  ∧ nearest x (anchors_of nodes) ≠ None.
Proof.
  unfold filed. intros [Hx Hin]%elem_of_list_filter.
  apply andb_true_iff in Hx as [Hmem Hkey].
  apply negb_true_iff in Hmem. apply bool_decide_eq_true in Hkey.
  destruct (nearest x (anchors_of nodes)) as [b|] eqn:Hnear; [|done].
  cbn in Hkey. injection Hkey as Hkey. apply (inj pretty) in Hkey.
  destruct (nearest_Some _ _ _ Hnear) as (_ & _ & _ & Hentry & _).
  repeat split; try done.
  unfold has_entry in *. by rewrite <- Hkey.
Qed.

(** X4: with a memory-capable node in the list, every cluster
    [get_clusters] returns starts with a memory-capable node, which is
    its only one; every other member has a distance entry at that
    node's id, and the other members are in ascending order of that
    entry.  At least one cluster is returned. *)
Theorem get_clusters_shape (log : list message) :
  ∃ clusters,
    get_clusters fs (Some nodes) cache_level log = (Ok clusters, log)
    ∧ clusters ≠ []
    ∧ Forall (fun cluster : Cluster =>
                ∃ anchor members,
                  cluster = anchor :: members
                  ∧ memory anchor = true
                  ∧ Forall (fun n => memory n = false
                                     ∧ has_entry n anchor = true) members
                  ∧ StronglySorted
                      (fun a b => distance_to a anchor ≤ distance_to b anchor)
                      members)
             clusters.
Proof.
  eexists. split; [apply get_clusters_exact|]. split.
  - destruct (seed_clusters (anchors_of nodes)) as [|kv d] eqn:Hseed; [|done].
    apply Exists_exists in Hanchor as (a & Ha & Hm).
    destruct (seed_clusters_spec (anchors_of nodes)) as [_ Hkeys].
    destruct (Hkeys a) as [c Hc]; [by apply elem_of_list_filter|].
    rewrite Hseed in Hc. by apply elem_of_nil in Hc.
  - apply Forall_forall. intros cluster (kv & -> & Hkv)%elem_of_map.
    apply seed_entry in Hkv as (m & Hmem & Hm & Hid & ->). cbn [fst snd].
    cbn [app by_distance map].
    set (sorted := py_sorted ext_le (anchor_distance m) (filed (pretty (id m)))).
    assert (∀ x, x ∈ sorted → memory x = false ∧ has_entry x m = true)
      as Hsorted.
    { intros x Hx. unfold sorted in Hx. rewrite (py_sorted_perm ext_le) in Hx.
      by apply filed_member in Hx as (_ & ? & ? & _). }
    exists (post m), (map post sorted). split; [done|].
    destruct (post_keeps m) as (Hpid & Hpmem & _).
    split; [by rewrite Hpmem|]. split.
    + apply Forall_forall. intros y (x & -> & Hx)%elem_of_map.
      destruct (post_keeps x) as (_ & Hxmem & Hxd).
      destruct (Hsorted x Hx) as [? Hentry]. split; [congruence|].
      unfold has_entry in *. by rewrite Hpid, Hxd.
    + apply StronglySorted_map.
      eapply StronglySorted_weaken_elem;
        [|apply (py_sorted_sorted ext_le (anchor_distance m) ext_le_total
                   ext_le_trans)].
      intros a b Ha Hb Hle. fold sorted in Ha, Hb.
      destruct (Hsorted a Ha) as [_ Hea]. destruct (Hsorted b Hb) as [_ Heb].
      unfold anchor_distance in Hle. rewrite Hea, Heb in Hle.
      unfold ext_le, ext_lt in Hle. apply negb_true_iff, Z.ltb_ge in Hle.
      destruct (post_keeps a) as (_ & _ & Had).
      destruct (post_keeps b) as (_ & _ & Hbd).
      unfold distance_to. by rewrite Hpid, Had, Hbd.
Qed.

Hypothesis Hdistinct : NoDup (map id (anchors_of nodes)).

(** With distinct anchor ids, one cluster per memory node in the order
    of the node list. *)
Lemma get_clusters_distinct (log : list message) :
  get_clusters fs (Some nodes) cache_level log
  = (Ok (map (fun m =>
                post m :: map post (py_sorted ext_le (anchor_distance m)
                                      (filed (pretty (id m)))))
             (anchors_of nodes)), log).
Proof.
  rewrite get_clusters_exact. by rewrite seed_clusters_distinct, map_map.
Qed.

(** X5: when the memory-capable nodes have distinct ids, [get_clusters]
    returns one cluster per memory-capable node, in the order these nodes
    have in the node list: the first members of the clusters are the
    memory-capable nodes, in that order, as the optional cache
    optimization leaves them. *)
Theorem get_clusters_order (log : list message) :
  ∃ clusters anchors,
    get_clusters fs (Some nodes) cache_level log = (Ok clusters, log)
    ∧ rmapM (fun node => optimize_cache_nodes fs node cache_level)
            (anchors_of nodes) = Ok anchors
    ∧ map (fun cluster : Cluster => head cluster) clusters
      = map Some anchors.
Proof.
  eexists. exists (map post (anchors_of nodes)).
  split; [apply get_clusters_distinct|]. split.
  - apply rmapM_ok. intros x [_ Hx]%elem_of_list_filter.
    by apply post_optimizes.
  - by rewrite !map_map.
Qed.

(** X6: when the memory-capable nodes have distinct ids, the clusters
    partition the nodes that are kept: the memory-capable nodes and the
    nodes with a distance entry at the id of some memory-capable node.
    Every such node is in exactly one cluster, as the optional cache
    optimization leaves it, and the clusters hold nothing else. *)
Theorem get_clusters_partition (log : list message) :
  ∃ clusters members,
    get_clusters fs (Some nodes) cache_level log = (Ok clusters, log)
    ∧ rmapM (fun node => optimize_cache_nodes fs node cache_level)
            (List.filter (kept nodes) nodes) = Ok members
    ∧ concat clusters ≡ₚ members.
Proof.
  eexists. exists (map post (List.filter (kept nodes) nodes)).
  split; [apply get_clusters_distinct|]. split.
  - apply rmapM_ok. intros x [_ Hx]%elem_of_list_filter.
    by apply post_optimizes.
  - rewrite <- flat_map_concat_map.
    rewrite (flat_map_ext _
               (fun m => map post
                           (m :: py_sorted ext_le (anchor_distance m)
                                   (filed (pretty (id m)))))) by done.
    rewrite flat_map_map. apply Permutation_map.
    unfold kept. rewrite filter_orb_perm.
    etransitivity;
      [apply (PinningFacts.flat_map_app_perm (fun m => [m])
                (fun m => py_sorted ext_le (anchor_distance m)
                            (filed (pretty (id m)))))|].
    apply Permutation_app.
    + by rewrite flat_map_singleton.
    + rewrite <- (filed_all _ _ Hdistinct).
      apply PinningFacts.flat_map_perm_ext. intros m _.
      apply (py_sorted_perm ext_le).
Qed.

End Clusters.

Lemma get_clusters_shape_witness :
  ∃ clusters,
    get_clusters example_tree (Some example_nodes) 1 [] = (Ok clusters, [])
    ∧ clusters ≠ []
    ∧ Forall (fun cluster : Cluster =>
                ∃ anchor members,
                  cluster = anchor :: members
                  ∧ memory anchor = true
                  ∧ Forall (fun n => memory n = false
                                     ∧ has_entry n anchor = true) members
                  ∧ StronglySorted
                      (fun a b => distance_to a anchor ≤ distance_to b anchor)
                      members)
             clusters.
Proof.
  apply (get_clusters_shape example_tree example_nodes 1).
  - constructor. reflexivity.
  - unfold anchor_ids_valid, example_nodes. repeat constructor; simpl; lia.
  - intros _. unfold cache_ids_readable, example_nodes. simpl.
    repeat constructor; intros first [= <-]; eexists; vm_compute; reflexivity.
Defined.

Lemma get_clusters_order_witness :
  ∃ clusters anchors,
    get_clusters example_tree (Some example_nodes) 1 [] = (Ok clusters, [])
    ∧ rmapM (fun node => optimize_cache_nodes example_tree node 1)
            (anchors_of example_nodes) = Ok anchors
    ∧ map (fun cluster : Cluster => head cluster) clusters
      = map Some anchors.
Proof.
  apply (get_clusters_order example_tree example_nodes 1).
  - constructor. reflexivity.
  - unfold anchor_ids_valid, example_nodes. repeat constructor; simpl; lia.
  - intros _. unfold cache_ids_readable, example_nodes. simpl.
    repeat constructor; intros first [= <-]; eexists; vm_compute; reflexivity.
  - vm_compute. by apply (bool_decide_unpack _).
Defined.

Lemma get_clusters_partition_witness :
  ∃ clusters members,
    get_clusters example_tree (Some example_nodes) 1 [] = (Ok clusters, [])
    ∧ rmapM (fun node => optimize_cache_nodes example_tree node 1)
            (List.filter (kept example_nodes) example_nodes) = Ok members
    ∧ concat clusters ≡ₚ members.
Proof.
  apply (get_clusters_partition example_tree example_nodes 1).
  - constructor. reflexivity.
  - unfold anchor_ids_valid, example_nodes. repeat constructor; simpl; lia.
  - intros _. unfold cache_ids_readable, example_nodes. simpl.
    repeat constructor; intros first [= <-]; eexists; vm_compute; reflexivity.
  - vm_compute. by apply (bool_decide_unpack _).
Defined.

End ClusterFacts.

(* ===================================================================== *)
(** ** The node and CPU builders on any tree *)
(* ===================================================================== *)

Module ReaderFacts.
Import SystemTopology SortingFacts TopologyFacts ClusterFacts.

Lemma rbind_ok {A B} (m : result A) (k : A → result B) b :
  rbind m k = Ok b → ∃ a, m = Ok a ∧ k a = Ok b.
Proof. destruct m as [a|e]; simpl; [eauto|done]. Qed.

(** *** A comma is no part of an integer *)

Lemma contains_lstrip (s : string) :
  contains "," s = true → contains "," (lstrip s) = true.
Proof.
  induction s as [|a s IH]; [done|]. cbn [lstrip contains].
  destruct (is_space a) eqn:Ha; [|done].
  destruct (Ascii.eqb_spec "," a) as [<-|_]; [done|]. exact IH.
Qed.

Lemma contains_rstrip (s : string) :
  contains "," s = true → contains "," (rstrip s) = true.
Proof.
  induction s as [|a s IH]; [done|]. cbn [rstrip contains].
  destruct (Ascii.eqb_spec "," a) as [<-|_]; cbn [orb].
  - intros _. by destruct (rstrip s).
  - intros Hs. specialize (IH Hs). destruct (rstrip s); [done|].
    cbn [contains] in *. rewrite IH. apply orb_true_r.
Qed.

Lemma int_digits_comma (s : string) :
  contains "," s = true → ∀ acc after_digit, int_digits acc after_digit s = None.
Proof.
  induction s as [|a s IH]; [done|]. cbn [contains int_digits].
  destruct (Ascii.eqb_spec "," a) as [<-|_]; cbn [orb].
  - intros _ acc after_digit. done.
  - intros Hs acc after_digit.
    destruct (Ascii.eqb a "_"); [destruct after_digit; [by apply IH|done]|].
    destruct (is_digit a); [by apply IH|done].
Qed.

(** [int] rejects a text with a comma. *)
Lemma py_int_comma (s : string) :
  contains "," s = true → py_int s = Raise ValueError.
Proof.
  intros Hs. apply contains_lstrip, contains_rstrip in Hs.
  unfold py_int. fold (strip s) in Hs. cbv zeta.
  destruct (strip s) as [|a digits]; [done|].
  cbn [contains] in Hs.
  destruct (Ascii.eqb_spec a "+") as [->|Hplus].
  { cbn in Hs |- *. by rewrite int_digits_comma. }
  destruct (Ascii.eqb_spec a "-") as [->|Hminus].
  { cbn in Hs |- *. by rewrite int_digits_comma. }
  replace (match String a digits with
           | String "+" digits => int_digits 0 false digits
           | String "-" digits => Z.opp <$> int_digits 0 false digits
           | _ => int_digits 0 false (String a digits)
           end) with (int_digits 0 false (String a digits)).
  - by rewrite int_digits_comma.
  - destruct a as [[] [] [] [] [] [] [] []]; done.
Qed.

(** A character that is no separator stays in one of the fields. *)
Lemma split_where_contains (sep : ascii → bool) (s : string) :
  sep ","%char = false → contains "," s = true →
  ∃ field, field ∈ split_where sep s ∧ contains "," field = true.
Proof.
  intros Hsep. induction s as [|a s IH]; [done|].
  cbn [contains split_where].
  destruct (Ascii.eqb_spec "," a) as [<-|_]; cbn [orb].
  - intros _. rewrite Hsep.
    destruct (split_where sep s) as [|field fields].
    + exists (String "," EmptyString). split; [constructor|done].
    + exists (String "," field). split; [constructor|done].
  - intros Hs. destruct (IH Hs) as (field & Hin & Hfield).
    destruct (sep a).
    + exists field. split; [by constructor|done].
    + destruct (split_where sep s) as [|f0 fields];
        [by apply elem_of_nil in Hin|].
      apply elem_of_cons in Hin as [->|Hin].
      * exists (String a f0). split; [constructor|].
        cbn [contains]. rewrite Hfield. apply orb_true_r.
      * exists field. split; [by constructor|done].
Qed.

(** *** The CPU list of a node *)


Lemma parse_cpulist_mixed (s : string) :
  contains "-" s = true → contains "," s = true →
  parse_cpulist s = Raise ValueError.
Proof.
  intros Hdash Hcomma. unfold parse_cpulist. rewrite Hdash.
  destruct (split_where_contains (Ascii.eqb "-") s eq_refl Hcomma)
    as (field & Hin & Hfield).
  apply py_int_comma in Hfield. unfold split_on.
  destruct (split_where (Ascii.eqb "-") s) as [|a [|b [|c rest]]]; try done.
  apply elem_of_cons in Hin as [->|Hin].
  - by rewrite Hfield.
  - apply elem_of_cons in Hin as [->|Hin]; [|by apply elem_of_nil in Hin].
    destruct (py_int a) as [start|e] eqn:Ha; cbn [rbind].
    + by rewrite Hfield.
    + by apply py_int_raises in Ha as ->.
Qed.

(** *** One node directory *)

Lemma read_node_id fs memory_nodes node_dir node_id node :
  read_node fs memory_nodes node_dir node_id = Ok node →
  id node = node_id
  ∧ memory node = bool_decide (node_id ∈ memory_nodes).
Proof.
  unfold read_node. intros H.
  repeat (apply rbind_ok in H as (? & _ & H)).
  by injection H as <-.
Qed.



(** The loop over the node directories: it extends the node list and
    the log, and every directory gives a node or a warning. *)
Lemma read_nodes_accounted fs memory_nodes (node_dirs : list string) :
  ∀ acc log nodes log',
    read_nodes fs memory_nodes node_dirs acc log = (Ok nodes, log') →
    (∃ new, nodes = acc ++ new)
    ∧ (∃ printed, log' = log ++ printed)
    ∧ ∀ node_dir, node_dir ∈ node_dirs →
        ∃ node_id,
          py_int (str_drop 4 node_dir) = Ok node_id
          ∧ ((∃ node, read_node fs memory_nodes node_dir node_id = Ok node
                      ∧ node ∈ nodes)
             ∨ (∃ e, read_node fs memory_nodes node_dir node_id = Raise e
                     ∧ Warning_node node_id e ∈ log')).
Proof.
  induction node_dirs as [|d ds IH]; intros acc log nodes log';
    cbn [read_nodes].
  - intros [= <- <-]. split; [exists []; by rewrite app_nil_r|].
    split; [exists []; by rewrite app_nil_r|].
    by intros ? ?%elem_of_nil.
  - destruct (py_int (str_drop 4 d)) as [node_id|e] eqn:Hid; [|done].
    destruct (read_node fs memory_nodes d node_id) as [node|e] eqn:Hnode.
    + intros H. destruct (IH _ _ _ _ H) as ([new ->] & Hlog & Hdirs).
      split; [exists (node :: new); by rewrite <- app_assoc|].
      split; [done|].
      intros dir [->|Hdir]%elem_of_cons; [|by apply Hdirs].
      exists node_id. split; [done|]. left. exists node. split; [done|].
      apply elem_of_app. left. apply elem_of_app. right. constructor.
    + destruct (is_OSError e || is_ValueError e); [|done].
      intros H. destruct (IH _ _ _ _ H) as (Hnew & [printed ->] & Hdirs).
      split; [done|].
      split; [exists (Warning_node node_id e :: printed);
              by rewrite <- app_assoc|].
      intros dir [->|Hdir]%elem_of_cons; [|by apply Hdirs].
      exists node_id. split; [done|]. right. exists e. split; [done|].
      apply elem_of_app. left. apply elem_of_app. right. constructor.
Qed.


Lemma Z_leb_total (a b : Z) : (a <=? b) = true ∨ (b <=? a) = true.
Proof. destruct (Z.leb_spec a b); [by left|right; apply Z.leb_le; lia]. Qed.

Lemma Z_leb_trans (a b c : Z) :
  (a <=? b) = true → (b <=? c) = true → (a <=? c) = true.
Proof. rewrite !Z.leb_le. lia. Qed.

Lemma py_sorted_ascending {A} (key : A → Z) (l : list A) :
  StronglySorted (fun a b => key a ≤ key b) (py_sorted Z.leb key l).
Proof.
  eapply StronglySorted_weaken;
    [|apply (py_sorted_sorted Z.leb key Z_leb_total Z_leb_trans)].
  intros a b. apply Z.leb_le.
Qed.

(** What [get_nodes_info] does after the directory listing. *)
Lemma get_nodes_info_run fs log nodes log' :
  get_nodes_info fs log = (Ok nodes, log') →
  (∃ e, iterdir fs NODE_PATH = Raise e ∧ nodes = [])
  ∨ ∃ memory_nodes log0 names read,
      read_memory_nodes fs log = (Ok memory_nodes, log0)
      ∧ iterdir fs NODE_PATH = Ok names
      ∧ read_nodes fs memory_nodes (List.filter (numbered "node") names)
                   [] log0 = (Ok read, log')
      ∧ nodes = py_sorted Z.leb id read.
Proof.
  unfold get_nodes_info.
  destruct (read_memory_nodes fs log) as [[memory_nodes|e] log0]; [|done].
  destruct (iterdir fs NODE_PATH) as [names|e] eqn:Hdir.
  - cbv zeta.
    destruct (read_nodes _ _ _ _ _) as [[read|e] log1] eqn:Hread; [|done].
    intros [= <- <-]. right. by exists memory_nodes, log0, names, read.
  - destruct (is_OSError e); [|done]. intros [= <- <-]. left. by exists e.
Qed.

Lemma read_memory_nodes_log fs log memory_nodes log0 :
  read_memory_nodes fs log = (Ok memory_nodes, log0) →
  ∃ printed, log0 = log ++ printed.
Proof.
  unfold read_memory_nodes.
  destruct (rbind _ _) as [ids|e].
  - intros [= _ <-]. exists []. by rewrite app_nil_r.
  - destruct (is_OSError e); [|done]. intros [= _ <-]. by eexists.
Qed.

(** X7: the list [get_nodes_info] returns is in ascending order of node
    id; what it prints is added after what was printed before; and every
    directory [nodeN] of the node tree is accounted for: the list holds a
    node with id [N], or a warning about node [N] was printed. *)
Theorem get_nodes_info_accounts fs log nodes log' :
  get_nodes_info fs log = (Ok nodes, log') →
  StronglySorted (fun a b => id a ≤ id b) nodes
  ∧ (∃ printed, log' = log ++ printed)
  ∧ ∀ names name,
      iterdir fs NODE_PATH = Ok names →
      name ∈ names → numbered "node" name = true →
      ∃ node_id,
        py_int (str_drop 4 name) = Ok node_id
        ∧ ((∃ node, node ∈ nodes ∧ id node = node_id)
           ∨ ∃ e, Warning_node node_id e ∈ log').
Proof.
  intros Hrun. pose proof Hrun as Hget.
  apply get_nodes_info_run in Hrun
    as [(e & Hdir & ->)|(mem & log0 & names & read & Hmem & Hdir & Hread & ->)].
  - split; [constructor|]. split.
    + unfold get_nodes_info in Hget.
      destruct (read_memory_nodes fs log) as [[m|e'] log0] eqn:Hmem; [|done].
      apply read_memory_nodes_log in Hmem as [printed ->].
      rewrite Hdir in Hget. destruct (is_OSError e); [|done].
      injection Hget as <-. rewrite <- app_assoc. by eexists.
    + intros names name Hnames. congruence.
  - split; [apply py_sorted_ascending|].
    apply read_nodes_accounted in Hread as (_ & [printed ->] & Hdirs).
    apply read_memory_nodes_log in Hmem as [printed0 ->].
    split; [rewrite <- app_assoc; by eexists|].
    intros names' name Hnames' Hname Hnumbered.
    assert (names' = names) as -> by congruence.
    destruct (Hdirs name) as (node_id & Hid & Hcase).
    { by apply elem_of_list_filter. }
    exists node_id. split; [done|].
    destruct Hcase as [(node & Hnode & Hin)|(e & _ & Hwarn)].
    + left. exists node. split.
      * by rewrite (py_sorted_perm Z.leb).
      * by apply read_node_id in Hnode as [? _].
    + right. by exists e.
Qed.

Lemma get_nodes_info_accounts_witness :
  let nodes := [mkNodeInfo 0 true [[0; 2]; [1; 3]] [10; 20; 20];
                mkNodeInfo 1 true [[4]; [5]] [20; 10; 20];
                mkNodeInfo 2 false [[6]] [20; 20; 10]] in
  get_nodes_info example_tree [] = (Ok nodes, [])
  ∧ StronglySorted (fun a b => id a ≤ id b) nodes
  ∧ (∃ printed, @nil message = [] ++ printed)
  ∧ ∀ names name,
      iterdir example_tree NODE_PATH = Ok names →
      name ∈ names → numbered "node" name = true →
      ∃ node_id,
        py_int (str_drop 4 name) = Ok node_id
        ∧ ((∃ node, node ∈ nodes ∧ id node = node_id)
           ∨ ∃ e, Warning_node node_id e ∈ @nil message).
Proof.
  split; [vm_compute; reflexivity|].
  apply (get_nodes_info_accounts example_tree [] _ []).
  vm_compute. reflexivity.
Defined.

(** X8: a node whose [cpulist] mixes ranges and commas (as in
    [0-3,8-11]) is not in the list [get_nodes_info] returns for its
    directory: the parse of the list raises [ValueError] and the warning
    for the node is printed. *)
Theorem get_nodes_info_mixed_cpulist fs log nodes log' names name node_id
    text :
  get_nodes_info fs log = (Ok nodes, log') →
  iterdir fs NODE_PATH = Ok names →
  name ∈ names → numbered "node" name = true →
  py_int (str_drop 4 name) = Ok node_id →
  read_text fs (NODE_PATH ++ [name; "cpulist"]) = Ok text →
  contains "-" (strip text) = true → contains "," (strip text) = true →
  parse_cpulist (strip text) = Raise ValueError
  ∧ Warning_node node_id ValueError ∈ log'.
Proof.
  intros Hrun Hnames Hname Hnumbered Hid Htext Hdash Hcomma.
  split; [by apply parse_cpulist_mixed|].
  apply get_nodes_info_run in Hrun
    as [(e & Hdir & _)|(mem & log0 & names' & read & _ & Hdir & Hread & _)];
    [congruence|].
  assert (names' = names) as -> by congruence.
  apply read_nodes_accounted in Hread as (_ & _ & Hdirs).
  destruct (Hdirs name) as (node_id' & Hid' & Hcase).
  { by apply elem_of_list_filter. }
  assert (node_id' = node_id) as -> by congruence.
  assert (read_node fs mem name node_id = Raise ValueError) as Hraise.
  { unfold read_node. rewrite Htext. cbn [rbind].
    by rewrite parse_cpulist_mixed. }
  destruct Hcase as [(node & Hnode & _)|(e & He & Hwarn)]; congruence.
Qed.

Lemma get_nodes_info_mixed_cpulist_witness :
  let fs := tree [ (NODE_PATH ++ ["has_memory"], "0");
                   (NODE_PATH ++ ["node0"; "cpulist"], "0-3,8-11");
                   (NODE_PATH ++ ["node0"; "distance"], "10") ]
                 [ (NODE_PATH, ["node0"]) ] in
  get_nodes_info fs [] = (Ok [], [Warning_node 0 ValueError])
  ∧ parse_cpulist (strip "0-3,8-11") = Raise ValueError
  ∧ Warning_node 0 ValueError ∈ [Warning_node 0 ValueError].
Proof.
  split; [vm_compute; reflexivity|].
  apply (get_nodes_info_mixed_cpulist
           (tree [ (NODE_PATH ++ ["has_memory"], "0");
                   (NODE_PATH ++ ["node0"; "cpulist"], "0-3,8-11");
                   (NODE_PATH ++ ["node0"; "distance"], "10") ]
                 [ (NODE_PATH, ["node0"]) ])
           [] [] [Warning_node 0 ValueError] ["node0"] "node0" 0 "0-3,8-11").
  - vm_compute. reflexivity.
  - vm_compute. reflexivity.
  - constructor.
  - vm_compute. reflexivity.
  - vm_compute. reflexivity.
  - vm_compute. reflexivity.
  - vm_compute. reflexivity.
  - vm_compute. reflexivity.
Defined.





(** X10: when [has_memory] cannot be read, no node is classified as
    memory-capable, the warning is printed, and [get_clusters], reading
    the tree itself, returns all the nodes as one cluster, unsorted and
    without cache optimization, whatever the level asked for. *)
Theorem get_clusters_without_has_memory fs cache_level log e nodes log' :
  read_text fs (NODE_PATH ++ ["has_memory"]) = Raise e →
  is_OSError e = true →
  get_nodes_info fs log = (Ok nodes, log') →
  nodes ≠ [] →
  Forall (fun node => memory node = false) nodes
  ∧ Warning_memory_nodes_unreadable ∈ log'
  ∧ get_clusters fs None cache_level log
    = (Ok [nodes], log' ++ [Warning_no_memory_nodes]).
Proof.
  intros Hread He Hrun Hne.
  assert (Forall (fun node => memory node = false) nodes
          ∧ Warning_memory_nodes_unreadable ∈ log') as [Hall Hwarn].
  { apply get_nodes_info_run in Hrun
      as [(e' & Hdir & ->)|(mem & log0 & names & read & Hmem & _ & Hnodes & ->)];
      [done|].
    unfold read_memory_nodes in Hmem. rewrite Hread in Hmem.
    cbn [rbind] in Hmem. rewrite He in Hmem. injection Hmem as <- <-.
    pose proof (read_nodes_accounted _ _ _ _ _ _ _ Hnodes)
      as (_ & [printed ->] & _).
    split.
    - apply Forall_forall. intros node Hnode.
      rewrite (py_sorted_perm Z.leb) in Hnode.
      destruct (read_nodes_elem _ _ _ _ _ _ _ Hnodes node Hnode)
        as [Hnil|(d & n & _ & _ & Hnode')]; [by apply elem_of_nil in Hnil|].
      apply read_node_id in Hnode' as [_ ->].
      by apply bool_decide_eq_false_2, not_elem_of_empty.
    - apply elem_of_app. left. apply elem_of_app. right. constructor. }
  split; [done|]. split; [done|].
  unfold get_clusters. rewrite Hrun.
  destruct nodes as [|n ns]; [done|].
  replace (List.filter memory (n :: ns)) with (@nil NodeInfo); [done|].
  symmetry. clear -Hall. induction Hall as [|x l Hx _ IH]; [done|].
  cbn [List.filter]. by rewrite Hx.
Qed.

Lemma get_clusters_without_has_memory_witness :
  let fs := tree [ (NODE_PATH ++ ["node0"; "cpulist"], "0");
                   (NODE_PATH ++ ["node0"; "distance"], "10");
                   (CPU_PATH ++ ["cpu0"; "topology"; "thread_siblings_list"],
                    "0") ]
                 [ (NODE_PATH, ["node0"]) ] in
  let nodes := [mkNodeInfo 0 false [[0]] [10]] in
  Forall (fun node => memory node = false) nodes
  ∧ Warning_memory_nodes_unreadable ∈ [Warning_memory_nodes_unreadable]
  ∧ get_clusters fs None 3 []
    = (Ok [nodes], [Warning_memory_nodes_unreadable] ++ [Warning_no_memory_nodes]).
Proof.
  apply (get_clusters_without_has_memory
           (tree [ (NODE_PATH ++ ["node0"; "cpulist"], "0");
                   (NODE_PATH ++ ["node0"; "distance"], "10");
                   (CPU_PATH ++ ["cpu0"; "topology"; "thread_siblings_list"],
                    "0") ]
                 [ (NODE_PATH, ["node0"]) ])
           3 [] FileNotFoundError).
  - vm_compute. reflexivity.
  - reflexivity.
  - vm_compute. reflexivity.
  - discriminate.
Defined.

(** *** The CPU builder *)

Lemma read_cpu_id fs cpu_entry cpu_nbr cpu :
  read_cpu fs cpu_entry cpu_nbr = Ok cpu → logical_id cpu = cpu_nbr.
Proof.
  unfold read_cpu. cbv zeta. intros H.
  repeat (apply rbind_ok in H as (? & _ & H)).
  by injection H as <-.
Qed.

(** The loop over the CPU directories: it extends the list and the log,
    and every directory gives a record or a warning. *)
Lemma read_cpus_accounted fs (cpu_entries : list string) :
  ∀ acc log cpus log',
    read_cpus fs cpu_entries acc log = (Ok cpus, log') →
    (∃ new, cpus = acc ++ new)
    ∧ (∃ printed, log' = log ++ printed)
    ∧ ∀ cpu_entry, cpu_entry ∈ cpu_entries →
        ∃ cpu_nbr,
          py_int (str_drop 3 cpu_entry) = Ok cpu_nbr
          ∧ ((∃ cpu, read_cpu fs cpu_entry cpu_nbr = Ok cpu ∧ cpu ∈ cpus)
             ∨ (∃ e, read_cpu fs cpu_entry cpu_nbr = Raise e
                     ∧ Warning_cpu cpu_entry e ∈ log')).
Proof.
  induction cpu_entries as [|d ds IH]; intros acc log cpus log';
    cbn [read_cpus].
  - intros [= <- <-]. split; [exists []; by rewrite app_nil_r|].
    split; [exists []; by rewrite app_nil_r|].
    by intros ? ?%elem_of_nil.
  - destruct (py_int (str_drop 3 d)) as [cpu_nbr|e] eqn:Hid; [|done].
    destruct (read_cpu fs d cpu_nbr) as [cpu|e] eqn:Hcpu.
    + intros H. destruct (IH _ _ _ _ H) as ([new ->] & Hlog & Hdirs).
      split; [exists (cpu :: new); by rewrite <- app_assoc|].
      split; [done|].
      intros dir [->|Hdir]%elem_of_cons; [|by apply Hdirs].
      exists cpu_nbr. split; [done|]. left. exists cpu. split; [done|].
      apply elem_of_app. left. apply elem_of_app. right. constructor.
    + destruct (is_OSError e || is_ValueError e); [|done].
      intros H. destruct (IH _ _ _ _ H) as (Hnew & [printed ->] & Hdirs).
      split; [done|].
      split; [exists (Warning_cpu d e :: printed); by rewrite <- app_assoc|].
      intros dir [->|Hdir]%elem_of_cons; [|by apply Hdirs].
      exists cpu_nbr. split; [done|]. right. exists e. split; [done|].
      apply elem_of_app. left. apply elem_of_app. right. constructor.
Qed.

(** X11: the list [get_cpu_info] returns is in ascending order of
    logical id; what it prints is added after what was printed before;
    and every directory [cpuN] of the CPU tree is accounted for: the list
    holds a record with logical id [N], or the warning naming the
    directory was printed. *)
Theorem get_cpu_info_accounts fs log cpus log' :
  get_cpu_info fs log = (Ok cpus, log') →
  StronglySorted (fun a b => logical_id a ≤ logical_id b) cpus
  ∧ (∃ printed, log' = log ++ printed)
  ∧ ∀ names name,
      iterdir fs CPU_PATH = Ok names →
      name ∈ names → numbered "cpu" name = true →
      ∃ cpu_nbr,
        py_int (str_drop 3 name) = Ok cpu_nbr
        ∧ ((∃ cpu, cpu ∈ cpus ∧ logical_id cpu = cpu_nbr)
           ∨ ∃ e, Warning_cpu name e ∈ log').
Proof.
  unfold get_cpu_info.
  destruct (iterdir fs CPU_PATH) as [names|e] eqn:Hdir.
  - cbv zeta.
    destruct (read_cpus _ _ _ _) as [[read|e] log1] eqn:Hread; [|done].
    intros [= <- <-]. split; [apply py_sorted_ascending|].
    apply read_cpus_accounted in Hread as (_ & Hlog & Hdirs).
    split; [done|].
    intros names' name [= <-] Hname Hnumbered.
    destruct (Hdirs name) as (cpu_nbr & Hid & Hcase).
    { by apply elem_of_list_filter. }
    exists cpu_nbr. split; [done|].
    destruct Hcase as [(cpu & Hcpu & Hin)|(e & _ & Hwarn)].
    + left. exists cpu. split.
      * by rewrite (py_sorted_perm Z.leb).
      * by apply read_cpu_id in Hcpu.
    + right. by exists e.
  - destruct (is_OSError e); [|done]. intros [= <- <-].
    split; [constructor|]. split; [by eexists|]. by intros names name [=].
Qed.

Lemma get_cpu_info_accounts_witness :
  let fs := tree
      [ (CPU_PATH ++ ["cpu1"; "topology"; "thread_siblings_list"], "1");
        (CPU_PATH ++ ["cpu1"; "topology"; "core_id"], "0");
        (CPU_PATH ++ ["cpu1"; "topology"; "physical_package_id"], "0");
        (CPU_PATH ++ ["cpu0"; "topology"; "thread_siblings_list"], "0");
        (CPU_PATH ++ ["cpu0"; "topology"; "core_id"], "x");
        (CPU_PATH ++ ["cpu0"; "topology"; "physical_package_id"], "0") ]
      [ (CPU_PATH, ["cpu1"; "cpufreq"; "cpu0"]) ] in
  let cpus := [mkCPUInfo 1 0 [1] None [] 0] in
  let log' := [Warning_cpu "cpu0" ValueError] in
  get_cpu_info fs [] = (Ok cpus, log')
  ∧ StronglySorted (fun a b => logical_id a ≤ logical_id b) cpus
  ∧ (∃ printed, log' = [] ++ printed)
  ∧ ∀ names name,
      iterdir fs CPU_PATH = Ok names →
      name ∈ names → numbered "cpu" name = true →
      ∃ cpu_nbr,
        py_int (str_drop 3 name) = Ok cpu_nbr
        ∧ ((∃ cpu, cpu ∈ cpus ∧ logical_id cpu = cpu_nbr)
           ∨ ∃ e, Warning_cpu name e ∈ log').
Proof.
  split; [vm_compute; reflexivity|].
  apply (get_cpu_info_accounts
           (tree
              [ (CPU_PATH ++ ["cpu1"; "topology"; "thread_siblings_list"], "1");
                (CPU_PATH ++ ["cpu1"; "topology"; "core_id"], "0");
                (CPU_PATH ++ ["cpu1"; "topology"; "physical_package_id"], "0");
                (CPU_PATH ++ ["cpu0"; "topology"; "thread_siblings_list"], "0");
                (CPU_PATH ++ ["cpu0"; "topology"; "core_id"], "x");
                (CPU_PATH ++ ["cpu0"; "topology"; "physical_package_id"], "0") ]
              [ (CPU_PATH, ["cpu1"; "cpufreq"; "cpu0"]) ]) []).
  vm_compute. reflexivity.
Defined.

(** *** Removing duplicate core tuples *)

(** The step of the loop "Remove duplicates while preserving order". *)
Local Abbreviation dedup_step :=
  (fun (st : gset (list Z) * list (list Z)) core =>
     if decide (core ∈ st.1) then st
     else ({[core]} ∪ st.1, st.2 ++ [core])).

Lemma dedup_unique_prefix (cores : list (list Z)) :
  ∀ seen unique,
    (fold_left dedup_step cores (seen, unique)).2
    = unique ++ (fold_left dedup_step cores (seen, [])).2.
Proof.
  induction cores as [|core cores IH]; intros seen unique; cbn [fold_left].
  - cbn. by rewrite app_nil_r.
  - cbn [fst snd]. destruct (decide (core ∈ seen)); [apply IH|].
    rewrite IH, (IH _ ([] ++ [core])). by rewrite <- app_assoc.
Qed.

Lemma dedup_seen (x : list Z) (cores : list (list Z)) :
  ∀ seen,
    (fold_left dedup_step cores ({[x]} ∪ seen, [])).2
    = (fold_left dedup_step
         (List.filter (fun core => negb (bool_decide (core = x))) cores)
         (seen, [])).2.
Proof.
  induction cores as [|core cores IH]; intros seen; [done|].
  cbn [fold_left List.filter fst snd].
  destruct (decide (core = x)) as [->|Hne].
  - rewrite bool_decide_eq_true_2 by done. cbn [negb].
    rewrite decide_True by (apply elem_of_union_l, elem_of_singleton_2; done).
    apply IH.
  - rewrite bool_decide_eq_false_2 by done. cbn [negb fold_left fst snd].
    destruct (decide (core ∈ seen)) as [Hin|Hout].
    + rewrite decide_True by (by apply elem_of_union_r). apply IH.
    + rewrite decide_False.
      2:{ intros [Hx%elem_of_singleton_1|Hs]%elem_of_union; done. }
      rewrite dedup_unique_prefix, (dedup_unique_prefix _ _ ([] ++ [core])).
      f_equal.
      replace ({[core]} ∪ ({[x]} ∪ seen)) with ({[x]} ∪ ({[core]} ∪ seen)).
      * apply IH.
      * by rewrite !(assoc_L (∪)), (comm_L (∪) {[x]}).
Qed.

(** X18: the duplicate removal of [get_nodes_info] keeps the first
    occurrence of every core tuple, in the order of the first
    occurrences: the first tuple stays first, and what follows is the
    rest without that tuple, with its duplicates removed in the same
    way. *)
Theorem dedup_cores_first_occurrences :
  dedup_cores [] = []
  ∧ ∀ core cores,
      dedup_cores (core :: cores)
      = core :: dedup_cores
                  (List.filter (fun other => negb (bool_decide (other = core)))
                               cores).
Proof.
  split; [done|]. intros core cores. unfold dedup_cores.
  cbn [fold_left fst snd].
  rewrite decide_False by apply not_elem_of_empty.
  rewrite dedup_unique_prefix. cbn [app]. f_equal. apply dedup_seen.
Qed.

(** *** The two readers of a sibling list *)

Lemma py_int_blank (token : string) :
  String.eqb (strip token) EmptyString = true →
  py_int token = Raise ValueError.
Proof.
  intros Hblank%String.eqb_eq. unfold py_int. by rewrite Hblank.
Qed.

(** A list of tokens that [int] accepts has no blank token. *)
Lemma rmapM_py_int_no_blank (tokens : list string) ids :
  rmapM py_int tokens = Ok ids →
  List.filter (fun x => negb (String.eqb (strip x) EmptyString)) tokens
  = tokens.
Proof.
  revert ids. induction tokens as [|token tokens IH]; intros ids H; [done|].
  cbn [rmapM] in H. apply rbind_ok in H as (n & Hn & H).
  apply rbind_ok in H as (ns & Hns & _). cbn [List.filter].
  destruct (String.eqb (strip token) EmptyString) eqn:Hblank.
  - apply py_int_blank in Hblank. congruence.
  - cbn [negb]. f_equal. by eapply IH.
Qed.

Lemma read_cpus_elem fs (cpu_entries : list string) :
  ∀ acc log cpus log',
    read_cpus fs cpu_entries acc log = (Ok cpus, log') →
    ∀ cpu, cpu ∈ cpus →
      cpu ∈ acc
      ∨ ∃ cpu_entry,
          cpu_entry ∈ cpu_entries
          ∧ py_int (str_drop 3 cpu_entry) = Ok (logical_id cpu)
          ∧ read_cpu fs cpu_entry (logical_id cpu) = Ok cpu.
Proof.
  induction cpu_entries as [|d ds IH]; intros acc log cpus log';
    cbn [read_cpus].
  - intros [= <- <-] cpu Hcpu. by left.
  - destruct (py_int (str_drop 3 d)) as [cpu_nbr|e] eqn:Hid; [|done].
    destruct (read_cpu fs d cpu_nbr) as [info|e] eqn:Hinfo.
    + intros H cpu Hcpu.
      destruct (IH _ _ _ _ H cpu Hcpu) as [Hacc|(d' & Hd' & Hrest)].
      * apply elem_of_app in Hacc as [Hacc|Hlast]; [by left|].
        apply list_elem_of_singleton in Hlast as ->.
        right. exists d. pose proof (read_cpu_id _ _ _ _ Hinfo) as ->.
        split; [constructor|done].
      * right. exists d'. split; [by constructor|done].
    + destruct (is_OSError e || is_ValueError e); [|done].
      intros H cpu Hcpu.
      destruct (IH _ _ _ _ H cpu Hcpu) as [Hacc|(d' & Hd' & Hrest)];
        [by left|].
      right. exists d'. split; [by constructor|done].
Qed.

(** X19: the CPU builder and the node builder read the same sibling
    list.  When the CPU directories are named by their numbers without
    leading zeros, the [siblings] of a record of [get_cpu_info] are the
    ids [_get_cpus_logical_ids] returns for its logical id, whenever that
    helper returns for it. *)
Theorem siblings_agree fs log cpus log' names cpu ids :
  get_cpu_info fs log = (Ok cpus, log') →
  iterdir fs CPU_PATH = Ok names →
  (∀ name n, name ∈ names → numbered "cpu" name = true →
             py_int (str_drop 3 name) = Ok n → name = "cpu" +:+ pretty n) →
  cpu ∈ cpus →
  _get_cpus_logical_ids fs (logical_id cpu) = Ok ids →
  siblings cpu = ids.
Proof.
  intros Hrun Hnames Hcanonical Hcpu Hids.
  unfold get_cpu_info in Hrun. rewrite Hnames in Hrun. cbv zeta in Hrun.
  destruct (read_cpus _ _ _ _) as [[read|e] log1] eqn:Hread; [|done].
  injection Hrun as <- <-. rewrite (py_sorted_perm Z.leb) in Hcpu.
  destruct (read_cpus_elem _ _ _ _ _ _ Hread cpu Hcpu)
    as [Hnil|(name & [Hnumbered Hname]%elem_of_list_filter & Hn & Hinfo)];
    [by apply elem_of_nil in Hnil|].
  rewrite (Hcanonical name (logical_id cpu) Hname Hnumbered Hn) in Hinfo.
  unfold read_cpu in Hinfo. cbv zeta in Hinfo.
  apply rbind_ok in Hinfo as (text & Htext & Hinfo).
  apply rbind_ok in Hinfo as (sib & Hsib & Hinfo).
  assert (siblings cpu = sib) as ->.
  { repeat (apply rbind_ok in Hinfo as (? & _ & Hinfo)).
    by injection Hinfo as <-. }
  unfold _get_cpus_logical_ids, cpu_dir in Hids.
  rewrite <- app_assoc in Hids. cbn [app] in Hids, Htext.
  rewrite <- app_assoc in Htext. cbn [app] in Htext.
  rewrite Htext in Hids. cbn [rbind except_OSError] in Hids.
  destruct (rmapM py_int (split_on "," (strip text))) as [ids'|e] eqn:Hparse.
  - injection Hids as <-.
    rewrite (rmapM_py_int_no_blank _ _ Hparse) in Hsib. congruence.
  - cbn [except_OSError] in Hids.
    apply rmapM_raise in Hparse as (? & _ & Hint).
    apply py_int_raises in Hint as ->. done.
Qed.

Lemma siblings_agree_witness :
  let fs := tree
      [ (CPU_PATH ++ ["cpu0"; "topology"; "thread_siblings_list"], "0,2");
        (CPU_PATH ++ ["cpu0"; "topology"; "core_id"], "0");
        (CPU_PATH ++ ["cpu0"; "topology"; "physical_package_id"], "0") ]
      [ (CPU_PATH, ["cpu0"]) ] in
  get_cpu_info fs [] = (Ok [mkCPUInfo 0 0 [0; 2] None [] 0], [])
  ∧ _get_cpus_logical_ids fs 0 = Ok [0; 2]
  ∧ siblings (mkCPUInfo 0 0 [0; 2] None [] 0) = [0; 2].
Proof.
  split; [vm_compute; reflexivity|]. split; [vm_compute; reflexivity|].
  apply (siblings_agree
           (tree
              [ (CPU_PATH ++ ["cpu0"; "topology"; "thread_siblings_list"],
                 "0,2");
                (CPU_PATH ++ ["cpu0"; "topology"; "core_id"], "0");
                (CPU_PATH ++ ["cpu0"; "topology"; "physical_package_id"],
                 "0") ]
              [ (CPU_PATH, ["cpu0"]) ])
           [] [mkCPUInfo 0 0 [0; 2] None [] 0] [] ["cpu0"]).
  - vm_compute. reflexivity.
  - vm_compute. reflexivity.
  - intros name n Hname%list_elem_of_singleton _. subst name.
    vm_compute. by intros [= <-].
  - constructor.
  - vm_compute. reflexivity.
Defined.

(** *** The memory flag *)

(** X20: when [has_memory] is read and parsed, a node of
    [get_nodes_info] is memory-capable exactly when its id is one of the
    ids listed there. *)
Theorem get_nodes_info_memory fs log nodes log' text ids node :
  read_text fs (NODE_PATH ++ ["has_memory"]) = Ok text →
  rmapM py_int (split_on "," (strip text)) = Ok ids →
  get_nodes_info fs log = (Ok nodes, log') →
  node ∈ nodes →
  memory node = true ↔ id node ∈ ids.
Proof.
  intros Htext Hids Hrun Hnode.
  apply get_nodes_info_run in Hrun
    as [(e & _ & ->)|(mem & log0 & names & read & Hmem & _ & Hread & ->)];
    [by apply elem_of_nil in Hnode|].
  unfold read_memory_nodes in Hmem. rewrite Htext in Hmem.
  cbn [rbind] in Hmem. rewrite Hids in Hmem. injection Hmem as <- <-.
  rewrite (py_sorted_perm Z.leb) in Hnode.
  destruct (read_nodes_elem _ _ _ _ _ _ _ Hread node Hnode)
    as [Hnil|(d & n & _ & _ & Hnode')]; [by apply elem_of_nil in Hnil|].
  apply read_node_id in Hnode' as [-> ->].
  rewrite bool_decide_eq_true. apply elem_of_list_to_set.
Qed.

Lemma get_nodes_info_memory_witness :
  get_nodes_info example_tree []
  = (Ok [mkNodeInfo 0 true [[0; 2]; [1; 3]] [10; 20; 20];
         mkNodeInfo 1 true [[4]; [5]] [20; 10; 20];
         mkNodeInfo 2 false [[6]] [20; 20; 10]], [])
  ∧ (memory (mkNodeInfo 2 false [[6]] [20; 20; 10]) = true
     ↔ id (mkNodeInfo 2 false [[6]] [20; 20; 10]) ∈ [0; 1]).
Proof.
  split; [vm_compute; reflexivity|].
  apply (get_nodes_info_memory example_tree []
           [mkNodeInfo 0 true [[0; 2]; [1; 3]] [10; 20; 20];
            mkNodeInfo 1 true [[4]; [5]] [20; 10; 20];
            mkNodeInfo 2 false [[6]] [20; 20; 10]] [] "0,1").
  - vm_compute. reflexivity.
  - vm_compute. reflexivity.
  - vm_compute. reflexivity.
  - do 2 constructor. constructor.
Defined.

(** *** The cache levels *)

Lemma index_keys (names : list string) keyed :
  rmapM (fun name => let? k := py_int (str_drop 5 name) in Ok (k, name))
        names = Ok keyed →
  map snd keyed = names
  ∧ Forall (fun kn : Z * string => py_int (str_drop 5 kn.2) = Ok kn.1) keyed.
Proof.
  revert keyed. induction names as [|name names IH]; intros keyed H;
    cbn [rmapM] in H.
  - by injection H as <-.
  - apply rbind_ok in H as ([k name'] & Hk & H).
    apply rbind_ok in Hk as (k' & Hk' & [= <- <-]).
    apply rbind_ok in H as (rest & Hrest & [= <-]).
    destruct (IH _ Hrest) as [Hnames Hkeys].
    split; [cbn; by f_equal|by constructor].
Qed.

Lemma read_cache_ids_all fs cache_path (cache_dirs : list string) :
  Forall (fun cache_dir =>
            ∃ text n, read_text fs (cache_path ++ [cache_dir; "id"]) = Ok text
                      ∧ py_int (strip text) = Ok n) cache_dirs →
  ∀ acc, ∃ ids,
    read_cache_ids fs cache_path cache_dirs acc = (acc ++ ids, None)
    ∧ Forall2 (fun cache_dir n =>
                 ∃ text, read_text fs (cache_path ++ [cache_dir; "id"])
                         = Ok text
                         ∧ py_int (strip text) = Ok n) cache_dirs ids.
Proof.
  induction 1 as [|d ds (text & n & Htext & Hn) _ IH]; intros acc;
    cbn [read_cache_ids].
  - exists []. split; [by rewrite app_nil_r|constructor].
  - rewrite Htext. cbn [rbind]. rewrite Hn.
    destruct (IH (acc ++ [n])) as (ids & -> & Hids).
    exists (n :: ids). split; [by rewrite <- app_assoc|].
    constructor; [by exists text|done].
Qed.

(** X21: what a cache level is.  When the [id] file of every [indexN]
    directory of a CPU is read and parsed, [_get_cache_info] returns one
    id per directory, the directories taken in ascending order of their
    numbers [N] whatever the order of the listing: the id at position
    [k] is the id of the directory with the [k]-th smallest number. *)
Theorem get_cache_info_levels fs (logical_id : Z) names :
  iterdir fs (cpu_dir logical_id ++ ["cache"]) = Ok names →
  Forall (fun name =>
            numbered "index" name = true →
            ∃ text n,
              read_text fs (cpu_dir logical_id ++ ["cache"; name; "id"])
              = Ok text
              ∧ py_int (strip text) = Ok n) names →
  ∃ cache_dirs cache_ids,
    _get_cache_info fs logical_id = Ok cache_ids
    ∧ cache_dirs ≡ₚ List.filter (numbered "index") names
    ∧ StronglySorted
        (fun a b => ∃ i j, py_int (str_drop 5 a) = Ok i
                           ∧ py_int (str_drop 5 b) = Ok j ∧ i ≤ j)
        cache_dirs
    ∧ Forall2 (fun cache_dir n =>
                 ∃ text,
                   read_text fs
                     (cpu_dir logical_id ++ ["cache"; cache_dir; "id"])
                   = Ok text
                   ∧ py_int (strip text) = Ok n) cache_dirs cache_ids.
Proof.
  intros Hdir Hfiles. unfold _get_cache_info. cbv zeta.
  rewrite Hdir. cbn [rbind].
  destruct (cache_keys_ok names) as (keyed & Hkeyed & _). rewrite Hkeyed.
  destruct (index_keys _ _ Hkeyed) as [Hnames Hkeys].
  set (sorted := py_sorted Z.leb fst keyed).
  assert (map snd sorted ≡ₚ List.filter (numbered "index") names) as Hperm.
  { rewrite <- Hnames. apply Permutation_map. apply (py_sorted_perm Z.leb). }
  destruct (read_cache_ids_all fs (cpu_dir logical_id ++ ["cache"])
              (map snd sorted)) with (acc := @nil Z) as (ids & Hloop & Hids).
  { apply Forall_forall. intros d Hd. rewrite Hperm in Hd.
    apply elem_of_list_filter in Hd as [Hnumbered Hd].
    rewrite Forall_forall in Hfiles.
    destruct (Hfiles d Hd Hnumbered) as (text & n & Htext & Hn).
    exists text, n. by rewrite <- app_assoc. }
  rewrite Hloop. exists (map snd sorted), ids.
  split; [done|]. split; [done|]. split.
  - apply StronglySorted_map.
    eapply StronglySorted_weaken_elem;
      [|apply (py_sorted_sorted Z.leb fst Z_leb_total Z_leb_trans)].
    intros a b Ha Hb Hle. fold sorted in Ha, Hb.
    unfold sorted in Ha, Hb. rewrite (py_sorted_perm Z.leb) in Ha, Hb.
    rewrite Forall_forall in Hkeys.
    exists a.1, b.1. split; [by apply Hkeys|]. split; [by apply Hkeys|].
    by apply Z.leb_le.
  - eapply Forall2_impl; [exact Hids|].
    intros d n (text & Htext & Hn). exists text.
    by rewrite <- app_assoc in Htext.
Qed.

Lemma get_cache_info_levels_witness :
  ∃ cache_dirs cache_ids,
    _get_cache_info example_tree 0 = Ok cache_ids
    ∧ cache_dirs ≡ₚ List.filter (numbered "index") ["index1"; "index0"]
    ∧ StronglySorted
        (fun a b => ∃ i j, py_int (str_drop 5 a) = Ok i
                           ∧ py_int (str_drop 5 b) = Ok j ∧ i ≤ j)
        cache_dirs
    ∧ Forall2 (fun cache_dir n =>
                 ∃ text,
                   read_text example_tree
                     (cpu_dir 0 ++ ["cache"; cache_dir; "id"])
                   = Ok text
                   ∧ py_int (strip text) = Ok n) cache_dirs cache_ids.
Proof.
  apply (get_cache_info_levels example_tree 0 ["index1"; "index0"]).
  - vm_compute. reflexivity.
  - repeat constructor; intros _; eexists _, _; split; vm_compute;
      reflexivity.
Defined.

End ReaderFacts.

(* ===================================================================== *)
(** ** From the tree to the clusters *)
(* ===================================================================== *)

Module PipelineFacts.
Import SystemTopology SortingFacts TopologyFacts.
Import ClusterShape ClusterFacts ReaderFacts OptimizerFacts.

Lemma int_digits_nonneg (s : string) :
  all_digits s = true →
  ∀ acc after_digit n,
    0 ≤ acc → int_digits acc after_digit s = Some n → 0 ≤ n.
Proof.
  induction s as [|c s IH]; intros Hs acc after_digit n Hacc.
  - cbn [int_digits]. destruct after_digit; [|done]. by intros [= <-].
  - cbn [all_digits int_digits] in *. apply andb_true_iff in Hs as [Hc Hs].
    destruct (is_digit_not_special c Hc) as (_ & -> & _). rewrite Hc.
    apply IH; [done|].
    unfold is_digit in Hc. apply andb_true_iff in Hc as [Hc _].
    apply Nat.leb_le in Hc. lia.
Qed.

(** The number of a directory [nodeN] or [cpuN] is not negative. *)
Lemma py_int_isdigit_nonneg (s : string) n :
  isdigit s = true → py_int s = Ok n → 0 ≤ n.
Proof.
  destruct s as [|c s]; [done|]. cbn [isdigit]. intros Hs.
  unfold py_int, strip. rewrite lstrip_digits, rstrip_digits by done.
  pose proof Hs as Hc. cbn [all_digits] in Hc.
  apply andb_true_iff in Hc as [Hc _].
  destruct (is_digit_not_special c Hc) as (_ & _ & Hplus & Hminus).
  replace (match String c s with
           | String "+" digits => int_digits 0 false digits
           | String "-" digits => Z.opp <$> int_digits 0 false digits
           | _ => int_digits 0 false (String c s)
           end) with (int_digits 0 false (String c s)).
  - destruct (int_digits 0 false (String c s)) as [m|] eqn:Hm; [|done].
    intros [= <-]. by eapply (int_digits_nonneg _ Hs 0 false).
  - destruct (Ascii.eqb_spec c "+"); [done|].
    destruct (Ascii.eqb_spec c "-"); [done|].
    destruct c as [[] [] [] [] [] [] [] []]; done.
Qed.

(** The ids of the nodes [get_nodes_info] returns are node numbers. *)
Lemma get_nodes_info_ids fs log nodes log' :
  get_nodes_info fs log = (Ok nodes, log') →
  Forall (fun node => 0 ≤ id node) nodes.
Proof.
  intros [(e & _ & ->)|(mem & log0 & names & read & _ & _ & Hread & ->)]
    %get_nodes_info_run; [constructor|].
  apply Forall_forall. intros node Hnode.
  rewrite (py_sorted_perm Z.leb) in Hnode.
  destruct (read_nodes_elem _ _ _ _ _ _ _ Hread node Hnode)
    as [Hnil|(d & n & Hd & Hn & Hnode')]; [by apply elem_of_nil in Hnil|].
  apply read_node_id in Hnode' as [-> _].
  apply elem_of_list_filter in Hd as [Hd _].
  apply andb_true_iff in Hd as [_ Hdigits].
  by eapply py_int_isdigit_nonneg.
Qed.

Lemma get_clusters_None fs cache_level log nodes log1 :
  get_nodes_info fs log = (Ok nodes, log1) →
  get_clusters fs None cache_level log
  = get_clusters fs (Some nodes) cache_level log1.
Proof. intros H. unfold get_clusters. by rewrite H. Qed.

Lemma rmapM_Ok_Forall2 {A B} (f : A → result B) l l' :
  rmapM f l = Ok l' → Forall2 (fun x y => f x = Ok y) l l'.
Proof.
  revert l'. induction l as [|x l IH]; intros l' H; cbn [rmapM] in H.
  - injection H as <-. constructor.
  - apply rbind_ok in H as (y & Hy & H).
    apply rbind_ok in H as (ys & Hys & H). injection H as <-.
    constructor; [done|by apply IH].
Qed.

(** What [get_clusters] gives on a node list whose ids are node
    numbers: nothing but the [ValueError] of the optimizer, or clusters
    none of which is empty. *)
Lemma get_clusters_outcome fs (nodes : list NodeInfo) cache_level log r log' :
  raises_OSError fs →
  Forall (fun node => 0 ≤ id node) nodes →
  get_clusters fs (Some nodes) cache_level log = (r, log') →
  match r with
  | Raise e => e = ValueError
  | Ok clusters => Forall (fun cluster : Cluster => cluster ≠ []) clusters
  end.
Proof.
  intros Hfs Hids.
  destruct (decide (Exists (fun node => memory node = true) nodes))
    as [Hanchor|Hnone].
  - assert (anchor_ids_valid nodes) as Hvalid.
    { eapply Forall_impl; [exact Hids|]. by intros node ? _. }
    rewrite (get_clusters_sorted fs nodes cache_level Hanchor Hvalid).
    cbv zeta. intros [= <- _].
    set (sorted := map _ (seed_clusters (anchors_of nodes))).
    assert (Forall (fun cluster : Cluster => cluster ≠ []) sorted) as Hsorted.
    { apply Forall_forall. intros c (kv & -> & Hkv)%elem_of_map.
      destruct (seed_clusters_spec (anchors_of nodes)) as [Hseed _].
      destruct kv as [k c0]. destruct (Hseed k c0 Hkv) as (m & _ & _ & ->).
      done. }
    destruct (0 <=? cache_level); [|done].
    destruct (rmapM _ sorted) as [clusters|e] eqn:Hrun.
    + apply rmapM_Ok_Forall2 in Hrun. clear -Hrun Hsorted.
      induction Hrun as [|c c' cs cs' Hc _ IH]; [constructor|].
      apply Forall_cons in Hsorted as [Hne Hsorted].
      constructor; [|by apply IH].
      destruct c; [done|]. cbn [rmapM] in Hc.
      apply rbind_ok in Hc as (? & _ & Hc).
      apply rbind_ok in Hc as (? & _ & Hc). by injection Hc as <-.
    + apply rmapM_raise in Hrun as (c & _ & Hc).
      apply rmapM_raise in Hc as (x & _ & Hx).
      apply optimize_cache_nodes_stops in Hx as (_ & core & first & _ & _ & Hx).
      by apply get_cache_info_raises in Hx as [-> _].
  - unfold get_clusters. destruct nodes as [|n ns].
    { intros [= <- _]. constructor. }
    replace (List.filter memory (n :: ns)) with (@nil NodeInfo).
    { intros [= <- _]. by repeat constructor. }
    symmetry. apply not_Exists_Forall in Hnone; [|intros x; apply _].
    clear -Hnone. induction Hnone as [|x l Hx _ IH]; [done|].
    cbn [List.filter]. cbn in Hx. by destruct (memory x).
Qed.



End PipelineFacts.

(* ===================================================================== *)
(** ** The writers and [main] on any tree *)
(* ===================================================================== *)

Module CommandLineFacts.
Import SystemTopology CPUPinningGenerator CommandLine.
Import PinningFacts TopologyFacts GeneratorFacts ReaderFacts PipelineFacts.

(** No cluster built from the tree is empty. *)
Lemma get_clusters_tree_nonempty fs cache_level log clusters log' :
  raises_OSError fs →
  get_clusters fs None cache_level log = (Ok clusters, log') →
  Forall (fun cluster : Cluster => cluster ≠ []) clusters.
Proof.
  intros Hfs Hrun.
  destruct (get_nodes_info fs log) as [[nodes|e] log1] eqn:Hnodes.
  - rewrite (get_clusters_None _ _ _ _ _ Hnodes) in Hrun.
    apply (get_clusters_outcome fs nodes cache_level log1 (Ok clusters) log');
      [done| |done].
    by eapply get_nodes_info_ids.
  - unfold get_clusters in Hrun. by rewrite Hnodes in Hrun.
Qed.

Lemma enumerate_nonempty (clusters : list Cluster) :
  Forall (fun cluster : Cluster => cluster ≠ []) clusters →
  Forall (fun ic : nat * Cluster => ic.2 ≠ []) (enumerate clusters).
Proof.
  unfold enumerate. intros H. generalize 0%nat.
  induction H as [|c cs Hc _ IH]; intros start; cbn; constructor; auto.
Qed.


(** *** The text of a block of writes *)

Lemma string_append_assoc (a b c : string) :
  (a +:+ b) +:+ c = a +:+ b +:+ c.
Proof.
  induction a as [|x a IH]; [done|].
  change (String x ((a +:+ b) +:+ c) = String x (a +:+ b +:+ c)).
  by f_equal.
Qed.

Lemma string_append_nil_r (a : string) : a +:+ EmptyString = a.
Proof.
  induction a as [|x a IH]; [done|].
  change (String x (a +:+ EmptyString) = String x a). by f_equal.
Qed.

Lemma text_of_app (xs ys : list string) :
  text_of (xs ++ ys) = text_of xs +:+ text_of ys.
Proof.
  induction xs as [|x xs IH]; [done|].
  change (x +:+ text_of (xs ++ ys) = (x +:+ text_of xs) +:+ text_of ys).
  by rewrite IH, string_append_assoc.
Qed.

Lemma write_all_app disk path (xs ys : list string) f :
  write_all disk path (xs ++ ys) f
  = write_all disk path ys (write_all disk path xs f).
Proof. revert f. induction xs as [|x xs IH]; intros f; [done|]. apply IH. Qed.

Lemma write_all_stopped disk path (chunks : list string) f e :
  stopped f = Some e → write_all disk path chunks f = f.
Proof.
  induction chunks as [|c cs IH]; intros Hf; [done|]. cbn [write_all].
  unfold fwrite. rewrite Hf. by apply IH.
Qed.

(** A [with] block that makes these writes: it ends without an
    exception exactly when the file takes every write and is closed, the
    file was then handed the whole text, and in any case the text of the
    first writes. *)
Lemma block_outcome disk path (chunks : list string) :
  ∀ text,
    (stopped (fclose disk path
                (write_all disk path chunks (mkHandle text None))) = None
     ↔ accepted disk path text chunks)
    ∧ (stopped (fclose disk path
                  (write_all disk path chunks (mkHandle text None))) = None →
       held (fclose disk path
               (write_all disk path chunks (mkHandle text None)))
       = text +:+ text_of chunks)
    ∧ ∃ first_lines other_lines,
        chunks = first_lines ++ other_lines
        ∧ held (fclose disk path
                  (write_all disk path chunks (mkHandle text None)))
          = text +:+ text_of first_lines.
Proof.
  induction chunks as [|c cs IH]; intros text; cbn [write_all].
  - unfold fclose. cbn [held accepted].
    destruct (close disk path text) as [u|e] eqn:Hclose; cbn [stopped held].
    + split; [split; [intros _; by exists u|done]|].
      split; [intros _; by rewrite string_append_nil_r|].
      exists [], []. by rewrite string_append_nil_r.
    + split; [split; [done|by intros [u [=]]]|]. split; [done|].
      exists [], []. by rewrite string_append_nil_r.
  - cbn [accepted].
    destruct (write disk path text c) as [u|e] eqn:Hwrite.
    + replace (fwrite disk path c (mkHandle text None))
        with (mkHandle (text +:+ c) None)
        by (unfold fwrite; cbn [stopped held]; by rewrite Hwrite).
      destruct (IH (text +:+ c))
        as (Hiff & Hfull & first_lines & other_lines & Hsplit & Hheld).
      split; [|split].
      * rewrite Hiff. split; [intros ?; split; [by exists u|done]|].
        by intros [_ ?].
      * intros Hnone. rewrite (Hfull Hnone). cbn [text_of foldr].
        by rewrite string_append_assoc.
      * exists (c :: first_lines), other_lines.
        split; [by rewrite Hsplit|]. rewrite Hheld. cbn [text_of foldr].
        by rewrite string_append_assoc.
    + replace (fwrite disk path c (mkHandle text None))
        with (mkHandle text (Some e))
        by (unfold fwrite; cbn [stopped held]; by rewrite Hwrite).
      rewrite (write_all_stopped _ _ _ _ e) by done.
      unfold fclose. cbn [held].
      destruct (close disk path text); cbn [stopped held];
        (split; [split; [done|by intros [[u' [=]] _]]|]);
        (split; [done|]);
        exists [], (c :: cs); by rewrite string_append_nil_r.
Qed.

(** *** The loops of the writers *)

Lemma pinning_loop disk path (pinning : list Z) :
  ∀ f,
    fold_left (fun file cpu_id => fwrite disk path (pretty cpu_id +:+ LF) file)
              pinning f
    = write_all disk path (pinning_lines pinning) f.
Proof. induction pinning as [|cpu_id pinning IH]; intros f; [done|]. apply IH. Qed.

Lemma core_line (a b c rest : string) :
  ("core[" +:+ a +:+ "][" +:+ b +:+ "][" +:+ c +:+ "]") +:+ "=" +:+ rest
  = "core[" +:+ a +:+ "][" +:+ b +:+ "][" +:+ c +:+ "]=" +:+ rest.
Proof.
  rewrite !string_append_assoc. reflexivity.
Qed.

Lemma write_cores_lines disk path (cluster_idx node_idx : nat)
    (cores : list (list Z)) f :
  write_cores disk path cluster_idx node_idx cores f
  = write_all disk path
      (flat_map (lines_of_core cluster_idx node_idx) (enumerate cores)) f.
Proof.
  unfold write_cores. generalize (enumerate cores). intros l. revert f.
  induction l as [|[core_idx cpus] l IH]; intros f; [done|].
  cbn [fold_left flat_map]. rewrite IH.
  destruct cpus as [|cpu cpus]; [done|].
  unfold lines_of_core at 2. cbn [fst snd app write_all].
  by rewrite core_line.
Qed.

Lemma write_nodes_lines disk path (cluster_idx : nat) (cluster : Cluster) f :
  write_nodes disk path cluster_idx cluster f
  = write_all disk path
      (flat_map (lines_of_node cluster_idx) (enumerate cluster)) f.
Proof.
  unfold write_nodes. generalize (enumerate cluster). intros l. revert f.
  induction l as [|[node_idx node] l IH]; intros f; [done|].
  cbn [fold_left flat_map]. rewrite IH, write_cores_lines.
  unfold lines_of_node at 2. cbn [fst snd app write_all].
  by rewrite write_all_app.
Qed.

Lemma write_clusters_lines disk path (clusters : list Cluster) f :
  Forall (fun cluster : Cluster => cluster ≠ []) clusters →
  write_clusters disk path clusters f
  = write_all disk path (flat_map lines_of_cluster (enumerate clusters)) f.
Proof.
  intros Hne%enumerate_nonempty. unfold write_clusters.
  revert f. induction Hne as [|[cluster_idx cluster] l Hc _ IH]; intros f;
    [done|].
  cbn [fold_left flat_map]. rewrite IH.
  destruct cluster as [|first rest]; [done|].
  rewrite write_nodes_lines.
  unfold lines_of_cluster at 2. cbn [fst snd app write_all].
  by rewrite write_all_app.
Qed.

(** What [save_pinning_to_file] leaves: it returns exactly when the file
    is opened, takes every line and is closed, and the file then holds
    the whole pinning; when it raises, the file is untouched or holds the
    first ids. *)
Lemma save_pinning_to_file_outcome disk filepath (pinning : list Z) out :
  ∃ r out',
    save_pinning_to_file disk filepath pinning out = (r, out')
    ∧ ((∃ u, r = Ok u) ↔ stored disk filepath (pinning_lines pinning))
    ∧ ((∃ u, r = Ok u) →
       out' = mkOutput (printed out)
                       (written out ++ [(filepath, pinning_text pinning)]))
    ∧ (∀ e, r = Raise e →
         written out' = written out
         ∨ ∃ saved rest,
             pinning = saved ++ rest
             ∧ written out' = written out ++ [(filepath, pinning_text saved)]).
Proof.
  unfold save_pinning_to_file, stored.
  destruct (open_w disk filepath) as [u|e] eqn:Hopen.
  2:{ destruct (is_OSError e); eexists _, _; (split; [done|]);
        (split; [split; [by intros [? [=]]|by intros [[? [=]] _]]|]);
        (split; [by intros [? [=]]|]); intros ? _; by left. }
  cbv zeta. rewrite pinning_loop.
  destruct (block_outcome disk filepath (pinning_lines pinning) EmptyString)
    as (Hiff & Hfull & first_lines & other_lines & Hsplit & Hheld).
  destruct (stopped (fclose disk filepath _)) as [e|] eqn:Hstop.
  - unfold pinning_lines in Hsplit.
    apply fmap_app_inv in Hsplit as (saved & rest & -> & -> & ->).
    rewrite Hheld.
    destruct (is_OSError e); eexists (Raise e), _; (split; [done|]);
      (split; [split; [by intros [? [=]]|
                       intros [_ Hacc]; apply Hiff in Hacc; congruence]|]);
      (split; [by intros [? [=]]|]); intros ? _; right; by exists saved, rest.
  - eexists _, _. split; [done|].
    split; [split; [intros _; split; [by exists u|by apply Hiff]|
                    intros _; by exists tt]|].
    split; [|by intros ? [=]]. intros _. by rewrite (Hfull eq_refl).
Qed.

(** X15: when reading the tree fails only with [OSError],
    [save_cluster_info] returns [True] exactly when [get_clusters]
    returns at least one cluster and the file is opened, takes every
    line and is closed; the file was then handed the four header lines
    and, for every cluster in turn, its line, the line of each of its
    nodes and one line per non-empty core tuple.  When it returns
    [False], no file was opened or the file was handed the first of
    these lines only: a write or the close failed.  The loop over the
    clusters is never stopped by [cluster[0]]. *)
Theorem save_cluster_info_outcome disk fs nodename filename cache_level out :
  raises_OSError fs →
  ∃ saved out',
    save_cluster_info disk fs nodename filename cache_level out
    = (saved, out')
    ∧ (saved = true ↔
       ∃ clusters log,
         get_clusters fs None cache_level [] = (Ok clusters, log)
         ∧ clusters ≠ []
         ∧ stored disk filename
                  (cluster_info_lines nodename cache_level clusters))
    ∧ (saved = true →
       ∃ clusters log,
         get_clusters fs None cache_level [] = (Ok clusters, log)
         ∧ written out'
           = written out
             ++ [(filename,
                  text_of (cluster_info_lines nodename cache_level clusters))])
    ∧ (saved = false →
       written out' = written out
       ∨ ∃ clusters log first_lines other_lines,
           get_clusters fs None cache_level [] = (Ok clusters, log)
           ∧ cluster_info_lines nodename cache_level clusters
             = first_lines ++ other_lines
           ∧ written out' = written out ++ [(filename, text_of first_lines)]).
Proof.
  intros Hfs. unfold save_cluster_info.
  destruct (get_clusters fs None cache_level []) as [[clusters|e] log]
    eqn:Hrun.
  2:{ eexists _, _. split; [done|]. split; [|split; [done|by left]].
      split; [done|]. by intros (? & ? & [=] & _). }
  destruct clusters as [|c cs].
  { eexists _, _. split; [done|]. split; [|split; [done|by left]].
    split; [done|]. by intros (? & ? & [= <- _] & ? & _). }
  unfold stored.
  destruct (open_w disk filename) as [u|e] eqn:Hopen.
  2:{ eexists _, _. split; [done|]. split; [|split; [done|by left]].
      split; [done|]. by intros (? & ? & _ & _ & [? [=]] & _). }
  cbv zeta.
  rewrite write_clusters_lines by (by eapply get_clusters_tree_nonempty).
  change (write_all disk filename
            (flat_map lines_of_cluster (enumerate (c :: cs))) _)
    with (write_all disk filename
            (cluster_info_lines nodename cache_level (c :: cs))
            (mkHandle EmptyString None)).
  destruct (block_outcome disk filename
              (cluster_info_lines nodename cache_level (c :: cs)) EmptyString)
    as (Hiff & Hfull & first_lines & other_lines & Hsplit & Hheld).
  destruct (stopped (fclose disk filename _)) as [e|] eqn:Hstop.
  - eexists _, _. split; [done|]. split; [|split; [done|]].
    + split; [done|]. intros (? & ? & [= <- _] & _ & _ & Hacc).
      apply Hiff in Hacc. congruence.
    + intros _. right. exists (c :: cs), log, first_lines, other_lines.
      split; [done|]. split; [done|]. cbn [written print]. by rewrite Hheld.
  - eexists _, _. split; [done|]. split; [|split; [|done]].
    + split; [|done]. intros _. exists (c :: cs), log.
      split; [done|]. split; [done|]. split; [by exists u|by apply Hiff].
    + intros _. exists (c :: cs), log. split; [done|].
      cbn [written print]. by rewrite (Hfull eq_refl).
Qed.

Lemma save_cluster_info_outcome_witness :
  save_cluster_info sound_disk example_tree "host" "pinning.conf" (-1)
                    (mkOutput [] [])
  = (true,
     mkOutput [Saved_cluster_info "pinning.conf"]
       [("pinning.conf",
         text_of
           [ "# CPU Pinning Configuration" +:+ LF;
             "# Generated on host" +:+ LF;
             "# Format: core[cluster_id][node_id][core_id]=smt_list" +:+ LF;
             "# Cache optimization level: -1" +:+ LF;
             LF;
             "# Cluster 0 (Memory Node: 0)" +:+ LF;
             "# Node 0 (Memory)" +:+ LF;
             "core[0][0][0]=0,2" +:+ LF;
             "core[0][0][1]=1,3" +:+ LF;
             "# Node 2 (Compute)" +:+ LF;
             "core[0][1][0]=6" +:+ LF;
             "# Cluster 1 (Memory Node: 1)" +:+ LF;
             "# Node 1 (Memory)" +:+ LF;
             "core[1][0][0]=4" +:+ LF;
             "core[1][0][1]=5" +:+ LF ])])
  ∧ save_cluster_info (small_disk 100) example_tree "host" "pinning.conf"
                      (-1) (mkOutput [] [])
    = (false,
       mkOutput [Error_saving OSError]
         [("pinning.conf",
           text_of
             [ "# CPU Pinning Configuration" +:+ LF;
               "# Generated on host" +:+ LF;
               "# Format: core[cluster_id][node_id][core_id]=smt_list"
               +:+ LF ])])
  ∧ ∃ saved out',
      save_cluster_info sound_disk example_tree "host" "pinning.conf" (-1)
                        (mkOutput [] [])
      = (saved, out')
      ∧ (saved = true ↔
         ∃ clusters log,
           get_clusters example_tree None (-1) [] = (Ok clusters, log)
           ∧ clusters ≠ []
           ∧ stored sound_disk "pinning.conf"
                    (cluster_info_lines "host" (-1) clusters))
      ∧ (saved = true →
         ∃ clusters log,
           get_clusters example_tree None (-1) [] = (Ok clusters, log)
           ∧ written out'
             = [] ++ [("pinning.conf",
                       text_of (cluster_info_lines "host" (-1) clusters))])
      ∧ (saved = false →
         written out' = []
         ∨ ∃ clusters log first_lines other_lines,
             get_clusters example_tree None (-1) [] = (Ok clusters, log)
             ∧ cluster_info_lines "host" (-1) clusters
               = first_lines ++ other_lines
             ∧ written out' = [] ++ [("pinning.conf", text_of first_lines)]).
Proof.
  split; [vm_compute; reflexivity|]. split; [vm_compute; reflexivity|].
  apply (save_cluster_info_outcome sound_disk example_tree
           "host" "pinning.conf" (-1) (mkOutput [] [])).
  intros path e H. unfold example_tree, tree in H.
  cbn [read_text iterdir] in H.
  destruct H as [H|H]; destruct (List.find _ _); by inversion H.
Defined.

Lemma printed_clusters_nonempty (clusters : list Cluster) :
  Forall (fun cluster : Cluster => cluster ≠ []) clusters →
  printed_clusters clusters = (clusters, None).
Proof.
  induction 1 as [|c cs Hc _ IH]; [done|]. cbn [printed_clusters].
  destruct c; [done|]. by rewrite IH.
Qed.

Lemma failed_exit (out : Output) (e : exn) :
  (failed out e).1 = 1 ∧ written (failed out e).2 = written out.
Proof. unfold failed, unexpected. by destruct (is_ValueError e). Qed.


Lemma unexpected_exit (out : Output) (e : exn) :
  (unexpected out e).1 = 1 ∧ written (unexpected out e).2 = written out.
Proof. done. Qed.

(** What a pinning mode does with the pinning of its generator. *)
Lemma pinned_outcome disk filepath (pinning : list Z) out0
    (saved_report : report) (handler : Output → exn → Z * Output) :
  (∀ out e, (handler out e).1 = 1
            ∧ written (handler out e).2 = written out) →
  written out0 = [] →
  ∃ code out,
    match save_pinning_to_file disk filepath pinning out0 with
    | (Ok _, out) => Some (0, print out saved_report)
    | (Raise e, out) => Some (handler out e)
    end = Some (code, out)
    ∧ (code = 0 ∨ code = 1)
    ∧ (code = 0 ↔ stored disk filepath (pinning_lines pinning))
    ∧ (code = 0 → written out = [(filepath, pinning_text pinning)])
    ∧ (code = 1 →
       written out = []
       ∨ ∃ saved rest,
           pinning = saved ++ rest
           ∧ written out = [(filepath, pinning_text saved)]).
Proof.
  intros Hhandler Hnone.
  destruct (save_pinning_to_file_outcome disk filepath pinning out0)
    as (r & out' & -> & Hiff & Hok & Hfail).
  destruct r as [u|e].
  - eexists _, _. split; [done|]. split; [by left|].
    split; [split; [intros _; apply Hiff; by exists u|done]|].
    split; [|done]. intros _. rewrite (Hok (ex_intro _ u eq_refl)).
    cbn [written print]. by rewrite Hnone.
  - destruct (Hhandler out' e) as [Hcode Hwritten].
    exists (handler out' e).1, (handler out' e).2.
    split; [by destruct (handler out' e)|]. split; [by right|].
    rewrite Hcode, Hwritten.
    split; [split; [done|by intros [? [=]]%Hiff]|]. split; [done|].
    intros _. destruct (Hfail e eq_refl) as [->|(saved & rest & -> & ->)];
      rewrite Hnone; [by left|]. right. by exists saved, rest.
Qed.

(** X16: when reading the tree fails only with [OSError], [main]
    returns, with exit code 0 or 1, once the fuel is enough for the
    loops of the ping-pong generator.  The reporting modes write no
    file; [--cpu] always exits with 0, [--cluster] exactly when
    [get_clusters] returns.  A pinning mode exits with 0 exactly when
    [get_clusters] returns at least one cluster, its generator returns a
    pinning and the file is opened, takes every line and is closed; the
    file was then handed the whole pinning, one id per line.  With exit
    code 1 no file was opened, or the file was handed the first ids of
    the pinning only: a write or the close failed. *)
Theorem main_outcome disk fs (args : Args) :
  raises_OSError fs →
  ∃ fuel0 code out,
    (∀ fuel, (fuel0 ≤ fuel)%nat → main disk fs fuel args = Some (code, out))
    ∧ (code = 0 ∨ code = 1)
    ∧ match mode args with
      | Mode_cpu => code = 0 ∧ written out = []
      | Mode_cluster =>
          written out = []
          ∧ (code = 0 ↔
             ∃ clusters log,
               get_clusters fs None (cache args) [] = (Ok clusters, log))
      | Mode_pin_cluster filepath =>
          (code = 0 ↔
           ∃ clusters log pinning,
             get_clusters fs None (cache args) [] = (Ok clusters, log)
             ∧ clusters ≠ []
             ∧ cluster_first_pinning clusters = Ok pinning
             ∧ stored disk filepath (pinning_lines pinning))
          ∧ (code = 0 →
             ∃ clusters log pinning,
               get_clusters fs None (cache args) [] = (Ok clusters, log)
               ∧ cluster_first_pinning clusters = Ok pinning
               ∧ written out = [(filepath, pinning_text pinning)])
          ∧ (code = 1 →
             written out = []
             ∨ ∃ clusters log saved rest,
                 get_clusters fs None (cache args) [] = (Ok clusters, log)
                 ∧ cluster_first_pinning clusters = Ok (saved ++ rest)
                 ∧ written out = [(filepath, pinning_text saved)])
      | Mode_pin_ping_pong filepath x =>
          (code = 0 ↔
           ∃ nodes_per_round clusters log pinning,
             py_int x = Ok nodes_per_round ∧ 0 < nodes_per_round
             ∧ get_clusters fs None (cache args) [] = (Ok clusters, log)
             ∧ clusters ≠ []
             ∧ (∀ fuel, (fuel0 ≤ fuel)%nat →
                  ping_pong_pinning fuel clusters nodes_per_round
                  = Some (Ok pinning))
             ∧ stored disk filepath (pinning_lines pinning))
          ∧ (code = 0 →
             ∃ nodes_per_round clusters log pinning,
               py_int x = Ok nodes_per_round ∧ 0 < nodes_per_round
               ∧ get_clusters fs None (cache args) [] = (Ok clusters, log)
               ∧ (∀ fuel, (fuel0 ≤ fuel)%nat →
                    ping_pong_pinning fuel clusters nodes_per_round
                    = Some (Ok pinning))
               ∧ written out = [(filepath, pinning_text pinning)])
          ∧ (code = 1 →
             written out = []
             ∨ ∃ nodes_per_round clusters log saved rest,
                 py_int x = Ok nodes_per_round ∧ 0 < nodes_per_round
                 ∧ get_clusters fs None (cache args) [] = (Ok clusters, log)
                 ∧ (∀ fuel, (fuel0 ≤ fuel)%nat →
                      ping_pong_pinning fuel clusters nodes_per_round
                      = Some (Ok (saved ++ rest)))
                 ∧ written out = [(filepath, pinning_text saved)])
      end.
Proof.
  intros Hfs. destruct args as [m lvl js]. unfold main. cbn [mode cache json].
  destruct m as [| |filepath x|filepath].
  - (* --cpu *)
    destruct (get_cpu_info_returns fs [] Hfs) as (cpus & log & ->).
    exists 0%nat.
    destruct js; eexists _, _; (split; [done|]); (split; [by left|]); done.
  - (* --cluster *)
    destruct (get_clusters fs None lvl []) as [[clusters|e] log] eqn:Hrun.
    + exists 0%nat. destruct js.
      * eexists _, _. split; [done|]. split; [by left|].
        split; [done|]. split; [|done]. intros _. by exists clusters, log.
      * unfold print_cluster_info.
        rewrite printed_clusters_nonempty
          by (by eapply get_clusters_tree_nonempty).
        eexists _, _. split; [done|]. split; [by left|].
        split; [done|]. split; [|done]. intros _. by exists clusters, log.
    + exists 0%nat. eexists _, _. split; [done|]. split; [by right|].
      split; [done|]. split; [done|]. by intros (? & ? & [=]).
  - (* --pin_ping_pong *)
    destruct (py_int x) as [npr|e] eqn:Hx.
    2:{ exists 0%nat, (failed (mkOutput [] []) e).1,
               (failed (mkOutput [] []) e).2.
        destruct (failed_exit (mkOutput [] []) e) as [Hcode Hwritten].
        split; [intros fuel _; by destruct (failed _ _)|].
        split; [by right|]. rewrite Hcode, Hwritten.
        split; [split; [done|by intros (? & ? & ? & ? & [=] & _)]|].
        split; [done|]. intros _. by left. }
    destruct (Z.leb_spec npr 0) as [Hle|Hlt].
    { exists 0%nat. eexists _, _. split; [done|]. split; [by right|].
      split; [split; [done|]|split; [done|intros _; by left]].
      intros (? & ? & ? & ? & [= <-] & ? & _). lia. }
    destruct (get_clusters fs None lvl []) as [[clusters|e] log] eqn:Hrun.
    2:{ exists 0%nat,
               (failed (prints (mkOutput [] []) log) e).1,
               (failed (prints (mkOutput [] []) log) e).2.
        destruct (failed_exit (prints (mkOutput [] []) log) e)
          as [Hcode Hwritten].
        split; [intros fuel _; by destruct (failed _ _)|].
        split; [by right|]. rewrite Hcode, Hwritten.
        split; [split; [done|by intros (? & ? & ? & ? & _ & _ & [=] & _)]|].
        split; [done|]. intros _. by left. }
    destruct clusters as [|c cs].
    { exists 0%nat. eexists _, _. split; [done|]. split; [by right|].
      split; [split; [done|]|split; [done|intros _; by left]].
      by intros (? & ? & ? & ? & _ & _ & [= <- _] & ? & _). }
    destruct (ping_pong_pinning_total (c :: cs) npr) as (fuel0 & r & Hpp).
    exists fuel0. destruct r as [pinning|e].
    + destruct (pinned_outcome disk filepath pinning
                  (prints (mkOutput [] []) log)
                  (Saved_ping_pong npr filepath) failed)
        as (code & out & Hsave & Hcode & Hiff & Hok & Hfail);
        [apply failed_exit|done|].
      exists code, out.
      split; [intros fuel Hfuel; by rewrite Hpp|]. split; [done|].
      split; [|split].
      * rewrite Hiff. split.
        -- intros Hstored. by exists npr, (c :: cs), log, pinning.
        -- intros (? & ? & ? & pinning' & [= <-] & _ & [= <- _] & _
                   & Hpp' & Hstored).
           specialize (Hpp' fuel0 (le_n _)).
           rewrite (Hpp fuel0 (le_n _)) in Hpp'. by injection Hpp' as ->.
      * intros Hzero. exists npr, (c :: cs), log, pinning.
        repeat (split; [done|]). by apply Hok.
      * intros Hone. destruct (Hfail Hone) as [?|(saved & rest & -> & ?)];
          [by left|]. right. by exists npr, (c :: cs), log, saved, rest.
    + exists (failed (prints (mkOutput [] []) log) e).1,
             (failed (prints (mkOutput [] []) log) e).2.
      destruct (failed_exit (prints (mkOutput [] []) log) e)
        as [Hcode Hwritten].
      split.
      { intros fuel Hfuel. rewrite Hpp by done. cbn [mbind option_bind].
        by destruct (failed _ _). }
      split; [by right|]. rewrite Hcode, Hwritten.
      split; [split; [done|]|split; [done|intros _; by left]].
      intros (? & ? & ? & pinning' & [= <-] & _ & [= <- _] & _ & Hpp' & _).
      specialize (Hpp' fuel0 (le_n _)).
      by rewrite (Hpp fuel0 (le_n _)) in Hpp'.
  - (* --pin_cluster *)
    exists 0%nat.
    destruct (get_clusters fs None lvl []) as [[clusters|e] log] eqn:Hrun.
    2:{ eexists _, _. split; [done|]. split; [by right|].
        split; [split; [done|by intros (? & ? & ? & [=] & _)]|].
        split; [done|]. intros _. by left. }
    destruct clusters as [|c cs].
    { eexists _, _. split; [done|]. split; [by right|].
      split; [split; [done|by intros (? & ? & ? & [= <- _] & ? & _)]|].
      split; [done|]. intros _. by left. }
    destruct (cluster_first_pinning_returns (c :: cs)) as [pinning Hcf].
    rewrite Hcf.
    destruct (pinned_outcome disk filepath pinning
                (prints (mkOutput [] []) log)
                (Saved_cluster_first filepath) unexpected)
      as (code & out & Hsave & Hcode & Hiff & Hok & Hfail);
      [apply unexpected_exit|done|].
    exists code, out. split; [done|]. split; [done|]. split; [|split].
    + rewrite Hiff. split.
      * intros Hstored. by exists (c :: cs), log, pinning.
      * intros (? & ? & pinning' & [= <- _] & _ & Hcf' & Hstored).
        rewrite Hcf in Hcf'. by injection Hcf' as ->.
    + intros Hzero. exists (c :: cs), log, pinning.
      repeat (split; [done|]). by apply Hok.
    + intros Hone. destruct (Hfail Hone) as [?|(saved & rest & -> & ?)];
        [by left|]. right. by exists (c :: cs), log, saved, rest.
Qed.

Lemma main_outcome_witness :
  main sound_disk example_tree 20
       (mkArgs (Mode_pin_ping_pong "pinning.txt" "1") (-1) false)
  = Some (0, mkOutput [Saved_ping_pong 1 "pinning.txt"]
                      [("pinning.txt",
                        text_of ["0" +:+ LF; "1" +:+ LF; "4" +:+ LF;
                                 "5" +:+ LF; "6" +:+ LF; "2" +:+ LF;
                                 "3" +:+ LF])])
  ∧ main (small_disk 6) example_tree 20
         (mkArgs (Mode_pin_ping_pong "pinning.txt" "1") (-1) false)
    = Some (1, mkOutput [Error_writing "pinning.txt" OSError;
                         Unexpected_error OSError]
                        [("pinning.txt",
                          text_of ["0" +:+ LF; "1" +:+ LF; "4" +:+ LF])])
  ∧ ∃ fuel0 code out,
      (∀ fuel, (fuel0 ≤ fuel)%nat →
         main sound_disk example_tree fuel
              (mkArgs (Mode_pin_ping_pong "pinning.txt" "1") (-1) false)
         = Some (code, out))
      ∧ (code = 0 ∨ code = 1)
      ∧ (code = 0 ↔
         ∃ nodes_per_round clusters log pinning,
           py_int "1" = Ok nodes_per_round ∧ 0 < nodes_per_round
           ∧ get_clusters example_tree None (-1) [] = (Ok clusters, log)
           ∧ clusters ≠ []
           ∧ (∀ fuel, (fuel0 ≤ fuel)%nat →
                ping_pong_pinning fuel clusters nodes_per_round
                = Some (Ok pinning))
           ∧ stored sound_disk "pinning.txt" (pinning_lines pinning))
      ∧ (code = 0 →
         ∃ nodes_per_round clusters log pinning,
           py_int "1" = Ok nodes_per_round ∧ 0 < nodes_per_round
           ∧ get_clusters example_tree None (-1) [] = (Ok clusters, log)
           ∧ (∀ fuel, (fuel0 ≤ fuel)%nat →
                ping_pong_pinning fuel clusters nodes_per_round
                = Some (Ok pinning))
           ∧ written out = [("pinning.txt", pinning_text pinning)])
      ∧ (code = 1 →
         written out = []
         ∨ ∃ nodes_per_round clusters log saved rest,
             py_int "1" = Ok nodes_per_round ∧ 0 < nodes_per_round
             ∧ get_clusters example_tree None (-1) [] = (Ok clusters, log)
             ∧ (∀ fuel, (fuel0 ≤ fuel)%nat →
                  ping_pong_pinning fuel clusters nodes_per_round
                  = Some (Ok (saved ++ rest)))
             ∧ written out = [("pinning.txt", pinning_text saved)]).
Proof.
  split; [vm_compute; reflexivity|]. split; [vm_compute; reflexivity|].
  apply (main_outcome sound_disk example_tree
           (mkArgs (Mode_pin_ping_pong "pinning.txt" "1") (-1) false)).
  intros path e H. unfold example_tree, tree in H.
  cbn [read_text iterdir] in H.
  destruct H as [H|H]; destruct (List.find _ _); by inversion H.
Defined.

(** X17: on clusters without any core tuple (every sibling list
    unreadable, or no tuple left by the cache optimization), the two
    pinning modes part: [--pin_cluster] opens its file, writes nothing
    to it and, when the file is closed, exits with 0 (with 1 when the
    close fails); [--pin_ping_pong] reports the [ValueError] of [max()],
    opens no file and exits with 1. *)
Theorem main_without_core_tuples disk fs (fuel : nat) filepath x
    nodes_per_round cache_level js clusters log u :
  get_clusters fs None cache_level [] = (Ok clusters, log) →
  clusters ≠ [] →
  no_core_tuple clusters →
  open_w disk filepath = Ok u →
  py_int x = Ok nodes_per_round →
  0 < nodes_per_round →
  (∀ u', close disk filepath EmptyString = Ok u' →
     main disk fs fuel (mkArgs (Mode_pin_cluster filepath) cache_level js)
     = Some (0, mkOutput (map Topology log ++ [Saved_cluster_first filepath])
                         [(filepath, EmptyString)]))
  ∧ (∀ e, close disk filepath EmptyString = Raise e →
       ∃ out,
         main disk fs fuel (mkArgs (Mode_pin_cluster filepath) cache_level js)
         = Some (1, out)
         ∧ written out = [(filepath, EmptyString)])
  ∧ main disk fs fuel
         (mkArgs (Mode_pin_ping_pong filepath x) cache_level js)
    = Some (1, mkOutput (map Topology log ++ [Error_value ValueError]) []).
Proof.
  intros Hrun Hne Hnone Hopen Hx Hpos. unfold main. cbn [mode cache json].
  rewrite Hrun, Hx. destruct clusters as [|c cs]; [done|].
  rewrite (cluster_first_pinning_no_cores _ Hnone).
  rewrite (ping_pong_pinning_no_cores _ _ fuel Hne Hpos Hnone).
  replace (nodes_per_round <=? 0) with false
    by (symmetry; apply Z.leb_gt; lia).
  unfold save_pinning_to_file. rewrite Hopen.
  cbn [fold_left]. unfold fclose. cbn [held stopped].
  split; [|split; [|done]].
  - intros u' Hclose. by rewrite Hclose.
  - intros e Hclose. rewrite Hclose. cbn [held stopped].
    destruct (is_OSError e); by eexists.
Qed.

Lemma main_without_core_tuples_witness :
  main sound_disk example_tree 0
       (mkArgs (Mode_pin_cluster "pinning.txt") 3 false)
  = Some (0, mkOutput ([] ++ [Saved_cluster_first "pinning.txt"])
                      [("pinning.txt", EmptyString)])
  ∧ (∃ out,
       main unclosable_disk example_tree 0
            (mkArgs (Mode_pin_cluster "pinning.txt") 3 false)
       = Some (1, out)
       ∧ written out = [("pinning.txt", EmptyString)])
  ∧ main sound_disk example_tree 0
         (mkArgs (Mode_pin_ping_pong "pinning.txt" "2") 3 false)
    = Some (1, mkOutput ([] ++ [Error_value ValueError]) []).
Proof.
  assert (get_clusters example_tree None 3 []
          = (Ok [[mkNodeInfo 0 true [] [10; 20; 20];
                  mkNodeInfo 2 false [] [20; 20; 10]];
                 [mkNodeInfo 1 true [] [20; 10; 20]]], [])) as Hrun
    by (vm_compute; reflexivity).
  assert (no_core_tuple [[mkNodeInfo 0 true [] [10; 20; 20];
                          mkNodeInfo 2 false [] [20; 20; 10]];
                         [mkNodeInfo 1 true [] [20; 10; 20]]]) as Hnone
    by repeat constructor.
  destruct (main_without_core_tuples sound_disk example_tree 0
              "pinning.txt" "2" 2 3 false _ [] tt Hrun)
    as (Hclosed & _ & Hping_pong);
    [discriminate|exact Hnone|reflexivity|vm_compute; reflexivity|lia|].
  destruct (main_without_core_tuples unclosable_disk example_tree 0
              "pinning.txt" "2" 2 3 false _ [] tt Hrun)
    as (_ & Hunclosed & _);
    [discriminate|exact Hnone|reflexivity|vm_compute; reflexivity|lia|].
  split; [by apply (Hclosed tt)|].
  split; [by apply (Hunclosed OSError)|]. exact Hping_pong.
Defined.

(** X22: on a machine without the topology tree (the CPU directory, the
    node directory and [has_memory] cannot be read), the topology
    functions return empty lists after their messages, [--cpu] and
    [--cluster] report nothing and exit with 0, both pinning modes print
    "No clusters found", write nothing and exit with 1, and
    [save_cluster_info] returns [False] without writing. *)
Theorem main_without_tree disk fs (fuel : nat) cache_level js
    e_cpu e_node e_memory :
  iterdir fs CPU_PATH = Raise e_cpu → is_OSError e_cpu = true →
  iterdir fs NODE_PATH = Raise e_node → is_OSError e_node = true →
  read_text fs (NODE_PATH ++ ["has_memory"]) = Raise e_memory →
  is_OSError e_memory = true →
  let told := [Topology Warning_memory_nodes_unreadable;
               Topology Error_node_path] in
  get_cpu_info fs [] = (Ok [], [Error_cpu_path])
  ∧ get_clusters fs None cache_level []
    = (Ok [], [Warning_memory_nodes_unreadable; Error_node_path])
  ∧ (∃ out, main disk fs fuel (mkArgs Mode_cpu cache_level js)
            = Some (0, out) ∧ written out = [])
  ∧ (∃ out, main disk fs fuel (mkArgs Mode_cluster cache_level js)
            = Some (0, out) ∧ written out = [])
  ∧ (∀ filepath,
       main disk fs fuel (mkArgs (Mode_pin_cluster filepath) cache_level js)
       = Some (1, mkOutput (told ++ [Error_no_clusters]) []))
  ∧ (∀ filepath x nodes_per_round,
       py_int x = Ok nodes_per_round → 0 < nodes_per_round →
       main disk fs fuel
            (mkArgs (Mode_pin_ping_pong filepath x) cache_level js)
       = Some (1, mkOutput (told ++ [Error_no_clusters]) []))
  ∧ (∀ nodename filename,
       save_cluster_info disk fs nodename filename cache_level
                         (mkOutput [] [])
       = (false, mkOutput (told ++ [Error_no_clusters]) [])).
Proof.
  intros Hcpu He_cpu Hnode He_node Hmemory He_memory told.
  assert (get_cpu_info fs [] = (Ok [], [Error_cpu_path])) as Hcpus.
  { unfold get_cpu_info. by rewrite Hcpu, He_cpu. }
  assert (get_clusters fs None cache_level []
          = (Ok [], [Warning_memory_nodes_unreadable; Error_node_path]))
    as Hclusters.
  { unfold get_clusters, get_nodes_info, read_memory_nodes.
    rewrite Hmemory. cbn [rbind]. by rewrite He_memory, Hnode, He_node. }
  split; [done|]. split; [done|].
  unfold main, save_cluster_info. cbn [mode cache json].
  rewrite Hcpus, Hclusters.
  split; [destruct js; by eexists|].
  split; [destruct js; by eexists|].
  split; [done|]. split; [|done].
  intros filepath x npr -> Hpos.
  by replace (npr <=? 0) with false by (symmetry; apply Z.leb_gt; lia).
Qed.

Lemma main_without_tree_witness :
  let told := [Topology Warning_memory_nodes_unreadable;
               Topology Error_node_path] in
  get_cpu_info (tree [] []) [] = (Ok [], [Error_cpu_path])
  ∧ get_clusters (tree [] []) None 3 []
    = (Ok [], [Warning_memory_nodes_unreadable; Error_node_path])
  ∧ (∃ out, main sound_disk (tree [] []) 0 (mkArgs Mode_cpu 3 false)
            = Some (0, out) ∧ written out = [])
  ∧ (∃ out, main sound_disk (tree [] []) 0 (mkArgs Mode_cluster 3 false)
            = Some (0, out) ∧ written out = [])
  ∧ (∀ filepath,
       main sound_disk (tree [] []) 0
            (mkArgs (Mode_pin_cluster filepath) 3 false)
       = Some (1, mkOutput (told ++ [Error_no_clusters]) []))
  ∧ (∀ filepath x nodes_per_round,
       py_int x = Ok nodes_per_round → 0 < nodes_per_round →
       main sound_disk (tree [] []) 0
            (mkArgs (Mode_pin_ping_pong filepath x) 3 false)
       = Some (1, mkOutput (told ++ [Error_no_clusters]) []))
  ∧ (∀ nodename filename,
       save_cluster_info sound_disk (tree [] []) nodename filename 3
                         (mkOutput [] [])
       = (false, mkOutput (told ++ [Error_no_clusters]) [])).
Proof.
  apply (main_without_tree sound_disk (tree [] []) 0 3 false
           FileNotFoundError FileNotFoundError FileNotFoundError);
    reflexivity.
Defined.

End CommandLineFacts.
